(** * Print.cpp: step invalidation, validation and first-layer planning

    A shallow embedding of the parts of [libslic3r/Print.cpp] that decide
    which cached results a configuration change makes stale, together with
    the extrusion-width check of [Print::validate], the early exit of
    [Print::_make_skirt] and the purge planning of [Print::_make_wipe_tower].

    Conventions.
    - The value of a [double] or of a [float] is a rational ([Q]).
      Comparisons, [std::max] and [std::min] are exact.  The operations
      whose rounding a statement depends on are rounded as IEEE 754 does, to
      the nearest number of the format and to the even one of two equally
      near: the product [max_nozzle_diameter * 3.] of [Print::validate]
      ([to_double]), the conversions to [float] and the [float] arithmetic
      of [Print::_make_wipe_tower] ([to_float]).  The other sums and
      products of doubles are those of the rationals.
    - A [std::array<State, COUNT>] indexed by a step enumeration is a total
      function from the enumeration to [State].
    - Option keys ([t_config_option_key]) are strings.
    - Code of the repository which is not in Print.cpp is either modelled
      from the specification (and marked so) or taken as a variable of a
      section. *)

From Stdlib Require Import QArith Qabs Qround Qpower Lqa Btauto.
From stdpp Require Import base decidable option list sorting gmap strings.

Local Open Scope string_scope.
Local Open Scope list_scope.

(** ** Step states *)

(** Modelled from the spec: the status of a step, [PrintStateBase::State]
    (PrintBase.hpp is not among the sources).  The spec gives the three
    values. *)
Inductive State : Set := Invalidated | Started | Done.

#[global] Instance State_eq_dec : EqDecision State.
Proof. solve_decision. Defined.

(** The step enumerations of Print.hpp, with the names Print.cpp uses, in
    the order of their numeric values. *)
Inductive PrintStep : Set :=
  | psWipeTower
  | psAlertWhenSupportsNeeded
  | psSkirtBrim
  | psGCodeExport.

Inductive PrintObjectStep : Set :=
  | posSlice
  | posPerimeters
  | posInfill
  | posSupportMaterial
  | posEstimateCurledExtrusions.

#[global] Instance PrintStep_eq_dec : EqDecision PrintStep.
Proof. solve_decision. Defined.

#[global] Instance PrintObjectStep_eq_dec : EqDecision PrintObjectStep.
Proof. solve_decision. Defined.

Definition PrintStep_index (s : PrintStep) : nat :=
  match s with
  | psWipeTower => 0
  | psAlertWhenSupportsNeeded => 1
  | psSkirtBrim => 2
  | psGCodeExport => 3
  end.

Definition PrintObjectStep_index (s : PrintObjectStep) : nat :=
  match s with
  | posSlice => 0
  | posPerimeters => 1
  | posInfill => 2
  | posSupportMaterial => 3
  | posEstimateCurledExtrusions => 4
  end.

Definition all_PrintSteps : list PrintStep :=
  [psWipeTower; psAlertWhenSupportsNeeded; psSkirtBrim; psGCodeExport].

Definition all_PrintObjectSteps : list PrintObjectStep :=
  [posSlice; posPerimeters; posInfill; posSupportMaterial;
   posEstimateCurledExtrusions].

(** [PrintState<StepType, COUNT>]: one status per step. *)
Definition PrintState (StepType : Type) : Type := StepType -> State.

Module PrintStateOps.
Section Ops.
Context {StepType : Type} `{EqDecision StepType}.

(** Modelled from the spec: [PrintState::invalidate] (PrintBase.hpp is not
    among the sources): the step becomes Invalidated, and the result tells
    whether that changed anything; invalidating an Invalidated step is a
    no-op returning false. *)
Definition invalidate (step : StepType) (st : PrintState StepType)
  : bool * PrintState StepType :=
  if decide (st step = Invalidated) then (false, st)
  else (true, fun s => if decide (s = step) then Invalidated else st s).

(** Modelled from the spec: [PrintState::invalidate_all] (PrintBase.hpp is
    not among the sources): every step of this one state array becomes
    Invalidated; the result tells whether any of them changed. *)
Definition invalidate_all (steps : list StepType) (st : PrintState StepType)
  : bool * PrintState StepType :=
  (existsb (fun s => negb (bool_decide (st s = Invalidated))) steps,
   fun s => if decide (s ∈ steps) then Invalidated else st s).

(** Modelled from the spec: [PrintState::is_done_unguarded]. *)
Definition is_done_unguarded (step : StepType) (st : PrintState StepType)
  : bool :=
  bool_decide (st step = Done).
End Ops.
End PrintStateOps.

(** ** Data model *)

(** Scaled integer coordinates ([coord_t]); overflow is not modelled. *)
Record Point : Set := mkPoint { x : Z; y : Z }.
Definition Points : Set := list Point.

Definition Point_add (p q : Point) : Point :=
  {| x := (x p + x q)%Z; y := (y p + y q)%Z |}.

Record ExPolygon : Set := { contour : Points; holes : list Points }.

Module Layer.
Record t : Set := { print_z : Q; lslices : list ExPolygon }.
End Layer.

Module SupportLayer.
(** [support_fills] stands for the points that
    [support_fills.collect_points] appends. *)
Record t : Set := { print_z : Q; support_fills : Points }.
End SupportLayer.

Record PrintInstance : Set := { shift : Point }.

(** [ConfigBase] as the extrusion-width check uses it: the absolute value of
    an option, a percentage being taken of [ratio_over]. *)
Record ConfigBase : Type := { get_abs_value : string -> Q -> Q }.

Inductive SupportMaterialStyle : Set := smsGrid | smsSnug | smsOrganic.
Inductive DraftShield : Set := dsDisabled | dsLimited | dsEnabled.
Inductive GCodeFlavor : Set :=
  | gcfRepRapSprinter | gcfRepRapFirmware | gcfRepetier | gcfTeacup
  | gcfMakerWare | gcfMarlinLegacy | gcfMarlinFirmware | gcfKlipper
  | gcfSailfish | gcfMach3 | gcfMachinekit | gcfSmoothie | gcfNoExtrusion.

#[global] Instance SupportMaterialStyle_eq_dec : EqDecision SupportMaterialStyle.
Proof. solve_decision. Defined.
#[global] Instance DraftShield_eq_dec : EqDecision DraftShield.
Proof. solve_decision. Defined.
#[global] Instance GCodeFlavor_eq_dec : EqDecision GCodeFlavor.
Proof. solve_decision. Defined.

Record PrintRegion : Type := { region_config : ConfigBase }.

Record SlicingParameters : Set := {
  first_print_layer_height : Q;
  sp_layer_height : Q;
  raft_layers : nat;
  gap_object_support : Q;
  gap_support_object : Q
}.

Record PrintObjectConfig : Type := {
  layer_height : Q;
  support_material_extruder : Z;
  support_material_interface_extruder : Z;
  support_material_style : SupportMaterialStyle;
  support_material_contact_distance : Q;
  support_material_synchronize_layers : bool;
  object_options : ConfigBase
}.

Record PrintObject : Type := {
  po_state : PrintState PrintObjectStep;
  m_layers : list Layer.t;
  support_layers : list SupportLayer.t;
  instances : list PrintInstance;
  all_regions : list PrintRegion;
  config : PrintObjectConfig;
  slicing_parameters : SlicingParameters;
  has_support_material : bool;
  has_support : bool;
  has_raft : bool
}.

Record PrintConfig : Set := {
  spiral_vase : bool;
  wipe_tower : bool;
  nozzle_diameter : list Q;
  filament_diameter : list Q;
  filament_minimal_purge_on_wipe_tower : list Q;
  gcode_flavor : GCodeFlavor;
  use_relative_e_distances : bool;
  ooze_prevention : bool;
  single_extruder_multi_material : bool;
  use_volumetric_e : bool;
  complete_objects : bool;
  draft_shield : DraftShield;
  skirts : Z;
  skirt_height : Z
}.

(** [ConfigOptionVector::get_at]: the i-th value, the first one when there
    is no i-th. *)
Definition get_at (values : list Q) (i : nat) : Q :=
  match values !! i with
  | Some v => v
  | None => match values with v :: _ => v | [] => 0%Q end
  end.

Module LayerTools.
Record t : Set := {
  print_z : Q;
  has_object : bool;
  has_support : bool;
  extruders : list nat;
  has_wipe_tower : bool;
  wipe_tower_partitions : nat;
  wipe_tower_layer_height : Q
}.
Definition set_has_support (b : bool) (lt : t) : t :=
  {| print_z := print_z lt; has_object := has_object lt; has_support := b;
     extruders := extruders lt; has_wipe_tower := has_wipe_tower lt;
     wipe_tower_partitions := wipe_tower_partitions lt;
     wipe_tower_layer_height := wipe_tower_layer_height lt |}.
End LayerTools.

(** What Print.cpp reads of a [ToolOrdering]. *)
Module ToolOrdering.
Record t : Set := {
  layer_tools : list LayerTools.t;
  all_extruders : list nat;
  first_extruder : nat;
  has_wipe_tower : bool
}.
Definition empty : t :=
  {| layer_tools := []; all_extruders := []; first_extruder := 0;
     has_wipe_tower := false |}.
Definition set_layer_tools (l : list LayerTools.t) (o : t) : t :=
  {| layer_tools := l; all_extruders := all_extruders o;
     first_extruder := first_extruder o; has_wipe_tower := has_wipe_tower o |}.
End ToolOrdering.

(** One call of [WipeTower::plan_toolchange]. *)
Record PlannedToolchange : Set := {
  z_par : Q;
  layer_height_par : Q;
  old_tool : nat;
  new_tool : nat;
  wipe_volume : Q
}.

(** What Print.cpp reads of a [WipeTower::ToolChangeResult]. *)
Record ToolChangeResult : Set := {
  tcr_print_z : Q;
  initial_tool : nat;
  tcr_new_tool : nat
}.

Record WipeTowerData : Set := {
  tool_ordering : ToolOrdering.t;
  tool_changes : list (list ToolChangeResult)
}.

Definition WipeTowerData_clear : WipeTowerData :=
  {| tool_ordering := ToolOrdering.empty; tool_changes := [] |}.

(** A skirt loop: the polyline of one [ExtrusionLoop] of role skirt. *)
Record ExtrusionLoop : Set := { polyline : Points }.

Record Print : Type := {
  m_state : PrintState PrintStep;
  m_objects : list PrintObject;
  m_config : PrintConfig;
  m_wipe_tower_data : WipeTowerData;
  m_skirt : list ExtrusionLoop;
  m_skirt_convex_hull : Points;
  m_first_layer_convex_hull : Points
}.

Definition set_m_state (st : PrintState PrintStep) (p : Print) : Print :=
  {| m_state := st; m_objects := m_objects p; m_config := m_config p;
     m_wipe_tower_data := m_wipe_tower_data p; m_skirt := m_skirt p;
     m_skirt_convex_hull := m_skirt_convex_hull p;
     m_first_layer_convex_hull := m_first_layer_convex_hull p |}.

Definition set_m_objects (os : list PrintObject) (p : Print) : Print :=
  {| m_state := m_state p; m_objects := os; m_config := m_config p;
     m_wipe_tower_data := m_wipe_tower_data p; m_skirt := m_skirt p;
     m_skirt_convex_hull := m_skirt_convex_hull p;
     m_first_layer_convex_hull := m_first_layer_convex_hull p |}.

Definition set_m_wipe_tower_data (d : WipeTowerData) (p : Print) : Print :=
  {| m_state := m_state p; m_objects := m_objects p; m_config := m_config p;
     m_wipe_tower_data := d; m_skirt := m_skirt p;
     m_skirt_convex_hull := m_skirt_convex_hull p;
     m_first_layer_convex_hull := m_first_layer_convex_hull p |}.

Definition set_support_layers (ls : list SupportLayer.t) (o : PrintObject)
  : PrintObject :=
  {| po_state := po_state o; m_layers := m_layers o;
     support_layers := ls; instances := instances o;
     all_regions := all_regions o; config := config o;
     slicing_parameters := slicing_parameters o;
     has_support_material := has_support_material o;
     has_support := has_support o; has_raft := has_raft o |}.

Definition set_po_state (st : PrintState PrintObjectStep) (o : PrintObject)
  : PrintObject :=
  {| po_state := st; m_layers := m_layers o;
     support_layers := support_layers o; instances := instances o;
     all_regions := all_regions o; config := config o;
     slicing_parameters := slicing_parameters o;
     has_support_material := has_support_material o;
     has_support := has_support o; has_raft := has_raft o |}.

(** ** Invalidation of steps *)

(** [std::unique]: of each run of equal neighbours one element stays. *)
Fixpoint unique {A} `{EqDecision A} (l : list A) : list A :=
  match l with
  | [] => []
  | a :: l' =>
      match l' with
      | [] => [a]
      | b :: _ => if decide (a = b) then unique l' else a :: unique l'
      end
  end.

(** [sort_remove_duplicates] of an enumeration vector: [std::sort] on the
    numeric values, then [std::unique]. *)
Definition index_le {A} (index : A -> nat) (a b : A) : Prop :=
  (index a <= index b)%nat.

#[global] Instance index_le_dec {A} (index : A -> nat) (a b : A)
  : Decision (index_le index a b).
Proof. unfold index_le. apply _. Defined.

Definition sort_remove_duplicates {A} `{EqDecision A} (index : A -> nat)
    (l : list A) : list A :=
  unique (merge_sort (index_le index) l).

(** [Print::invalidate_step]; [Inherited::invalidate_step] is the
    invalidation of the job's own state array. *)
Definition invalidate_step (step : PrintStep) (p : Print) : bool * Print :=
  let '(invalidated, st) := PrintStateOps.invalidate step (m_state p) in
  (* Propagate to dependent steps. *)
  if decide (step <> psGCodeExport) then
    let '(invalidated', st') := PrintStateOps.invalidate psGCodeExport st in
    (invalidated || invalidated', set_m_state st' p)
  else (invalidated, set_m_state st p).

(** [PrintBaseWithState::invalidate_all_steps] on a [Print]: the job's own
    state array is invalidated as a whole.  The objects keep their states:
    the caller below notes it at the call
    ("FIXME invalidate all steps of all objects as well?"). *)
Definition invalidate_all_steps (p : Print) : bool * Print :=
  let '(invalidated, st) :=
    PrintStateOps.invalidate_all all_PrintSteps (m_state p) in
  (invalidated, set_m_state st p).

(** Modelled from the spec: [PrintObject::invalidate_step]
    (PrintObject.cpp is not among the sources).  The step of this one object
    becomes Invalidated, sibling objects are untouched, and by the cascade
    rule the export step of the job the object belongs to ([m_print]) is
    invalidated with it. *)
Definition PrintObject_invalidate_step (step : PrintObjectStep)
    (object : PrintObject) (print_state : PrintState PrintStep)
  : bool * PrintObject * PrintState PrintStep :=
  let '(invalidated, ost) :=
    PrintStateOps.invalidate step (po_state object) in
  let '(invalidated', st) :=
    PrintStateOps.invalidate psGCodeExport print_state in
  (invalidated || invalidated', set_po_state ost object, st).

(** The options which influence the G-code generator only, or which are
    notes. *)
Definition steps_gcode : gset string :=
  Eval vm_compute in list_to_set [
    "autoemit_temperature_commands";
    "avoid_crossing_perimeters";
    "avoid_crossing_perimeters_max_detour";
    "bed_shape";
    "bed_temperature";
    "before_layer_gcode";
    "between_objects_gcode";
    "bridge_acceleration";
    "bridge_fan_speed";
    "enable_dynamic_fan_speeds";
    "overhang_fan_speed_0";
    "overhang_fan_speed_1";
    "overhang_fan_speed_2";
    "overhang_fan_speed_3";
    "colorprint_heights";
    "cooling";
    "default_acceleration";
    "deretract_speed";
    "disable_fan_first_layers";
    "duplicate_distance";
    "end_gcode";
    "end_filament_gcode";
    "external_perimeter_acceleration";
    "extrusion_axis";
    "extruder_clearance_height";
    "extruder_clearance_radius";
    "extruder_colour";
    "extruder_offset";
    "extrusion_multiplier";
    "fan_always_on";
    "fan_below_layer_time";
    "full_fan_speed_layer";
    "filament_colour";
    "filament_diameter";
    "filament_density";
    "filament_notes";
    "filament_cost";
    "filament_spool_weight";
    "first_layer_acceleration";
    "first_layer_acceleration_over_raft";
    "first_layer_bed_temperature";
    "first_layer_speed_over_raft";
    "gcode_comments";
    "gcode_label_objects";
    "infill_acceleration";
    "layer_gcode";
    "min_fan_speed";
    "max_fan_speed";
    "max_print_height";
    "min_print_speed";
    "max_print_speed";
    "max_volumetric_speed";
    "max_volumetric_extrusion_rate_slope_positive";
    "max_volumetric_extrusion_rate_slope_negative";
    "notes";
    "only_retract_when_crossing_perimeters";
    "output_filename_format";
    "perimeter_acceleration";
    "post_process";
    "gcode_substitutions";
    "printer_notes";
    "retract_before_travel";
    "retract_before_wipe";
    "retract_layer_change";
    "retract_length";
    "retract_length_toolchange";
    "retract_lift";
    "retract_lift_above";
    "retract_lift_below";
    "retract_restart_extra";
    "retract_restart_extra_toolchange";
    "retract_speed";
    "single_extruder_multi_material_priming";
    "slowdown_below_layer_time";
    "solid_infill_acceleration";
    "standby_temperature_delta";
    "start_gcode";
    "start_filament_gcode";
    "toolchange_gcode";
    "top_solid_infill_acceleration";
    "travel_acceleration";
    "thumbnails";
    "thumbnails_format";
    "use_firmware_retraction";
    "use_relative_e_distances";
    "use_volumetric_e";
    "variable_layer_height";
    "wipe"
  ].

Definition steps_ignore : gset string := ∅.

(** [opt_key == k1 || opt_key == k2 || ...] *)
Definition one_of (opt_key : string) (ks : list string) : bool :=
  existsb (String.eqb opt_key) ks.

(** The local variables of [invalidate_state_by_config_options] together
    with the job they act upon. *)
Record Pending : Type := {
  steps : list PrintStep;
  osteps : list PrintObjectStep;
  invalidated : bool;
  print : Print
}.

Definition push_steps (ss : list PrintStep) (os : list PrintObjectStep)
    (a : Pending) : Pending :=
  {| steps := steps a ++ ss; osteps := osteps a ++ os;
     invalidated := invalidated a; print := print a |}.

(** The if/else chain of the loop over [opt_keys]: what a recognised key
    appends to [steps] and to [osteps]; [None] for the final [else]. *)
Definition classify (opt_key : string)
  : option (list PrintStep * list PrintObjectStep) :=
  if bool_decide (opt_key ∈ steps_gcode) then
    (* These options only affect G-code export or they are just notes. *)
    Some ([psGCodeExport], [])
  else if bool_decide (opt_key ∈ steps_ignore) then
    Some ([], [])
  else if one_of opt_key
      ["skirts"; "skirt_height"; "draft_shield"; "skirt_distance";
       "min_skirt_length"; "ooze_prevention"; "wipe_tower_x"; "wipe_tower_y";
       "wipe_tower_rotation_angle"] then
    Some ([psSkirtBrim], [])
  else if one_of opt_key
      ["first_layer_height"; "nozzle_diameter"; "resolution"; "spiral_vase"]
  then
    Some ([], [posSlice])
  else if one_of opt_key
      ["complete_objects"; "filament_type"; "first_layer_temperature";
       "filament_loading_speed"; "filament_loading_speed_start";
       "filament_unloading_speed"; "filament_unloading_speed_start";
       "filament_toolchange_delay"; "filament_cooling_moves";
       "filament_minimal_purge_on_wipe_tower";
       "filament_cooling_initial_speed"; "filament_cooling_final_speed";
       "filament_ramming_parameters"; "filament_max_volumetric_speed";
       "gcode_flavor"; "high_current_on_filament_swap"; "infill_first";
       "single_extruder_multi_material"; "temperature"; "idle_temperature";
       "wipe_tower"; "wipe_tower_width"; "wipe_tower_brim_width";
       "wipe_tower_cone_angle"; "wipe_tower_bridging";
       "wipe_tower_extra_spacing"; "wipe_tower_no_sparse_layers";
       "wiping_volumes_matrix"; "parking_pos_retraction";
       "cooling_tube_retraction"; "cooling_tube_length"; "extra_loading_move";
       "travel_speed"; "travel_speed_z"; "first_layer_speed"; "z_offset"] then
    Some ([psWipeTower; psSkirtBrim], [])
  else if one_of opt_key ["filament_soluble"] then
    Some ([psWipeTower], [posSupportMaterial])
  else if one_of opt_key
      ["first_layer_extrusion_width"; "min_layer_height"; "max_layer_height";
       "gcode_resolution"] then
    Some ([psSkirtBrim], [posPerimeters; posInfill; posSupportMaterial])
  else if one_of opt_key ["avoid_crossing_curled_overhangs"] then
    Some ([], [posEstimateCurledExtrusions])
  else
    None.

(** The body of the loop over [opt_keys]: a recognised key appends to
    [steps] and [osteps]; any other key invalidates all steps of the job at
    once ("for legacy, if we can't handle this option let's invalidate all
    steps"). *)
Definition classify_key (a : Pending) (opt_key : string) : Pending :=
  match classify opt_key with
  | Some (ss, os) => push_steps ss os a
  | None =>
      let '(b, p) := invalidate_all_steps (print a) in
      {| steps := steps a; osteps := osteps a;
         invalidated := invalidated a || b; print := p |}
  end.

(** [for (PrintStep step : steps) invalidated |= this->invalidate_step(step);] *)
Definition invalidate_steps_loop (ss : list PrintStep) (bp : bool * Print)
  : bool * Print :=
  fold_left
    (fun '(b, p) step => let '(b', p') := invalidate_step step p in (b || b', p'))
    ss bp.

(** [for (PrintObject *object : m_objects)
       invalidated |= object->invalidate_step(ostep);]
    Every object is updated in place, and so is the state of the job it
    points to. *)
Fixpoint invalidate_objects_loop (ostep : PrintObjectStep)
    (objects : list PrintObject) (b : bool) (st : PrintState PrintStep)
  : bool * list PrintObject * PrintState PrintStep :=
  match objects with
  | [] => (b, [], st)
  | object :: rest =>
      let '(b', object', st') := PrintObject_invalidate_step ostep object st in
      let '(b'', rest', st'') :=
        invalidate_objects_loop ostep rest (b || b') st' in
      (b'', object' :: rest', st'')
  end.

Definition invalidate_ostep (bp : bool * Print) (ostep : PrintObjectStep)
  : bool * Print :=
  let '(b, p) := bp in
  let '(b', objects', st') :=
    invalidate_objects_loop ostep (m_objects p) b (m_state p) in
  (b', set_m_state st' (set_m_objects objects' p)).

Definition invalidate_osteps_loop (os : list PrintObjectStep)
    (bp : bool * Print) : bool * Print :=
  fold_left invalidate_ostep os bp.

(** [Print::invalidate_state_by_config_options] *)
Definition invalidate_state_by_config_options (opt_keys : list string)
    (p : Print) : bool * Print :=
  match opt_keys with
  | [] => (false, p)
  | _ =>
      let a :=
        fold_left classify_key opt_keys
          {| steps := []; osteps := []; invalidated := false; print := p |} in
      let bp :=
        invalidate_steps_loop
          (sort_remove_duplicates PrintStep_index (steps a))
          (invalidated a, print a) in
      invalidate_osteps_loop
        (sort_remove_duplicates PrintObjectStep_index (osteps a)) bp
  end.

(** Several batches, one after the other. *)
Definition apply_batches (batches : list (list string)) (p : Print) : Print :=
  fold_left (fun p keys => snd (invalidate_state_by_config_options keys p))
    batches p.

(** [Print::is_step_done(PrintObjectStep)] *)
Definition is_step_done (step : PrintObjectStep) (p : Print) : bool :=
  match m_objects p with
  | [] => false
  | _ =>
      forallb (fun object => PrintStateOps.is_done_unguarded step (po_state object))
        (m_objects p)
  end.

(** ** Wipe tower: when there is one *)

(** [Print::has_wipe_tower] *)
Definition has_wipe_tower (p : Print) : bool :=
  negb (spiral_vase (m_config p))
  && wipe_tower (m_config p)
  && bool_decide (1 < length (nozzle_diameter (m_config p)))%nat.

(** ** Binary floating point *)

(** The largest [e] with [2 ^ e <= a], for a positive [a]. *)
Definition binade (a : Q) : Z :=
  let e := (Z.log2 (Qnum a) - Z.log2 (Zpos (Qden a)))%Z in
  if Qle_bool (2 ^ e) a then e else (e - 1)%Z.

(** Rounding to the nearest integer, to the even one of two equally near. *)
Definition round_half_even (v : Q) : Z :=
  let f := Qfloor v in
  match (v - inject_Z f ?= 1 # 2)%Q with
  | Lt => f
  | Gt => (f + 1)%Z
  | Eq => if Z.even f then f else (f + 1)%Z
  end.

(** A positive number rounded to [prec] binary digits, the exponent being
    at least [emin]: below [2 ^ emin] the numbers are the subnormal
    ones. *)
Definition round_magnitude (prec emin : Z) (a : Q) : Q :=
  let e := Z.max (binade a) emin in
  let quantum := (2 ^ (e - prec + 1))%Q in
  (inject_Z (round_half_even (a / quantum)) * quantum)%Q.

(** Rounding to nearest, ties to even, of IEEE 754.  The format has no
    largest exponent here: a value beyond the largest finite number is
    rounded like any other instead of becoming an infinity. *)
Definition round_to (prec emin : Z) (v : Q) : Q :=
  match (v ?= 0)%Q with
  | Eq => 0%Q
  | Gt => round_magnitude prec emin v
  | Lt => (- round_magnitude prec emin (- v))%Q
  end.

(** The conversions to [float] and to [double], and what an operation on
    [double]s gives. *)
Definition to_float (v : Q) : Q := round_to 24 (-126) v.
Definition to_double (v : Q) : Q := round_to 53 (-1022) v.

(** ** Validation *)

(** [std::max] on [double]s. *)
Definition max_coordf (a b : Q) : Q := if Qle_bool b a then a else b.

(** "Find the smallest used nozzle diameter and the number of unique nozzle
    diameters": the largest nozzle diameter among the used extruders. *)
Definition used_max_nozzle_diameter (c : PrintConfig) (extruders : list nat)
  : Q :=
  fold_left
    (fun max_nozzle_diameter extruder_id =>
       max_coordf max_nozzle_diameter (get_at (nozzle_diameter c) extruder_id))
    extruders 0%Q.

(** The message of a failed extrusion-width check, with the values its
    format takes. *)
Inductive ExtrusionWidthError : Set :=
  | TooLowToBePrintable (opt_key : string) (extrusion_width_min layer_height : Q)
  | Excessive (opt_key : string) (extrusion_width_max max_nozzle_diameter : Q).

(** The lambda [validate_extrusion_width] of [Print::validate].  [None] is
    the result [true]; [Some e] is the result [false] with [err_msg] set.
    The bound of the last comparison is the product of two [double]s, a
    [double] itself. *)
Definition validate_extrusion_width (max_nozzle_diameter : Q)
    (config : ConfigBase) (opt_key : string) (layer_height : Q)
  : option ExtrusionWidthError :=
  let extrusion_width_min := get_abs_value config opt_key layer_height in
  let extrusion_width_max := get_abs_value config opt_key layer_height in
  if Qeq_bool extrusion_width_min 0 then
    (* Default "auto-generated" extrusion width is always valid. *)
    None
  else if Qle_bool extrusion_width_min layer_height then
    Some (TooLowToBePrintable opt_key extrusion_width_min layer_height)
  else if Qle_bool (to_double (max_nozzle_diameter * 3)) extrusion_width_max
  then
    Some (Excessive opt_key extrusion_width_max max_nozzle_diameter)
  else None.

(** A loop which returns at the first failed check. *)
Fixpoint first_error {A E : Type} (check : A -> option E) (l : list A)
  : option E :=
  match l with
  | [] => None
  | a :: l' =>
      match check a with
      | Some e => Some e
      | None => first_error check l'
      end
  end.

Definition region_width_keys : list string :=
  ["perimeter_extrusion_width"; "external_perimeter_extrusion_width";
   "infill_extrusion_width"; "solid_infill_extrusion_width";
   "top_infill_extrusion_width"].

(** "Validate extrusion widths." of [Print::validate], for one object. *)
Definition validate_extrusion_widths (max_nozzle_diameter : Q)
    (object : PrintObject) : option ExtrusionWidthError :=
  let layer_height := layer_height (config object) in
  match validate_extrusion_width max_nozzle_diameter
          (object_options (config object)) "extrusion_width" layer_height with
  | Some err_msg => Some err_msg
  | None =>
      match
        (if has_support object || has_raft object then
           validate_extrusion_width max_nozzle_diameter
             (object_options (config object))
             "support_material_extrusion_width" layer_height
         else None)
      with
      | Some err_msg => Some err_msg
      | None =>
          first_error
            (fun opt_key =>
               first_error
                 (fun region =>
                    validate_extrusion_width max_nozzle_diameter
                      (region_config region) opt_key layer_height)
                 (all_regions object))
            region_width_keys
      end
  end.

(** The messages of [Print::validate] which the parts below return. *)
Inductive ValidationError : Set :=
  | WipeTowerSameDiameters
  | WipeTowerGCodeFlavor
  | WipeTowerRelativeExtruderAddressing
  | WipeTowerOozePrevention
  | WipeTowerVolumetricE
  | WipeTowerSequentialMultimaterial
  | WipeTowerEqualLayerHeights
  | WipeTowerEqualRaftLayers
  | WipeTowerSameContactDistance
  | WipeTowerSlicedEqually
  | WipeTowerSameVariableLayerHeight
  | DifferingNozzleDiameters
  | WipeTowerSolubleSupportsSynchronized
  | WipeTowerNonSolubleSupportsCurrentExtruder.

Section Validate.
(** [EPSILON] of libslic3r.h, and the collaborators of the purge-tower
    block: [equal_layering] of Slicing.hpp and the layer height profile of
    the object at an index ([update_layer_height_profile]). *)
Variable EPSILON : Q.
Variable equal_layering : SlicingParameters -> SlicingParameters -> bool.
Variable layer_height_profile : Print -> nat -> list Q.

Definition Qgt_bool (a b : Q) : bool := negb (Qle_bool a b).

(** [*(lh.end()-2)] *)
Definition last_but_one (lh : list Q) : Q := nth (length lh - 2) lh 0%Q.

(** The loop over [extruders] at the head of the purge-tower block. *)
Definition same_diameters (c : PrintConfig) (extruders : list nat) : bool :=
  let first_nozzle_diam := get_at (nozzle_diameter c) (hd 0%nat extruders) in
  let first_filament_diam := get_at (filament_diameter c) (hd 0%nat extruders) in
  forallb
    (fun extruder_idx =>
       let nozzle_diam := get_at (nozzle_diameter c) extruder_idx in
       let filament_diam := get_at (filament_diameter c) extruder_idx in
       negb (Qgt_bool (nozzle_diam - EPSILON) first_nozzle_diam
             || Qgt_bool first_nozzle_diam (nozzle_diam + EPSILON)
             || Qgt_bool
                  (Qabs ((filament_diam - first_filament_diam)
                         / first_filament_diam))
                  0.1))
    extruders.

(** The loop [for (size_t i = 1; i < m_objects.size(); ++ i)]: an error,
    or the index of the tallest object. *)
Fixpoint check_objects (p : Print) (has_custom_layering : bool)
    (slicing_params0 : SlicingParameters) (i : nat)
    (objects : list PrintObject) (tallest_object_idx : nat)
  : ValidationError + nat :=
  match objects with
  | [] => inr tallest_object_idx
  | object :: rest =>
      let slicing_params := slicing_parameters object in
      if Qgt_bool
           (Qabs (first_print_layer_height slicing_params
                  - first_print_layer_height slicing_params0)) EPSILON
         || Qgt_bool
              (Qabs (sp_layer_height slicing_params
                     - sp_layer_height slicing_params0)) EPSILON
      then inl WipeTowerEqualLayerHeights
      else if negb (raft_layers slicing_params =? raft_layers slicing_params0)%nat
      then inl WipeTowerEqualRaftLayers
      else if negb (Qeq_bool (gap_object_support slicing_params0)
                      (gap_object_support slicing_params))
              || negb (Qeq_bool (gap_support_object slicing_params0)
                         (gap_support_object slicing_params))
      then inl WipeTowerSameContactDistance
      else if negb (equal_layering slicing_params slicing_params0)
      then inl WipeTowerSlicedEqually
      else
        let tallest_object_idx' :=
          if has_custom_layering then
            let lh := layer_height_profile p i in
            let lh_tallest := layer_height_profile p tallest_object_idx in
            if Qgt_bool (last_but_one lh) (last_but_one lh_tallest)
            then i else tallest_object_idx
          else tallest_object_idx in
        check_objects p has_custom_layering slicing_params0 (S i) rest
          tallest_object_idx'
  end.

(** The [while] loop comparing one profile with the tallest one, from
    index [i] on; [true] when it returns the error. *)
Fixpoint profile_differs (i : nat) (profile tallest : list Q) (top : Q)
  : bool :=
  match profile, tallest with
  | a :: profile', b :: tallest' =>
      if Nat.even i && Qgt_bool b top then false
      else if Qgt_bool (Qabs (a - b)) (0.5 * EPSILON) then true
      else profile_differs (S i) profile' tallest' top
  | _, _ => false
  end.

(** The block [if (this->has_wipe_tower() && ! m_objects.empty())] of
    [Print::validate]; [extruders] is [this->extruders()]. *)
Definition validate_wipe_tower (extruders : list nat)
    (has_custom_layering : bool) (p : Print) : option ValidationError :=
  let c := m_config p in
  if has_wipe_tower p && negb (bool_decide (m_objects p = [])) then
    if negb (same_diameters c extruders) then Some WipeTowerSameDiameters
    else if negb (bool_decide
              (gcode_flavor c ∈ [gcfRepRapSprinter; gcfRepRapFirmware;
                                 gcfRepetier; gcfMarlinLegacy;
                                 gcfMarlinFirmware; gcfKlipper]))
    then Some WipeTowerGCodeFlavor
    else if negb (use_relative_e_distances c)
    then Some WipeTowerRelativeExtruderAddressing
    else if ooze_prevention c && single_extruder_multi_material c
    then Some WipeTowerOozePrevention
    else if use_volumetric_e c then Some WipeTowerVolumetricE
    else if complete_objects c && bool_decide (1 < length extruders)%nat
    then Some WipeTowerSequentialMultimaterial
    else
      match m_objects p with
      | object0 :: (_ :: _) as rest =>
          match check_objects p has_custom_layering
                  (slicing_parameters object0) 1 rest 0 with
          | inl e => Some e
          | inr tallest_object_idx =>
              if has_custom_layering then
                let tallest := layer_height_profile p tallest_object_idx in
                if existsb
                     (fun idx_object =>
                        negb (idx_object =? tallest_object_idx)%nat
                        && let profile := layer_height_profile p idx_object in
                           profile_differs 0 profile tallest
                             (last_but_one profile))
                     (seq 0 (length (m_objects p)))
                then Some WipeTowerSameVariableLayerHeight
                else None
              else None
          end
      | _ => None
      end
  else None.

(** The support checks at the head of the loop over the objects, in the
    nozzle-diameter block of [Print::validate]. *)
Definition validate_object_support (min_nozzle_diameter max_nozzle_diameter : Q)
    (p : Print) (object : PrintObject) : option ValidationError :=
  let oc := config object in
  if has_support_material object then
    if (bool_decide (support_material_extruder oc = 0%Z)
        || bool_decide (support_material_interface_extruder oc = 0%Z))
       && Qgt_bool (max_nozzle_diameter - min_nozzle_diameter) EPSILON
    then Some DifferingNozzleDiameters
    else if has_wipe_tower p
            && negb (bool_decide (support_material_style oc = smsOrganic))
    then
      if Qeq_bool (support_material_contact_distance oc) 0 then
        (* Soluble interface *)
        if negb (support_material_synchronize_layers oc)
        then Some WipeTowerSolubleSupportsSynchronized else None
      else
        (* Non-soluble interface *)
        if negb (bool_decide (support_material_extruder oc = 0%Z))
           || negb (bool_decide (support_material_interface_extruder oc = 0%Z))
        then Some WipeTowerNonSolubleSupportsCurrentExtruder else None
    else None
  else None.
End Validate.

(** ** How a stage ends *)

(** A stage returns, or [throw_if_canceled] raises the cancellation, or it
    reads a vector out of its bounds (undefined behaviour in the source). *)
Inductive Outcome (A : Type) : Type :=
  | Returned (a : A)
  | CanceledException
  | OutOfBounds.
Arguments Returned {A} a.
Arguments CanceledException {A}.
Arguments OutOfBounds {A}.

(** ** Purge planning *)

Section WipeTower.
(** Collaborators of [Print::_make_wipe_tower] which are not in
    Print.cpp: the constructor of the [ToolOrdering] of the job, the matrix
    of [WipeTower::extract_wipe_volumes] (of [float]s), the state [W] of
    the wiping extrusions with [mark_wiping_extrusions] (which takes a
    [float] and returns one) and [ensure_perimeters_infills_order] acting
    on it, and [WipeTower::generate]. *)
Variable EPSILON : Q.
Variable make_tool_ordering : Print -> ToolOrdering.t.
Variable extract_wipe_volumes : PrintConfig -> nat -> nat -> Q.
Variable W : Type.
Variable mark_wiping_extrusions :
  W -> Print -> LayerTools.t -> nat -> nat -> Q -> Q * W.
Variable ensure_perimeters_infills_order : W -> Print -> LayerTools.t -> W.
Variable generate : PrintConfig -> list PlannedToolchange
                    -> list (list ToolChangeResult).

(** The planner while it walks the layers: the extruder in use, the wiping
    extrusions, and the calls of [plan_toolchange] made so far. *)
Record Planner : Type := {
  current_extruder_id : nat;
  wiping : W;
  plan : list PlannedToolchange
}.

Definition plan_toolchange (z_par layer_height_par : Q)
    (old_tool new_tool : nat) (wipe_volume : Q) (s : Planner) : Planner :=
  {| current_extruder_id := current_extruder_id s; wiping := wiping s;
     plan := plan s ++ [ {| z_par := z_par;
                            layer_height_par := layer_height_par;
                            old_tool := old_tool; new_tool := new_tool;
                            wipe_volume := wipe_volume |} ] |}.

(** The body of [for (const auto extruder_id : layer_tools.extruders)].
    [volume_to_wipe] is a [float]: the minimal purge is converted to
    [float] before it is subtracted and before it is added back, and both
    results are [float]s. *)
Definition plan_extruder (p : Print) (last_extruder : nat)
    (first_layer : bool) (layer_tools : LayerTools.t)
    (s : Planner) (extruder_id : nat) : Planner :=
  if (first_layer && bool_decide (extruder_id = last_extruder))
     || negb (bool_decide (extruder_id = current_extruder_id s))
  then
    (* total volume to wipe after this toolchange *)
    let volume_to_wipe :=
      extract_wipe_volumes (m_config p) (current_extruder_id s) extruder_id in
    (* Not all of that can be used for infill purging: *)
    let volume_to_wipe :=
      to_float
        (volume_to_wipe
         - to_float
             (get_at (filament_minimal_purge_on_wipe_tower (m_config p))
                extruder_id))%Q
    in
    (* try to assign some infills/objects for the wiping: *)
    let '(volume_to_wipe, w) :=
      mark_wiping_extrusions (wiping s) p layer_tools
        (current_extruder_id s) extruder_id volume_to_wipe in
    (* add back the minimal amount to force on the wipe tower: *)
    let volume_to_wipe :=
      to_float
        (volume_to_wipe
         + to_float
             (get_at (filament_minimal_purge_on_wipe_tower (m_config p))
                extruder_id))%Q
    in
    (* request a toolchange at the wipe tower *)
    let s' :=
      plan_toolchange (to_float (LayerTools.print_z layer_tools))
        (to_float (LayerTools.wipe_tower_layer_height layer_tools))
        (current_extruder_id s) extruder_id volume_to_wipe s in
    {| current_extruder_id := extruder_id; wiping := w; plan := plan s' |}
  else s.

(** The loop over the layers of the tool ordering. *)
Fixpoint plan_layers (p : Print) (last_extruder : nat) (first_layer : bool)
    (layers : list LayerTools.t) (s : Planner) : Planner :=
  match layers with
  | [] => s
  | layer_tools :: rest =>
      if negb (LayerTools.has_wipe_tower layer_tools) then
        plan_layers p last_extruder false rest s
      else
        let s :=
          plan_toolchange (to_float (LayerTools.print_z layer_tools))
            (to_float (LayerTools.wipe_tower_layer_height layer_tools))
            (current_extruder_id s) (current_extruder_id s) 0%Q s in
        let s :=
          fold_left (plan_extruder p last_extruder first_layer layer_tools)
            (LayerTools.extruders layer_tools) s in
        let s :=
          {| current_extruder_id := current_extruder_id s;
             wiping := ensure_perimeters_infills_order (wiping s) p layer_tools;
             plan := plan s |} in
        match rest with
        | [] => s
        | next :: _ =>
            if (LayerTools.wipe_tower_partitions next =? 0)%nat then s
            else plan_layers p last_extruder false rest s
        end
  end.

Definition is_gap_layer (lt : LayerTools.t) : bool :=
  LayerTools.has_wipe_tower lt && negb (LayerTools.has_object lt)
  && negb (LayerTools.has_support lt).

(** The wipe tower layers which print neither object nor support: the
    first run of them is marked as support, and a support layer is made
    for each, to be inserted into the first object.  Of the new support
    layer only [print_z] is kept. *)
Fixpoint mark_gap_layers (layers : list LayerTools.t)
  : list LayerTools.t * list SupportLayer.t :=
  match layers with
  | [] => ([], [])
  | lt :: rest =>
      if is_gap_layer lt then
        let '(rest', new) := mark_gap_layers rest in
        (LayerTools.set_has_support true lt :: rest',
         {| SupportLayer.print_z := LayerTools.print_z lt;
            SupportLayer.support_fills := [] |} :: new)
      else (layers, [])
  end.

Fixpoint insert_gap_layers (layers : list LayerTools.t)
  : list LayerTools.t * list SupportLayer.t :=
  match layers with
  | [] => ([], [])
  | lt :: rest =>
      if is_gap_layer lt then mark_gap_layers layers
      else
        let '(rest', new) := insert_gap_layers rest in
        (lt :: rest', new)
  end.

(** Where the new support layers go: after the support layers which are
    not above the first of them. *)
Fixpoint insert_support_layers (new : list SupportLayer.t)
    (ls : list SupportLayer.t) : list SupportLayer.t :=
  match new, ls with
  | [], _ => ls
  | n :: _, l :: ls' =>
      if negb (Qle_bool (SupportLayer.print_z n) (SupportLayer.print_z l - EPSILON))
      then l :: insert_support_layers new ls'
      else new ++ ls
  | _, [] => new
  end.

(** [Print::_make_wipe_tower]: the job, and the calls of
    [plan_toolchange] in their order.  Of what follows the generation of
    the tower only the reads of [m_objects.front()] and of the last layer
    of the tool ordering are modelled, which the final purge starts with:
    the depth, brim width and height read back from the tower, the final
    purge itself and the filament statistics are not.  [canceled] is what
    [throw_if_canceled] finds. *)
Definition _make_wipe_tower (canceled : bool) (w : W) (p : Print)
  : Outcome (Print * list PlannedToolchange) :=
  let p := set_m_wipe_tower_data WipeTowerData_clear p in
  if negb (has_wipe_tower p) then Returned (p, [])
  else
    let ordering := make_tool_ordering p in
    let p :=
      set_m_wipe_tower_data
        {| tool_ordering := ordering; tool_changes := [] |} p in
    if negb (ToolOrdering.has_wipe_tower ordering) then
      (* Don't generate any wipe tower. *)
      Returned (p, [])
    else
      let '(layers, new) :=
        insert_gap_layers (ToolOrdering.layer_tools ordering) in
      let ordering := ToolOrdering.set_layer_tools layers ordering in
      let p :=
        set_m_wipe_tower_data
          {| tool_ordering := ordering; tool_changes := [] |} p in
      match new, m_objects p with
      | _ :: _, [] => OutOfBounds (* m_objects.front() *)
      | _, objects =>
          let objects :=
            match objects with
            | front :: others =>
                set_support_layers
                  (insert_support_layers new (support_layers front)) front
                :: others
            | [] => []
            end in
          let p := set_m_objects objects p in
          if canceled then CanceledException
          else
            match last (ToolOrdering.all_extruders ordering) with
            | None => OutOfBounds (* all_extruders().back() *)
            | Some last_extruder =>
                let s :=
                  plan_layers p last_extruder true
                    (ToolOrdering.layer_tools ordering)
                    {| current_extruder_id := last_extruder; wiping := w;
                       plan := [] |} in
                (* Generate the wipe tower layers. *)
                let p' :=
                  set_m_wipe_tower_data
                    {| tool_ordering := ordering;
                       tool_changes := generate (m_config p) (plan s) |} p in
                (* Unload the current filament over the purge tower. *)
                match m_objects p, last (ToolOrdering.layer_tools ordering) with
                | [], _ => OutOfBounds (* m_objects.front() *)
                | _ :: _, None => OutOfBounds (* tool_ordering.back() *)
                | _ :: _, Some _ => Returned (p', plan s)
                end
            end
      end.
End WipeTower.

(** ** Skirt *)

(** [Print::has_infinite_skirt] *)
Definition has_infinite_skirt (p : Print) : bool :=
  bool_decide (draft_shield (m_config p) = dsEnabled)
  && (0 <? skirts (m_config p))%Z.

(** [Print::has_skirt] *)
Definition has_skirt (p : Print) : bool :=
  ((0 <? skirt_height (m_config p))%Z && (0 <? skirts (m_config p))%Z)
  || has_infinite_skirt p.

(** The conversion [size_t(v)] of an [int]. *)
Definition size_t (v : Z) : nat := Z.to_nat (v mod 2 ^ 64).

(** [PrintObject::layer_count] *)
Definition layer_count (object : PrintObject) : nat := length (m_layers object).

(** The first loop of [Print::_make_skirt]: how tall the skirt must be.
    [m_layers[skirt_layers-1]] is out of bounds when [skirt_layers] is 0. *)
Definition skirt_height_z (p : Print) : option Q :=
  fold_left
    (fun acc object =>
       match acc with
       | None => None
       | Some skirt_height_z =>
           let skirt_layers :=
             if has_infinite_skirt p then layer_count object
             else Nat.min (size_t (skirt_height (m_config p)))
                    (layer_count object) in
           match skirt_layers with
           | O => None
           | S i =>
               match m_layers object !! i with
               | Some layer =>
                   Some (max_coordf skirt_height_z (Layer.print_z layer))
               | None => None
               end
           end
       end)
    (m_objects p) (Some 0%Q).

(** The layers from the bottom up to a height: the loop breaks at the first
    layer above it. *)
Fixpoint layers_up_to {L : Type} (print_z : L -> Q) (z : Q) (layers : list L)
  : list L :=
  match layers with
  | [] => []
  | layer :: rest =>
      if Qgt_bool (print_z layer) z then []
      else layer :: layers_up_to print_z z rest
  end.

(** The points of one object: the outer contours of its slices and the
    points of its support fills, repeated for each copy. *)
Definition object_skirt_points (skirt_height_z : Q) (object : PrintObject)
  : Points :=
  let object_points :=
    flat_map (fun layer => flat_map contour (Layer.lslices layer))
      (layers_up_to Layer.print_z skirt_height_z (m_layers object))
    ++ flat_map SupportLayer.support_fills
         (layers_up_to SupportLayer.print_z skirt_height_z
            (support_layers object)) in
  flat_map
    (fun instance => map (fun pt => Point_add pt (shift instance)) object_points)
    (instances object).

Section Skirt.
(** Geometry which Print.cpp delegates: the outline of the wipe tower on
    the first layer (its corners and stabilization cone, rotated and
    placed), and the generation of the loops around the convex hull of
    the points, which returns the loops in the order it made them and the
    outer edge of the last one, or is canceled. *)
Variable wipe_tower_outline : Print -> Points.
Variable skirt_loops :
  Print -> Points -> Outcome (list ExtrusionLoop * Points).

(** [Print::first_layer_wipe_tower_corners] *)
Definition first_layer_wipe_tower_corners (p : Print) : Points :=
  if has_wipe_tower p
     && negb (bool_decide (tool_changes (m_wipe_tower_data p) = []))
  then wipe_tower_outline p
  else [].

(** The candidate points of the skirt, as [Print::_make_skirt] collects
    them; [None] when the height of the skirt reads out of bounds. *)
Definition skirt_points (p : Print) : option Points :=
  match skirt_height_z p with
  | None => None
  | Some z =>
      Some (flat_map (object_skirt_points z) (m_objects p)
            (* Include the wipe tower. *)
            ++ first_layer_wipe_tower_corners p
            (* Unless draft shield is enabled, include all brims as well. *)
            ++ (if bool_decide (draft_shield (m_config p) = dsDisabled)
                then m_first_layer_convex_hull p else []))
  end.

Definition add_skirt (loops : list ExtrusionLoop) (hull : Points) (p : Print)
  : Print :=
  {| m_state := m_state p; m_objects := m_objects p; m_config := m_config p;
     m_wipe_tower_data := m_wipe_tower_data p;
     (* Brims were generated inside out, reverse to print the outmost
        contour first. *)
     m_skirt := rev (m_skirt p ++ loops);
     m_skirt_convex_hull := m_skirt_convex_hull p ++ hull;
     m_first_layer_convex_hull := m_first_layer_convex_hull p |}.

(** [Print::_make_skirt]; [canceled] is what the first
    [throw_if_canceled] finds. *)
Definition _make_skirt (canceled : bool) (p : Print) : Outcome Print :=
  match skirt_points p with
  | None => OutOfBounds
  | Some points =>
      if bool_decide (length points < 3)%nat then
        (* At least three points required for a convex hull. *)
        Returned p
      else if canceled then CanceledException
      else
        match skirt_loops p points with
        | Returned (loops, hull) => Returned (add_skirt loops hull p)
        | CanceledException => CanceledException
        | OutOfBounds => OutOfBounds
        end
  end.
End Skirt.

(** ** Vocabulary of the statements *)

#[global] Arguments classify : simpl never.

(** A status which an invalidation would change. *)
Definition noninv (s : State) : bool := negb (bool_decide (s = Invalidated)).

(** Whether invalidating the steps picked by [TJ] (by [TO] in an object)
    changes a status. *)
Definition job_flag (TJ : PrintStep -> bool) (st : PrintState PrintStep) : bool :=
  existsb (fun s => TJ s && noninv (st s)) all_PrintSteps.

Definition obj_flag (TO : PrintObjectStep -> bool) (o : PrintObject) : bool :=
  existsb (fun s => TO s && noninv (po_state o s)) all_PrintObjectSteps.

Definition objs_flag (TO : PrintObjectStep -> bool) (os : list PrintObject) : bool :=
  existsb (obj_flag TO) os.

(** [o'] is [o] with the steps picked by [TO] invalidated. *)
Definition obj_rel (TO : PrintObjectStep -> bool) (o o' : PrintObject) : Prop :=
  (forall s, po_state o' s = if TO s then Invalidated else po_state o s) /\
  o' = set_po_state (po_state o') o.

(** The effect of a piece of the invalidation code which starts with the
    flag [b] on the job [p] and ends with [b'] on [p']: the job steps picked
    by [TJ] and the object steps picked by [TO] are Invalidated, every other
    status and everything else in the job are as before, and the flag was
    raised if a status changed. *)
Record stage (TJ : PrintStep -> bool) (TO : PrintObjectStep -> bool)
    (b : bool) (p : Print) (b' : bool) (p' : Print) : Prop := {
  stage_job : forall s, m_state p' s = if TJ s then Invalidated else m_state p s;
  stage_objs : Forall2 (obj_rel TO) (m_objects p) (m_objects p');
  stage_rest : p' = set_m_state (m_state p') (set_m_objects (m_objects p') p);
  stage_flag : b' = b || job_flag TJ (m_state p) || objs_flag TO (m_objects p)
}.

Definition nonempty {A} (l : list A) : bool :=
  match l with [] => false | _ :: _ => true end.

Definition is_step {A} `{EqDecision A} (step s : A) : bool := bool_decide (s = step).

Definition member {A} `{EqDecision A} (l : list A) (s : A) : bool :=
  bool_decide (s ∈ l).

(** What one key asks for, read off [classify]. *)
Definition key_steps (opt_key : string) : list PrintStep :=
  match classify opt_key with Some (ss, _) => ss | None => [] end.

Definition key_osteps (opt_key : string) : list PrintObjectStep :=
  match classify opt_key with Some (_, os) => os | None => [] end.

Definition key_unknown (opt_key : string) : bool :=
  match classify opt_key with Some _ => false | None => true end.

#[global] Arguments key_steps : simpl never.
#[global] Arguments key_osteps : simpl never.
#[global] Arguments key_unknown : simpl never.

(** The job steps and the object steps a batch of keys invalidates. *)
Definition job_target (opt_keys : list string) (objects : list PrintObject)
    (s : PrintStep) : bool :=
  existsb key_unknown opt_keys
  || member (flat_map key_steps opt_keys) s
  || (is_step psGCodeExport s
      && (nonempty (flat_map key_steps opt_keys)
          || (nonempty (flat_map key_osteps opt_keys) && nonempty objects))).

Definition object_target (opt_keys : list string) (s : PrintObjectStep) : bool :=
  member (flat_map key_osteps opt_keys) s.

(** Two objects with the same status at every step. *)
Definition same_statuses (o1 o2 : PrintObject) : Prop :=
  forall s, po_state o1 s = po_state o2 s.

(** The forced-purge floor of the extruder a tool change loads. *)
Definition purge_floor (c : PrintConfig) (t : PlannedToolchange) : Q :=
  get_at (filament_minimal_purge_on_wipe_tower c) (new_tool t).

(** The call which opens a layer of the tower: no change of tool, no
    volume. *)
Definition opens_layer (t : PlannedToolchange) : Prop :=
  old_tool t = new_tool t /\ (wipe_volume t == 0)%Q.

(** The floor as the planner adds it: converted to [float]. *)
Definition float_purge_floor (c : PrintConfig) (t : PlannedToolchange) : Q :=
  to_float (purge_floor c t).

(** The volume of a call is the [float] sum of a volume [left] for the
    tower and of the floor. *)
Definition adds_floor (c : PrintConfig) (t : PlannedToolchange) (left : Q)
  : Prop :=
  (wipe_volume t == to_float (left + float_purge_floor c t))%Q.

(** ** A small job to evaluate the definitions on *)

Definition all_done {StepType : Type} : PrintState StepType := fun _ => Done.

Definition example_config : PrintConfig :=
  {| spiral_vase := false; wipe_tower := true;
     nozzle_diameter := [0.4; 0.4]%Q; filament_diameter := [1.75; 1.75]%Q;
     filament_minimal_purge_on_wipe_tower := [15; 15]%Q;
     gcode_flavor := gcfMarlinFirmware; use_relative_e_distances := true;
     ooze_prevention := false; single_extruder_multi_material := true;
     use_volumetric_e := false; complete_objects := false;
     draft_shield := dsDisabled; skirts := 1; skirt_height := 1 |}.

Definition example_options : ConfigBase :=
  {| get_abs_value := fun _ _ => 0.45%Q |}.

Definition example_object : PrintObject :=
  {| po_state := all_done;
     m_layers :=
       [ {| Layer.print_z := 0.2%Q;
            Layer.lslices :=
              [ {| contour := [mkPoint 0 0; mkPoint 1000000 0]; holes := [] |} ]
         |} ];
     support_layers := [];
     instances := [ {| shift := mkPoint 0 0 |} ];
     all_regions := [ {| region_config := example_options |} ];
     config :=
       {| layer_height := 0.2%Q; support_material_extruder := 0;
          support_material_interface_extruder := 0;
          support_material_style := smsGrid;
          support_material_contact_distance := 0.2%Q;
          support_material_synchronize_layers := false;
          object_options := example_options |};
     slicing_parameters :=
       {| first_print_layer_height := 0.2%Q; sp_layer_height := 0.2%Q;
          raft_layers := 0; gap_object_support := 0.2%Q;
          gap_support_object := 0.2%Q |};
     has_support_material := false; has_support := false;
     has_raft := false |}.

Definition example_print : Print :=
  {| m_state := all_done; m_objects := [example_object];
     m_config := example_config;
     m_wipe_tower_data := WipeTowerData_clear;
     m_skirt := []; m_skirt_convex_hull := [];
     m_first_layer_convex_hull := [] |}.

Definition example_layer_tools : LayerTools.t :=
  {| LayerTools.print_z := 0.2%Q; LayerTools.has_object := true;
     LayerTools.has_support := false; LayerTools.extruders := [0; 1]%nat;
     LayerTools.has_wipe_tower := true;
     LayerTools.wipe_tower_partitions := 1;
     LayerTools.wipe_tower_layer_height := 0.2%Q |}.

Definition example_tool_ordering : ToolOrdering.t :=
  {| ToolOrdering.layer_tools := [example_layer_tools];
     ToolOrdering.all_extruders := [0; 1]%nat;
     ToolOrdering.first_extruder := 0;
     ToolOrdering.has_wipe_tower := true |}.

(** Wiping extrusions which take all the volume they are offered. *)
Definition absorb_all (w : unit) (p : Print) (lt : LayerTools.t)
    (old_extruder new_extruder : nat) (volume_to_wipe : Q) : Q * unit :=
  (0%Q, w).

(** Wiping extrusions which report one unit more than they were offered as
    absorbed. *)
Definition absorb_more (w : unit) (p : Print) (lt : LayerTools.t)
    (old_extruder new_extruder : nat) (volume_to_wipe : Q) : Q * unit :=
  ((- (1))%Q, w).

(** The job with a minimal purge of 0.7, the [double] which is nearest to
    it. *)
Definition fine_purge_config : PrintConfig :=
  {| spiral_vase := false; wipe_tower := true;
     nozzle_diameter := [0.4; 0.4]%Q; filament_diameter := [1.75; 1.75]%Q;
     filament_minimal_purge_on_wipe_tower := [to_double 0.7; to_double 0.7];
     gcode_flavor := gcfMarlinFirmware; use_relative_e_distances := true;
     ooze_prevention := false; single_extruder_multi_material := true;
     use_volumetric_e := false; complete_objects := false;
     draft_shield := dsDisabled; skirts := 1; skirt_height := 1 |}.

Definition fine_purge_print : Print :=
  {| m_state := all_done; m_objects := [example_object];
     m_config := fine_purge_config;
     m_wipe_tower_data := WipeTowerData_clear;
     m_skirt := []; m_skirt_convex_hull := [];
     m_first_layer_convex_hull := [] |}.

(** The job with nozzles of 0.6, and a region whose widths are the
    [double] product of 0.6 and 3. *)
Definition wide_nozzle_config : PrintConfig :=
  {| spiral_vase := false; wipe_tower := true;
     nozzle_diameter := [to_double 0.6; to_double 0.6];
     filament_diameter := [1.75; 1.75]%Q;
     filament_minimal_purge_on_wipe_tower := [15; 15]%Q;
     gcode_flavor := gcfMarlinFirmware; use_relative_e_distances := true;
     ooze_prevention := false; single_extruder_multi_material := true;
     use_volumetric_e := false; complete_objects := false;
     draft_shield := dsDisabled; skirts := 1; skirt_height := 1 |}.

Definition wide_options : ConfigBase :=
  {| get_abs_value := fun _ _ => to_double (to_double 0.6 * 3) |}.

Definition wide_region : PrintRegion := {| region_config := wide_options |}.

Definition wide_object : PrintObject :=
  {| po_state := all_done;
     m_layers := m_layers example_object;
     support_layers := [];
     instances := instances example_object;
     all_regions := [wide_region];
     config := config example_object;
     slicing_parameters := slicing_parameters example_object;
     has_support_material := false; has_support := false;
     has_raft := false |}.

Definition wide_print : Print :=
  {| m_state := all_done; m_objects := [wide_object];
     m_config := wide_nozzle_config;
     m_wipe_tower_data := WipeTowerData_clear;
     m_skirt := []; m_skirt_convex_hull := [];
     m_first_layer_convex_hull := [] |}.

(** ** Used extruders *)

(** The conversion [(unsigned int)v] of an [int]. *)
Definition to_unsigned (v : Z) : nat := Z.to_nat (v mod 2 ^ 32).

(** The two pushes of [Print::support_material_extruders] for one option of
    an object with support: 0 stands for the current extruder; any other
    value is an extruder number from 1, and one beyond the extruders of the
    printer is replaced by the first extruder. *)
Definition push_support_extruder (num_extruders : nat) (option_value : Z)
    (acc : list nat * bool) : list nat * bool :=
  let '(extruders, support_uses_current_extruder) := acc in
  if bool_decide (option_value = 0%Z) then (extruders, true)
  else
    let i := (to_unsigned option_value - 1)%nat in
    (extruders ++ [if bool_decide (num_extruders <= i)%nat then 0%nat else i],
     support_uses_current_extruder).

Section Extruders.
(** [PrintRegion::collect_object_printing_extruders] (PrintRegion.cpp)
    appends the extruders a region prints the object with. *)
Variable collect_object_printing_extruders :
  Print -> PrintRegion -> list nat -> list nat.

(** [Print::object_extruders] *)
Definition object_extruders (p : Print) : list nat :=
  sort_remove_duplicates id
    (fold_left
       (fun extruders object =>
          fold_left
            (fun extruders region =>
               collect_object_printing_extruders p region extruders)
            (all_regions object) extruders)
       (m_objects p) []).

(** [Print::support_material_extruders] *)
Definition support_material_extruders (p : Print) : list nat :=
  let num_extruders := length (nozzle_diameter (m_config p)) in
  let '(extruders, support_uses_current_extruder) :=
    fold_left
      (fun acc object =>
         if has_support_material object then
           push_support_extruder num_extruders
             (support_material_interface_extruder (config object))
             (push_support_extruder num_extruders
                (support_material_extruder (config object)) acc)
         else acc)
      (m_objects p) ([], false) in
  let extruders :=
    if support_uses_current_extruder then
      (* Add all object extruders to the support extruders as it is not
         known which one will be used to print supports. *)
      extruders ++ object_extruders p
    else extruders in
  sort_remove_duplicates id extruders.

(** [Print::extruders] *)
Definition extruders (p : Print) : list nat :=
  sort_remove_duplicates id (object_extruders p ++ support_material_extruders p).
End Extruders.

(** [Print::has_support_material] *)
Definition Print_has_support_material (p : Print) : bool :=
  existsb has_support_material (m_objects p).

(** Strictly increasing numeric values. *)
Definition index_lt {A} (index : A -> nat) (a b : A) : Prop :=
  (index a < index b)%nat.

(** The extruder options of the objects with support, in the order
    [Print::support_material_extruders] reads them. *)
Definition support_values (p : Print) : list Z :=
  flat_map
    (fun object =>
       if has_support_material object then
         [support_material_extruder (config object);
          support_material_interface_extruder (config object)]
       else [])
    (m_objects p).

(** The extruder pushed for a nonzero option value. *)
Definition clamp_extruder (num_extruders : nat) (v : Z) : nat :=
  let i := (to_unsigned v - 1)%nat in
  if bool_decide (num_extruders <= i)%nat then 0%nat else i.

(** ** Sequential printing: clearance of the extruder *)

(** [std::max_element] over heights: the largest, [None] for an empty
    range. *)
Fixpoint max_element (heights : list Z) : option Z :=
  match heights with
  | [] => None
  | h :: rest =>
      match max_element rest with
      | None => Some h
      | Some m => if (h <? m)%Z then Some m else Some h
      end
  end.

(** [sequential_print_vertical_clearance_valid].  [heights] are the heights
    of the objects of the instances in the order
    [sort_object_instances_by_model_order] prints them, and
    [scaled_clearance] is [scale_(extruder_clearance_height)].  [pop_back]
    on no instance at all is out of bounds. *)
Definition sequential_print_vertical_clearance_valid (heights : list Z)
    (scaled_clearance : Q) : Outcome bool :=
  match heights with
  | [] => OutOfBounds
  | _ :: _ =>
      (* Ignore the last instance printed. *)
      let print_instances_ordered := removelast heights in
      (* Find the other highest instance. *)
      match max_element print_instances_ordered with
      | None => Returned true
      | Some height => Returned (Qle_bool (inject_Z height) scaled_clearance)
      end
  end.

Definition Point_sub (p q : Point) : Point :=
  {| x := (x p - x q)%Z; y := (y p - y q)%Z |}.

(** [Polygon::translate] *)
Definition translate (v : Point) (polygon : Points) : Points :=
  map (fun pt => Point_add pt v) polygon.

Section HorizontalClearance.
(** Geometry and identities which Print.cpp takes from elsewhere: the id of
    the model object of a print object, its convex hull grown by the
    clearance radius, the rotation of that hull to the first instance of the
    print object, the centering offset, and whether two polygons
    intersect. *)
Variable model_object_id : PrintObject -> nat.
Variable grown_convex_hull : Print -> PrintObject -> Points.
Variable rotate_to_instance : PrintObject -> Points -> Points.
Variable center_offset : PrintObject -> Point.
Variable intersects : Points -> Points -> bool.

(** The loop over [convex_hulls_other] for one instance, from index [i] on;
    [size] is [convex_hulls_other.size()].  [None] is the early
    [return false] taken when no polygons are asked for. *)
Fixpoint check_against (polygons_wanted : bool) (convex_hull : Points)
    (size i : nat) (others : list Points) (intersecting_idxs : list nat)
  : option (list nat) :=
  match others with
  | [] => Some intersecting_idxs
  | other :: rest =>
      if intersects other convex_hull then
        if polygons_wanted then
          check_against polygons_wanted convex_hull size (S i) rest
            (intersecting_idxs ++ [i; size])
        else None
      else
        check_against polygons_wanted convex_hull size (S i) rest
          intersecting_idxs
  end.

(** One instance: checked against the hulls before it, then added to
    them. *)
Definition check_instance (polygons_wanted : bool)
    (state : option (list Points * list nat)) (convex_hull : Points)
  : option (list Points * list nat) :=
  match state with
  | None => None
  | Some (convex_hulls_other, intersecting_idxs) =>
      match check_against polygons_wanted convex_hull
              (length convex_hulls_other) 0 convex_hulls_other
              intersecting_idxs with
      | None => None
      | Some intersecting_idxs' =>
          Some (convex_hulls_other ++ [convex_hull], intersecting_idxs')
      end
  end.

(** The hulls of the instances of one object; the grown hull of a model
    object is computed once and kept in the map. *)
Definition object_instance_hulls (p : Print) (cache : gmap nat Points)
    (object : PrintObject) : gmap nat Points * list Points :=
  let model_object_id := model_object_id object in
  let '(cache, convex_hull0) :=
    match cache !! model_object_id with
    | Some hull => (cache, hull)
    | None =>
        let hull := grown_convex_hull p object in
        (<[model_object_id := hull]> cache, hull)
    end in
  let convex_hull0 := rotate_to_instance object convex_hull0 in
  (cache,
   map (fun instance =>
          translate (Point_sub (shift instance) (center_offset object))
            convex_hull0)
     (instances object)).

(** The loop over the objects. *)
Fixpoint check_objects_clearance (polygons_wanted : bool) (p : Print)
    (cache : gmap nat Points) (objects : list PrintObject)
    (state : option (list Points * list nat))
  : option (list Points * list nat) :=
  match objects with
  | [] => state
  | object :: rest =>
      let '(cache, hulls) := object_instance_hulls p cache object in
      check_objects_clearance polygons_wanted p cache rest
        (fold_left (check_instance polygons_wanted) hulls state)
  end.

(** [Print::sequential_print_horizontal_clearance_valid]: the result, and
    the polygons written to [polygons] when it is not null
    ([polygons_wanted]). *)
Definition sequential_print_horizontal_clearance_valid
    (polygons_wanted : bool) (p : Print) : bool * list Points :=
  match check_objects_clearance polygons_wanted p ∅ (m_objects p)
          (Some ([], [])) with
  | None => (false, [])
  | Some (convex_hulls_other, intersecting_idxs) =>
      match intersecting_idxs with
      | [] => (true, [])
      | _ :: _ =>
          (false,
           omap (fun i => convex_hulls_other !! i)
             (sort_remove_duplicates id intersecting_idxs))
      end
  end.

(** The hulls of all instances, in the order the loop meets them. *)
Fixpoint instance_hulls (p : Print) (cache : gmap nat Points)
    (objects : list PrintObject) : list Points :=
  match objects with
  | [] => []
  | object :: rest =>
      let '(cache, hulls) := object_instance_hulls p cache object in
      hulls ++ instance_hulls p cache rest
  end.

(** The k-th hull takes part in an intersection. *)
Definition collides (hulls : list Points) (k : nat) : Prop :=
  exists i j a b,
    (i < j)%nat /\ hulls !! i = Some a /\ hulls !! j = Some b
    /\ intersects a b = true /\ (k = i \/ k = j).
End HorizontalClearance.

(** ** The whole of [Print::validate] *)

(** The options of the print read by [Print::validate] besides those of
    [PrintConfig] above; [machine_limits_emit_to_gcode] is
    [machine_limits_usage == MachineLimitsUsage::EmitToGCode]. *)
Record ValidateConfig : Set := {
  avoid_crossing_perimeters : bool;
  avoid_crossing_curled_overhangs : bool;
  machine_limits_emit_to_gcode : bool;
  max_print_height : Q;
  first_layer_height : Q;
  extruder_clearance_height : Q;
  before_layer_gcode : string;
  layer_gcode : string
}.

(** What the loop looking for unused support enforcers reads of a
    [ModelVolume]; [has_enforcer_facets] is
    [supported_facets.has_facets] asked for [EnforcerBlockerType::ENFORCER]. *)
Record ModelVolume : Set := {
  is_support_enforcer : bool;
  is_model_part : bool;
  has_enforcer_facets : bool
}.

(** The messages of [Print::validate]; an object is named by its index. *)
Inductive ValidateError : Set :=
  | AllObjectsOutside
  | EmptyPrint
  | ObjectsTooClose
  | ObjectsTooTall
  | AvoidCrossingBoth
  | SpiralVaseSingleObject
  | SpiralVaseSingleMaterial
  | MachineLimitsKlipper
  | ExceedsBuildVolumeHeight (print_object_idx : nat)
  | LastLayerExceedsBuildVolumeHeight (print_object_idx : nat)
  | VariableLayerHeightOrganic
  | Incompatible (e : ValidationError)
  | FirstLayerHeightGreaterThanNozzle
  | LayerHeightGreaterThanNozzle
  | ExtrusionWidth (e : ExtrusionWidthError)
  | RelativeAddressingNeedsReset
  | ResetInBeforeLayerGCode
  | ResetInLayerGCode.

(** [std::numeric_limits<double>::max()] *)
Definition DBL_MAX : Q := inject_Z (2 ^ 1024 - 2 ^ 971).

(** [std::min] on [double]s. *)
Definition min_coordf (a b : Q) : Q := if Qle_bool a b then a else b.

(** The smallest nozzle diameter among the used extruders. *)
Definition used_min_nozzle_diameter (c : PrintConfig) (extruders : list nat)
  : Q :=
  fold_left
    (fun min_nozzle_diameter extruder_id =>
       min_coordf min_nozzle_diameter (get_at (nozzle_diameter c) extruder_id))
    extruders DBL_MAX.

(** Conversion of an [int] to [size_t]. *)
Definition to_size_t (v : Z) : Z := (v mod 2 ^ 64)%Z.

Section WholeValidate.
(** What [Print::validate] takes from outside of Print.cpp: [EPSILON] and
    [SCALING_FACTOR] of libslic3r.h, [equal_layering],
    [generate_object_layers] and [check_object_layers_fixed] of Slicing.hpp,
    the layer height profile of the object at an index, what it asks of the
    model object of a print object, the [raft_layers] option of an object,
    the search for [regex_g92e0] in a text, and the collaborators of the
    extruders and of the clearance checks above. *)
Variable EPSILON : Q.
Variable SCALING_FACTOR : Q.
Variable equal_layering : SlicingParameters -> SlicingParameters -> bool.
Variable generate_object_layers : SlicingParameters -> list Q -> list Q.
Variable check_object_layers_fixed : SlicingParameters -> list Q -> bool.
Variable layer_height_profile : Print -> nat -> list Q.
Variable model_has_custom_layering : PrintObject -> bool.
Variable model_volumes : PrintObject -> list ModelVolume.
Variable config_raft_layers : PrintObject -> Z.
Variable regex_search_g92e0 : string -> bool.
Variable collect_object_printing_extruders :
  Print -> PrintRegion -> list nat -> list nat.
Variable model_object_id : PrintObject -> nat.
Variable grown_convex_hull : Print -> PrintObject -> Points.
Variable rotate_to_instance : PrintObject -> Points -> Points.
Variable center_offset : PrintObject -> Point.
Variable intersects : Points -> Points -> bool.
Variable heights_in_print_order : Print -> list Z.

(** [scale_] *)
Definition scale_ (v : Q) : Q := (v / SCALING_FACTOR)%Q.

(** The block [if (m_config.complete_objects)]. *)
Definition validate_sequential (vc : ValidateConfig) (p : Print)
  : Outcome (option ValidateError) :=
  if complete_objects (m_config p) then
    if negb (fst (sequential_print_horizontal_clearance_valid model_object_id
                    grown_convex_hull rotate_to_instance center_offset
                    intersects false p))
    then Returned (Some ObjectsTooClose)
    else
      match sequential_print_vertical_clearance_valid
              (heights_in_print_order p)
              (scale_ (extruder_clearance_height vc)) with
      | Returned true => Returned None
      | Returned false => Returned (Some ObjectsTooTall)
      | CanceledException => CanceledException
      | OutOfBounds => OutOfBounds
      end
  else Returned None.

(** The block [if (m_config.spiral_vase)]. *)
Definition validate_spiral_vase (p : Print) : option ValidateError :=
  if spiral_vase (m_config p) then
    let total_copies_count :=
      fold_left (fun total object => (total + length (instances object))%nat)
        (m_objects p) 0%nat in
    if bool_decide (1 < total_copies_count)%nat
       && negb (complete_objects (m_config p))
    then Some SpiralVaseSingleObject
    else
      match m_objects p with
      | front :: _ =>
          if bool_decide (1 < length (all_regions front))%nat
          then Some SpiralVaseSingleMaterial else None
      | [] => None
      end
  else None.

(** "Checks that the print does not exceed the max print height", from the
    object at index [print_object_idx] on. *)
Fixpoint validate_max_print_height (vc : ValidateConfig) (p : Print)
    (print_object_idx : nat) (objects : list PrintObject)
  : Outcome (option ValidateError) :=
  match objects with
  | [] => Returned None
  | print_object :: rest =>
      let layers :=
        generate_object_layers (slicing_parameters print_object)
          (layer_height_profile p print_object_idx) in
      match last layers with
      | Some back =>
          if Qgt_bool back (max_print_height vc + EPSILON) then
            (* Test whether the last slicing plane is below or above the
               print volume. *)
            if (length layers <? 2)%nat then OutOfBounds
            else
              match layers !! (length layers - 2)%nat with
              | Some last_but_one =>
                  if Qgt_bool (0.5 * (last_but_one + back))
                       (max_print_height vc + EPSILON)
                  then Returned
                         (Some (ExceedsBuildVolumeHeight print_object_idx))
                  else Returned
                         (Some (LastLayerExceedsBuildVolumeHeight
                                  print_object_idx))
              | None => OutOfBounds
              end
          else validate_max_print_height vc p (S print_object_idx) rest
      | None => validate_max_print_height vc p (S print_object_idx) rest
      end
  end.

(** "Custom layering is not allowed for tree supports as of now." *)
Fixpoint validate_organic (p : Print) (print_object_idx : nat)
    (objects : list PrintObject) : option ValidateError :=
  match objects with
  | [] => None
  | print_object :: rest =>
      if has_support_material print_object
         && bool_decide
              (support_material_style (config print_object) = smsOrganic)
         && model_has_custom_layering print_object
         && (let layers := layer_height_profile p print_object_idx in
             negb (bool_decide (layers = []))
             && negb (check_object_layers_fixed
                        (slicing_parameters print_object) layers))
      then Some VariableLayerHeightOrganic
      else validate_organic p (S print_object_idx) rest
  end.

(** "validate first_layer_height": the nozzle the first layer is compared
    with. *)
Definition first_layer_min_nozzle_diameter (min_nozzle_diameter : Q)
    (p : Print) (object : PrintObject) : Q :=
  if has_raft object then
    (* if we have raft layers, only support material extruder is used on
       first layer *)
    let first_layer_extruder :=
      to_size_t
        (if (config_raft_layers object =? 1)%Z
         then support_material_interface_extruder (config object) - 1
         else support_material_extruder (config object) - 1)%Z in
    if (first_layer_extruder =? to_size_t (-1))%Z then min_nozzle_diameter
    else get_at (nozzle_diameter (m_config p)) (Z.to_nat first_layer_extruder)
  else
    (* if we don't have raft layers, any nozzle diameter is potentially used
       in first layer *)
    min_nozzle_diameter.

(** The body of the loop over the objects in the nozzle-diameter block.
    [warning] is the text [warning] points to, [None] for a null pointer. *)
Definition validate_object (vc : ValidateConfig)
    (min_nozzle_diameter max_nozzle_diameter : Q) (p : Print)
    (object : PrintObject) (warning : option string)
  : option string * option ValidateError :=
  match validate_object_support EPSILON min_nozzle_diameter
          max_nozzle_diameter p object with
  | Some e => (warning, Some (Incompatible e))
  | None =>
      (* Do we have custom support data that would not be used? *)
      let warning :=
        match warning with
        | Some text =>
            if negb (has_support object)
               && existsb
                    (fun mv =>
                       is_support_enforcer mv
                       || (is_model_part mv && has_enforcer_facets mv))
                    (model_volumes object)
            then Some "_SUPPORTS_OFF" else Some text
        | None => None
        end in
      if Qgt_bool (first_layer_height vc)
           (first_layer_min_nozzle_diameter min_nozzle_diameter p object)
      then (warning, Some FirstLayerHeightGreaterThanNozzle)
      else if Qgt_bool (layer_height (config object)) min_nozzle_diameter
      then (warning, Some LayerHeightGreaterThanNozzle)
      else
        match validate_extrusion_widths max_nozzle_diameter object with
        | Some err_msg => (warning, Some (ExtrusionWidth err_msg))
        | None => (warning, None)
        end
  end.

(** The loop over the objects. *)
Fixpoint validate_objects (vc : ValidateConfig)
    (min_nozzle_diameter max_nozzle_diameter : Q) (p : Print)
    (objects : list PrintObject) (warning : option string)
  : option string * option ValidateError :=
  match objects with
  | [] => (warning, None)
  | object :: rest =>
      match validate_object vc min_nozzle_diameter max_nozzle_diameter p
              object warning with
      | (warning, Some e) => (warning, Some e)
      | (warning, None) =>
          validate_objects vc min_nozzle_diameter max_nozzle_diameter p rest
            warning
      end
  end.

(** The last block: [G92 E0] in the custom G-code of the layer change. *)
Definition validate_extruder_reset (vc : ValidateConfig) (p : Print)
  : option ValidateError :=
  let before_layer_gcode_resets_extruder :=
    regex_search_g92e0 (before_layer_gcode vc) in
  let layer_gcode_resets_extruder := regex_search_g92e0 (layer_gcode vc) in
  if use_relative_e_distances (m_config p) then
    if (bool_decide (gcode_flavor (m_config p) = gcfMarlinLegacy)
        || bool_decide (gcode_flavor (m_config p) = gcfMarlinFirmware))
       && negb before_layer_gcode_resets_extruder
       && negb layer_gcode_resets_extruder
    then Some RelativeAddressingNeedsReset else None
  else if before_layer_gcode_resets_extruder then Some ResetInBeforeLayerGCode
  else if layer_gcode_resets_extruder then Some ResetInLayerGCode
  else None.

(** [Print::validate]: the message, [None] for the empty one, and the text
    [warning] points to afterwards. *)
Definition validate (vc : ValidateConfig) (p : Print)
    (warning : option string)
  : Outcome (option ValidateError * option string) :=
  let extruders := extruders collect_object_printing_extruders p in
  if bool_decide (m_objects p = []) then
    Returned (Some AllObjectsOutside, warning)
  else if bool_decide (extruders = []) then
    Returned (Some EmptyPrint, warning)
  else
    match validate_sequential vc p with
    | Returned (Some e) => Returned (Some e, warning)
    | CanceledException => CanceledException
    | OutOfBounds => OutOfBounds
    | Returned None =>
    if avoid_crossing_perimeters vc && avoid_crossing_curled_overhangs vc
    then Returned (Some AvoidCrossingBoth, warning)
    else
    match validate_spiral_vase p with
    | Some e => Returned (Some e, warning)
    | None =>
    if machine_limits_emit_to_gcode vc
       && bool_decide (gcode_flavor (m_config p) = gcfKlipper)
    then Returned (Some MachineLimitsKlipper, warning)
    else
    match validate_max_print_height vc p 0 (m_objects p) with
    | Returned (Some e) => Returned (Some e, warning)
    | CanceledException => CanceledException
    | OutOfBounds => OutOfBounds
    | Returned None =>
    (* Some of the objects has variable layer height applied by painting or
       by a table. *)
    let has_custom_layering :=
      existsb model_has_custom_layering (m_objects p) in
    match validate_organic p 0 (m_objects p) with
    | Some e => Returned (Some e, warning)
    | None =>
    match validate_wipe_tower EPSILON equal_layering layer_height_profile
            extruders has_custom_layering p with
    | Some e => Returned (Some (Incompatible e), warning)
    | None =>
    let min_nozzle_diameter := used_min_nozzle_diameter (m_config p) extruders in
    let max_nozzle_diameter := used_max_nozzle_diameter (m_config p) extruders in
    match validate_objects vc min_nozzle_diameter max_nozzle_diameter p
            (m_objects p) warning with
    | (warning, Some e) => Returned (Some e, warning)
    | (warning, None) =>
        Returned (validate_extruder_reset vc p, warning)
    end end end end end end.
(** An unused enforcer: what makes the loop over the objects set the
    warning. *)
Definition unused_enforcers (object : PrintObject) : bool :=
  negb (has_support object)
  && existsb
       (fun mv =>
          is_support_enforcer mv || (is_model_part mv && has_enforcer_facets mv))
       (model_volumes object).

(** What one object has passed when the loop goes on to the next. *)
Definition object_passes (vc : ValidateConfig) (p : Print)
    (extruders : list nat) (object : PrintObject) : Prop :=
  validate_object_support EPSILON
    (used_min_nozzle_diameter (m_config p) extruders)
    (used_max_nozzle_diameter (m_config p) extruders) p object = None
  /\ (forall e, e ∈ extruders ->
        (layer_height (config object)
         <= get_at (nozzle_diameter (m_config p)) e)%Q)
  /\ (has_raft object = false -> forall e, e ∈ extruders ->
        (first_layer_height vc <= get_at (nozzle_diameter (m_config p)) e)%Q)
  /\ validate_extrusion_widths
       (used_max_nozzle_diameter (m_config p) extruders) object = None.
(** The top layer of the object at an index lies above the print volume. *)
Definition too_high (vc : ValidateConfig) (p : Print) (print_object_idx : nat)
    (print_object : PrintObject) : bool :=
  match last (generate_object_layers (slicing_parameters print_object)
                (layer_height_profile p print_object_idx)) with
  | Some back => Qgt_bool back (max_print_height vc + EPSILON)
  | None => false
  end.

(** What the purge-tower block asks of an object after the first one. *)
Definition layered_as (slicing_params0 slicing_params : SlicingParameters)
  : Prop :=
  (Qabs (first_print_layer_height slicing_params
         - first_print_layer_height slicing_params0) <= EPSILON)%Q
  /\ (Qabs (sp_layer_height slicing_params - sp_layer_height slicing_params0)
      <= EPSILON)%Q
  /\ raft_layers slicing_params = raft_layers slicing_params0
  /\ (gap_object_support slicing_params0 == gap_object_support slicing_params)%Q
  /\ (gap_support_object slicing_params0 == gap_support_object slicing_params)%Q
  /\ equal_layering slicing_params slicing_params0 = true.
End WholeValidate.

(** The options and the collaborators of the validation for the small job
    above: two extruders in use, one support enforcer per object, and
    [G92 E0] searched for as the whole of the text. *)
Definition example_validate_config : ValidateConfig :=
  {| avoid_crossing_perimeters := true;
     avoid_crossing_curled_overhangs := false;
     machine_limits_emit_to_gcode := true;
     max_print_height := 200%Q; first_layer_height := 0.2%Q;
     extruder_clearance_height := 20%Q;
     before_layer_gcode := ""; layer_gcode := "G92 E0" |}.

Definition example_validate (p : Print) (warning : option string)
  : Outcome (option ValidateError * option string) :=
  validate (1 # 10000) (1 # 1000000) (fun _ _ => true)
    (fun _ profile => profile) (fun _ _ => true)
    (fun _ _ => [0; 0.2; 10; 0.2]%Q) (fun _ => false)
    (fun _ =>
       [ {| is_support_enforcer := true; is_model_part := false;
            has_enforcer_facets := false |} ])
    (fun _ => 0%Z) (fun text => String.eqb text "G92 E0")
    (fun _ _ extruders => extruders ++ [1; 0]%nat)
    (fun _ => 0%nat) (fun _ _ => [mkPoint 0 0])
    (fun _ hull => hull) (fun _ => mkPoint 0 0) (fun _ _ => false)
    (fun _ => [1000%Z]) example_validate_config p warning.

(** ** The loops of the skirt *)

(** "Number of skirt loops per skirt layer." *)
Definition n_skirts (p : Print) : nat :=
  let n_skirts := size_t (skirts (m_config p)) in
  if has_infinite_skirt p && (n_skirts =? 0)%nat then 1%nat else n_skirts.

(** What the loop of [Print::_make_skirt] carries from one turn to the
    next. *)
Record SkirtLoops : Set := {
  distance : Q;
  extruder_idx : nat;
  extruded_length : list Q;
  skirt : list ExtrusionLoop
}.

Section SkirtLoop.
(** Geometry and flow which the loop takes from elsewhere: the first
    polygon of the simplified offset of the convex hull by a distance, if
    there is one; the unscaled length of a polygon; the polyline of a
    polygon split at its first point; the scaled spacing of the flow; the
    filament extruded per mm by each used extruder; the option
    [min_skirt_length]. *)
Variable offset_loop : Q -> option Points.
Variable unscaled_length : Points -> Q.
Variable split_at_first_point : Points -> Points.
Variable scaled_spacing : Q.
Variable extruders_e_per_mm : list Q.
Variable min_skirt_length : Q.
(** What [throw_if_canceled] finds once so many loops are made. *)
Variable canceled : nat -> bool.

Definition Qlt_bool (a b : Q) : bool := negb (Qle_bool b a).

(** The loop [for (size_t i = n_skirts, extruder_idx = 0; i > 0; -- i)],
    with [i] loops still to do.  [None]: the loop has not ended after
    [fuel] turns. *)
Fixpoint skirt_loop (fuel : nat) (i : nat) (st : SkirtLoops)
  : option (Outcome SkirtLoops) :=
  match i, fuel with
  | O, _ => Some (Returned st)
  | S i', O => None
  | S i', S fuel' =>
      if canceled (length (skirt st)) then Some CanceledException
      else
        (* Offset the skirt outside. *)
        let distance := (distance st + scaled_spacing)%Q in
        (* Generate the skirt centerline. *)
        match offset_loop distance with
        | None =>
            Some (Returned {| distance := distance;
                              extruder_idx := extruder_idx st;
                              extruded_length := extruded_length st;
                              skirt := skirt st |})
        | Some loop =>
            (* Extrude the skirt loop. *)
            let skirt :=
              skirt st ++ [ {| polyline := split_at_first_point loop |} ] in
            if Qgt_bool min_skirt_length 0 then
              (* The skirt length is limited. Sum the total amount of
                 filament length extruded, in mm. *)
              match extruded_length st !! extruder_idx st,
                    extruders_e_per_mm !! extruder_idx st with
              | Some length_so_far, Some e_per_mm =>
                  let extruded :=
                    (length_so_far + unscaled_length loop * e_per_mm)%Q in
                  let extruded_length :=
                    <[extruder_idx st := extruded]> (extruded_length st) in
                  if Qlt_bool extruded min_skirt_length then
                    (* Not extruded enough yet with the current extruder.
                       Add another loop. *)
                    skirt_loop fuel' (if (i =? 1)%nat then 1%nat else i')
                      {| distance := distance;
                         extruder_idx := extruder_idx st;
                         extruded_length := extruded_length;
                         skirt := skirt |}
                  else
                    (* Enough extruded with the current extruder. Extrude
                       with the next one, until the prescribed number of
                       skirt loops is extruded. *)
                    skirt_loop fuel' i'
                      {| distance := distance;
                         extruder_idx :=
                           if (extruder_idx st + 1 <? length extruders_e_per_mm)%nat
                           then (extruder_idx st + 1)%nat
                           else extruder_idx st;
                         extruded_length := extruded_length;
                         skirt := skirt |}
              | _, _ => Some OutOfBounds
              end
            else
              (* The skirt lenght is not limited, extrude the skirt with the
                 1st extruder only. *)
              skirt_loop fuel' i'
                {| distance := distance; extruder_idx := extruder_idx st;
                   extruded_length := extruded_length st; skirt := skirt |}
        end
  end.

(** The state the loop starts from: [distance] is the initial offset of the
    brim inner edge from the object. *)
Definition skirt_start (distance : Q) (loops : list ExtrusionLoop)
  : SkirtLoops :=
  {| distance := distance; extruder_idx := 0;
     extruded_length := replicate (length extruders_e_per_mm) 0%Q;
     skirt := loops |}.

(** The distance of the k-th loop made from a state. *)
Definition loop_distance (st : SkirtLoops) (k : nat) : Q :=
  Nat.iter (S k) (fun distance => (distance + scaled_spacing)%Q) (distance st).

(** Every extruder before the current one has extruded the minimal
    length. *)
Definition earlier_extruders_done (st : SkirtLoops) : Prop :=
  forall idx extruded, (idx < extruder_idx st)%nat ->
    extruded_length st !! idx = Some extruded ->
    (min_skirt_length <= extruded)%Q.
End SkirtLoop.

(** The loop on a hull whose offsets all have a length of 100 mm, with two
    extruders which extrude 1 mm of filament per mm. *)
Definition example_skirt_loop (min_skirt_length : Q) (fuel i : nat)
  : option (Outcome SkirtLoops) :=
  skirt_loop (fun distance => Some [mkPoint 0 0; mkPoint 1 0; mkPoint 0 1])
    (fun _ => 100%Q) (fun polygon => polygon) 450000%Q [1; 1]%Q
    min_skirt_length (fun _ => false) fuel i
    (skirt_start [1; 1]%Q 5550000%Q []).

(** The number of layers of an object which the skirt is prepended to, as
    the first loop of [Print::_make_skirt] computes it. *)
Definition skirt_layers (p : Print) (object : PrintObject) : nat :=
  if has_infinite_skirt p then layer_count object
  else Nat.min (size_t (skirt_height (m_config p))) (layer_count object).

(** One turn of the loop of [skirt_height_z]. *)
Definition skirt_height_step (p : Print) (acc : option Q)
    (object : PrintObject) : option Q :=
  match acc with
  | None => None
  | Some z =>
      match skirt_layers p object with
      | O => None
      | S i =>
          match m_layers object !! i with
          | Some layer => Some (max_coordf z (Layer.print_z layer))
          | None => None
          end
      end
  end.

(** * Support/TreeSupport.hpp: the radius and the height of a branch *)

Module FFFTreeSupport.

(** [AreaIncreaseSettings]; [type] is the value of the enumeration
    [TreeModelVolumes::AvoidanceType]. *)
Record AreaIncreaseSettings : Set := {
  increase_speed : Z;
  type : nat;
  increase_radius : bool;
  no_error : bool;
  use_min_distance : bool;
  move : bool
}.

(** [SupportElementState] with the bits of [SupportElementStateBits].  The
    unsigned 32-bit members are kept within their range by the operations
    below. *)
Record SupportElementState : Set := {
  to_buildplate : bool;
  to_model_gracious : bool;
  use_min_xy_dist : bool;
  supports_roof : bool;
  can_use_safe_radius : bool;
  skip_ovalisation : bool;
  lost : bool;
  verylost : bool;
  deleted : bool;
  marked : bool;
  target_height : Z;
  target_position : Point;
  next_position : Point;
  layer_idx : Z;
  effective_radius_height : Z;
  distance_to_top : Z;
  result_on_layer : Point;
  increased_to_model_radius : Z;
  elephant_foot_increases : Q;
  dont_move_until : Z;
  last_area_increase : AreaIncreaseSettings;
  missing_roof_layers : Z
}.

(** What the inline functions read of [TreeSupportSettings]. *)
Record TreeSupportSettings : Set := {
  known_z : list Z;
  layer_height : Z;
  branch_radius : Z;
  min_radius : Z;
  tip_layers : Z;
  branch_radius_increase_per_layer : Q;
  increase_radius_until_layer : Z;
  bp_radius : Z;
  layer_start_bp_radius : Z;
  bp_radius_increase_per_layer : Q
}.

(** Conversion of an integer to [uint32_t]. *)
Definition to_uint32_t (v : Z) : Z := (v mod 2 ^ 32)%Z.

(** Conversion of a [double] to an integer: towards zero. *)
Definition truncate (v : Q) : Z :=
  if Qle_bool 0 v then Qfloor v else Qceiling v.

Section CoordT.
(** [coord_t] is defined in libslic3r.h: its largest value and the
    conversion of an integer to it. *)
Variable coord_t_max : Z.
Variable to_coord_t : Z -> Z.

(** The conversion of a [double] to [coord_t]: towards zero, and not
    defined ([None]) when the integer is not a value of [coord_t], whose
    smallest value is [- coord_t_max - 1]. *)
Definition double_to_coord_t (v : Q) : option Z :=
  let n := truncate v in
  if (- coord_t_max - 1 <=? n)%Z && (n <=? coord_t_max)%Z then Some n
  else None.

Definition result_on_layer_unset : Point := mkPoint coord_t_max coord_t_max.

(** [SupportElementState::result_on_layer_is_set] *)
Definition result_on_layer_is_set (state : SupportElementState) : bool :=
  negb (bool_decide (x (result_on_layer state) = coord_t_max)
        && bool_decide (y (result_on_layer state) = coord_t_max)).

(** [SupportElementState::propagate_down] *)
Definition propagate_down (src : SupportElementState) : SupportElementState :=
  {| to_buildplate := to_buildplate src;
     to_model_gracious := to_model_gracious src;
     use_min_xy_dist := use_min_xy_dist src;
     supports_roof := supports_roof src;
     can_use_safe_radius := can_use_safe_radius src;
     skip_ovalisation := false;
     lost := lost src; verylost := verylost src;
     deleted := deleted src; marked := marked src;
     target_height := target_height src;
     target_position := target_position src;
     next_position := next_position src;
     layer_idx := (layer_idx src - 1)%Z;
     effective_radius_height := effective_radius_height src;
     distance_to_top := to_uint32_t (distance_to_top src + 1);
     (* set to invalid as we are a new node on a new layer *)
     result_on_layer := result_on_layer_unset;
     increased_to_model_radius := increased_to_model_radius src;
     elephant_foot_increases := elephant_foot_increases src;
     dont_move_until := dont_move_until src;
     last_area_increase := last_area_increase src;
     missing_roof_layers := missing_roof_layers src |}.

(** [SupportElementState::locked] *)
Definition locked (state : SupportElementState) : bool :=
  (distance_to_top state <? dont_move_until state)%Z.

(** [TreeSupportSettings::getEffectiveDTT] *)
Definition getEffectiveDTT (config : TreeSupportSettings)
    (elem : SupportElementState) : Z :=
  if (effective_radius_height elem <? increase_radius_until_layer config)%Z
  then
    if (distance_to_top elem <? increase_radius_until_layer config)%Z
    then distance_to_top elem
    else increase_radius_until_layer config
  else effective_radius_height elem.

(** [TreeSupportSettings::getRadius] on numeric values.  In the tip the
    arithmetic is that of [size_t]; the sum is a [double], which the
    function returns as a [coord_t].  [None] is the division by zero
    [tip_layers], or a radius which is not a value of [coord_t]. *)
Definition getRadius (config : TreeSupportSettings) (distance_to_top : Z)
    (elephant_foot_increases : Q) : option Z :=
  let gradual_increase :=
    (elephant_foot_increases
     * max_coordf
         (bp_radius_increase_per_layer config
          - branch_radius_increase_per_layer config) 0)%Q in
  if (distance_to_top <=? tip_layers config)%Z then
    (* tip *)
    if (tip_layers config =? 0)%Z then None
    else
      double_to_coord_t
        (inject_Z
           (to_size_t
              (to_size_t (min_radius config)
               + to_size_t
                   (to_size_t (branch_radius config - min_radius config)
                    * distance_to_top)
                 / tip_layers config))
         + gradual_increase)
  else
    double_to_coord_t
      (inject_Z (branch_radius config) (* base *)
       + inject_Z (distance_to_top - tip_layers config)
         * branch_radius_increase_per_layer config
       + gradual_increase).

(** [TreeSupportSettings::getRadius] of an element. *)
Definition getRadius_of (config : TreeSupportSettings)
    (elem : SupportElementState) : option Z :=
  getRadius config (getEffectiveDTT config elem) (elephant_foot_increases elem).

(** [TreeSupportSettings::getCollisionRadius] *)
Definition getCollisionRadius (config : TreeSupportSettings)
    (elem : SupportElementState) : option Z :=
  getRadius config (effective_radius_height elem)
    (elephant_foot_increases elem).

(** [TreeSupportSettings::recommendedMinRadius]: a [double], returned as
    a [coord_t]. *)
Definition recommendedMinRadius (config : TreeSupportSettings) (layer_idx : Z)
  : option Z :=
  let num_layers_widened := inject_Z (layer_start_bp_radius config - layer_idx) in
  double_to_coord_t
    (if Qgt_bool num_layers_widened 0
     then inject_Z (branch_radius config)
          + num_layers_widened * bp_radius_increase_per_layer config
     else 0)%Q.

(** [TreeSupportSettings::getActualZ].  The conditional operator binds
    weaker than [+]: the sum is the condition of the inner one. *)
Definition getActualZ (config : TreeSupportSettings) (layer_idx : Z)
  : Outcome Z :=
  let size := Z.of_nat (length (known_z config)) in
  if (layer_idx <? to_coord_t size)%Z then
    match known_z config !! Z.to_nat (to_size_t layer_idx) with
    | Some z => Returned z
    | None => OutOfBounds
    end
  else if negb (to_size_t
                  (to_size_t (to_size_t layer_idx - size)
                   * to_size_t (layer_height config)
                   + size) =? 0)%Z
  then
    match last (known_z config) with
    | Some back => Returned back
    | None => OutOfBounds
    end
  else Returned 0%Z.
End CoordT.

(** The radius in the tip, as an integer. *)
Definition tip_radius (config : TreeSupportSettings) (distance_to_top : Z)
  : Z :=
  (min_radius config
   + (branch_radius config - min_radius config) * distance_to_top
     / tip_layers config)%Z.

(** The radius as the [double] which [getRadius] converts, when the
    arithmetic of the tip does not wrap around. *)
Definition radius_as_double (config : TreeSupportSettings)
    (distance_to_top : Z) (elephant_foot_increases : Q) : Q :=
  ((if (distance_to_top <=? tip_layers config)%Z
    then inject_Z (tip_radius config distance_to_top)
    else inject_Z (branch_radius config)
         + inject_Z (distance_to_top - tip_layers config)
           * branch_radius_increase_per_layer config)
   + elephant_foot_increases
     * max_coordf
         (bp_radius_increase_per_layer config
          - branch_radius_increase_per_layer config) 0)%Q.

(** The settings of a tip which widens, with no arithmetic wrapping
    around. *)
Definition widening_tip (config : TreeSupportSettings) : Prop :=
  (0 <= min_radius config <= branch_radius config)%Z
  /\ (0 < tip_layers config)%Z
  /\ ((branch_radius config - min_radius config) * tip_layers config
      + min_radius config < 2 ^ 64)%Z.

End FFFTreeSupport.

(** Settings of a tree and an element of a branch to evaluate the
    definitions on: lengths in scaled units. *)
Definition example_tree_settings : FFFTreeSupport.TreeSupportSettings :=
  {| FFFTreeSupport.known_z := [200000; 400000; 600000]%Z;
     FFFTreeSupport.layer_height := 200000;
     FFFTreeSupport.branch_radius := 2000000;
     FFFTreeSupport.min_radius := 400000;
     FFFTreeSupport.tip_layers := 10;
     FFFTreeSupport.branch_radius_increase_per_layer := 30000%Q;
     FFFTreeSupport.increase_radius_until_layer := 20;
     FFFTreeSupport.bp_radius := 8000000;
     FFFTreeSupport.layer_start_bp_radius := 50;
     FFFTreeSupport.bp_radius_increase_per_layer := 100000%Q |}.

Definition example_element : FFFTreeSupport.SupportElementState :=
  {| FFFTreeSupport.to_buildplate := true;
     FFFTreeSupport.to_model_gracious := false;
     FFFTreeSupport.use_min_xy_dist := false;
     FFFTreeSupport.supports_roof := false;
     FFFTreeSupport.can_use_safe_radius := false;
     FFFTreeSupport.skip_ovalisation := true;
     FFFTreeSupport.lost := false; FFFTreeSupport.verylost := false;
     FFFTreeSupport.deleted := false; FFFTreeSupport.marked := false;
     FFFTreeSupport.target_height := 40;
     FFFTreeSupport.target_position := mkPoint 0 0;
     FFFTreeSupport.next_position := mkPoint 0 0;
     FFFTreeSupport.layer_idx := 35;
     FFFTreeSupport.effective_radius_height := 3;
     FFFTreeSupport.distance_to_top := 5;
     FFFTreeSupport.result_on_layer := mkPoint 10 10;
     FFFTreeSupport.increased_to_model_radius := 0;
     FFFTreeSupport.elephant_foot_increases := 0.5%Q;
     FFFTreeSupport.dont_move_until := 8;
     FFFTreeSupport.last_area_increase :=
       {| FFFTreeSupport.increase_speed := 0; FFFTreeSupport.type := 0;
          FFFTreeSupport.increase_radius := false;
          FFFTreeSupport.no_error := false;
          FFFTreeSupport.use_min_distance := false;
          FFFTreeSupport.move := false |};
     FFFTreeSupport.missing_roof_layers := 0 |}.

(** An element far from the top of a tree whose radius grows for 100000
    layers. *)
Definition long_tree_settings : FFFTreeSupport.TreeSupportSettings :=
  {| FFFTreeSupport.known_z := [200000; 400000; 600000]%Z;
     FFFTreeSupport.layer_height := 200000;
     FFFTreeSupport.branch_radius := 2000000;
     FFFTreeSupport.min_radius := 400000;
     FFFTreeSupport.tip_layers := 10;
     FFFTreeSupport.branch_radius_increase_per_layer := 30000%Q;
     FFFTreeSupport.increase_radius_until_layer := 100000;
     FFFTreeSupport.bp_radius := 8000000;
     FFFTreeSupport.layer_start_bp_radius := 30000;
     FFFTreeSupport.bp_radius_increase_per_layer := 100000%Q |}.

Definition deep_element : FFFTreeSupport.SupportElementState :=
  {| FFFTreeSupport.to_buildplate := true;
     FFFTreeSupport.to_model_gracious := false;
     FFFTreeSupport.use_min_xy_dist := false;
     FFFTreeSupport.supports_roof := false;
     FFFTreeSupport.can_use_safe_radius := false;
     FFFTreeSupport.skip_ovalisation := true;
     FFFTreeSupport.lost := false; FFFTreeSupport.verylost := false;
     FFFTreeSupport.deleted := false; FFFTreeSupport.marked := false;
     FFFTreeSupport.target_height := 80000;
     FFFTreeSupport.target_position := mkPoint 0 0;
     FFFTreeSupport.next_position := mkPoint 0 0;
     FFFTreeSupport.layer_idx := 0;
     FFFTreeSupport.effective_radius_height := 3;
     FFFTreeSupport.distance_to_top := 80000;
     FFFTreeSupport.result_on_layer := mkPoint 10 10;
     FFFTreeSupport.increased_to_model_radius := 0;
     FFFTreeSupport.elephant_foot_increases := 0.5%Q;
     FFFTreeSupport.dont_move_until := 8;
     FFFTreeSupport.last_area_increase :=
       {| FFFTreeSupport.increase_speed := 0; FFFTreeSupport.type := 0;
          FFFTreeSupport.increase_radius := false;
          FFFTreeSupport.no_error := false;
          FFFTreeSupport.use_min_distance := false;
          FFFTreeSupport.move := false |};
     FFFTreeSupport.missing_roof_layers := 0 |}.

(** * Emboss.cpp: from a font to a model of a text *)

Module Emboss.

Record Vec3f : Set := mkVec3f { fx : Q; fy : Q; fz : Q }.
Record Vec3i : Set := mkVec3i { ix : Z; iy : Z; iz : Z }.

Record indexed_triangle_set : Set := {
  vertices : list Vec3f;
  indices : list Vec3i
}.

(** Conversion of an integer to [uint32_t] and to [int]. *)
Definition to_uint32_t (v : Z) : Z := (v mod 2 ^ 32)%Z.
Definition to_int (v : Z) : Z := ((v + 2 ^ 31) mod 2 ^ 32 - 2 ^ 31)%Z.

(** [Emboss::IProject] *)
Class IProject (Projection : Type) : Type :=
  project : Projection -> Point -> Vec3f * Vec3f.

(** [Emboss::ProjectZ] *)
Record ProjectZ : Set := { m_depth : Q }.

#[global] Instance ProjectZ_project : IProject ProjectZ :=
  fun projection p =>
    let front := mkVec3f (inject_Z (x p)) (inject_Z (y p)) 0 in
    let back := mkVec3f (fx front) (fy front) (m_depth projection) in
    (front, back).

(** The font as Emboss.cpp reads it. *)
Record Font : Set := {
  buffer : list Byte.byte;
  index : Z;
  count : Z;
  ascent : Z;
  descent : Z;
  linegap : Z
}.

(** [Privat::Glyph] *)
Record Glyph : Set := {
  polygons : list Points;
  advance_width : Z;
  left_side_bearing : Z
}.

(** [stbtt__point] *)
Record stbtt__point : Set := { px : Q; py : Q }.

(** The pairs of indices inserted into a [std::set]: the set they make. *)
Definition HalfEdges : Type := gset (Z * Z).

Section Polygons2Model.
(** [count_points] of Polygon.hpp and the triangulation of the shape, which
    is further below. *)
Variable count_points : list Points -> nat.
Variable triangulate : list Points -> list Vec3i.
Context {Projection : Type} `{IProject Projection}.

(** "quads around - zig zag by triangles", for the points of one polygon
    from [p] on; [todo] counts the points still to do. *)
Fixpoint quads_around (count_point polygon_offset polygon_points : Z)
    (p : Z) (todo : nat) : list Vec3i :=
  match todo with
  | O => []
  | S todo' =>
      let i := to_uint32_t (polygon_offset + p) in
      (* previous index *)
      let ip :=
        if (p =? 0)%Z
        then to_uint32_t (polygon_offset + polygon_points - 1)
        else to_uint32_t (i - 1) in
      (* bottom indices *)
      let i2 := to_uint32_t (i + count_point) in
      let ip2 := to_uint32_t (ip + count_point) in
      mkVec3i (to_int i) (to_int i2) (to_int ip)
      :: mkVec3i (to_int ip2) (to_int ip) (to_int i2)
      :: quads_around count_point polygon_offset polygon_points
           (to_uint32_t (p + 1)) todo'
  end.

(** The loop over the polygons which makes the quads. *)
Fixpoint all_quads_around (count_point polygon_offset : Z)
    (shape2d : list Points) : list Vec3i :=
  match shape2d with
  | [] => []
  | polygon :: rest =>
      let polygon_points := to_uint32_t (Z.of_nat (length polygon)) in
      quads_around count_point polygon_offset polygon_points 0
        (Z.to_nat polygon_points)
      ++ all_quads_around count_point
           (to_size_t (polygon_offset + polygon_points)) rest
  end.

(** [Emboss::polygons2model] *)
Definition polygons2model (shape2d : list Points) (projection : Projection)
  : indexed_triangle_set :=
  let count_point := Z.of_nat (count_points shape2d) in
  let projected :=
    flat_map (fun polygon => map (project projection) polygon) shape2d in
  let front_points := map fst projected in
  let back_points := map snd projected in
  (* CW order of triangle indices *)
  let shape_triangles := triangulate shape2d in
  {| (* insert back points, front are already in *)
     vertices := front_points ++ back_points;
     indices :=
       (* top triangles - change to CCW *)
       map (fun t => mkVec3i (ix t) (iz t) (iy t)) shape_triangles
       (* bottom triangles - use CW *)
       ++ map (fun t =>
                 mkVec3i (to_int (to_size_t (ix t + count_point)))
                   (to_int (to_size_t (iy t + count_point)))
                   (to_int (to_size_t (iz t + count_point))))
            shape_triangles
       ++ all_quads_around count_point 0 shape2d |}.
End Polygons2Model.

(** The loop [for (uint32_t i = 1; i < pts.size(); ++i)] of both
    [triangulate]: the edges between consecutive points, from index [i]
    on, for [todo] more points. *)
Fixpoint chain_edges (offset i : Z) (todo : nat) (edges : HalfEdges)
  : HalfEdges :=
  match todo with
  | O => edges
  | S todo' =>
      let i2 := to_uint32_t (i + offset) in
      chain_edges offset (to_uint32_t (i + 1)) todo'
        ({[ (to_uint32_t (i2 - 1), i2) ]} ∪ edges)
  end.

(** The edges which [Emboss::triangulate] makes of some polygons, and the
    offset after them. *)
Fixpoint polygons_edges (offset : Z) (polygons : list Points)
    (edges : HalfEdges) : HalfEdges :=
  match polygons with
  | [] => edges
  | pts :: rest =>
      let edges := chain_edges offset 1 (length pts - 1) edges in
      let size := to_uint32_t (Z.of_nat (length pts)) in
      (* add connection from first to last point *)
      let edges := {[ (to_uint32_t (offset + size - 1), offset) ]} ∪ edges in
      polygons_edges (to_uint32_t (offset + size)) rest edges
  end.

(** The edges which [Emboss::triangulate] makes of one polygon. *)
Definition polygon_edges (pts : Points) : HalfEdges :=
  let edges := chain_edges 0 1 (length pts - 1) ∅ in
  {[ (to_uint32_t (to_uint32_t (Z.of_nat (length pts)) - 1), 0%Z) ]} ∪ edges.

(** The three indices of a triangle are indices of vertices, of which there
    are [n]. *)
Definition valid_triangle (n : Z) (t : Vec3i) : Prop :=
  (0 <= ix t < n)%Z /\ (0 <= iy t < n)%Z /\ (0 <= iz t < n)%Z.

(** The index, among all points, of the first point of the k-th polygon. *)
Definition first_index (polygons : list Points) (k : nat) : Z :=
  Z.of_nat (length (concat (take k polygons))).

(** The edge which ends in the j-th point of a polygon of [size] points
    whose first point has the index [offset]: it starts from the point
    before, around the polygon. *)
Definition edge_into (offset : Z) (size j : nat) : Z * Z :=
  ((offset + Z.of_nat (if (j =? 0)%nat then size - 1 else j - 1))%Z,
   (offset + Z.of_nat j)%Z).


Section Fonts.
(** stb_truetype and the C library, as Emboss.cpp uses them: the offset of
    the font at an index of a collection, negative when there is none; the
    initialisation of a font, which can fail; the index of the glyph of a
    code point, 0 when the font has none; the advance width and the left
    side bearing of a glyph; its shape, with the number of vertices; the
    flattened curves of a shape, as points and the lengths of the contours;
    ascent, descent and line gap.  A file which opens has a result of
    [fseek] to its end, a position there, and the buffer which [fread]
    fills.  A [Point] is made from two floats by the constructor of
    Point.hpp. *)
Variable stbtt_fontinfo : Type.
Variable stbtt_vertices : Type.
Variable FILE : Type.
Variable stbtt_GetFontOffsetForIndex : list Byte.byte -> Z -> Z.
Variable stbtt_InitFont : list Byte.byte -> Z -> option stbtt_fontinfo.
Variable stbtt_FindGlyphIndex : stbtt_fontinfo -> Z -> Z.
Variable stbtt_GetGlyphHMetrics : stbtt_fontinfo -> Z -> Z * Z.
Variable stbtt_GetGlyphShape : stbtt_fontinfo -> Z -> Z * stbtt_vertices.
Variable stbtt_FlattenCurves :
  stbtt_vertices -> Z -> Q -> list stbtt__point * list Z.
Variable stbtt_GetFontVMetrics : stbtt_fontinfo -> Z * Z * Z.
Variable fopen : string -> option FILE.
Variable fseek_end : FILE -> Z.
Variable ftell : FILE -> Z.
Variable fread : FILE -> Z -> list Byte.byte.
Variable Point_of : Q -> Q -> Point.

(** [Privat::load_font_info] *)
Definition load_font_info (font : Font) : option stbtt_fontinfo :=
  let font_offset := stbtt_GetFontOffsetForIndex (buffer font) (index font) in
  if (font_offset <? 0)%Z then None
  else stbtt_InitFont (buffer font) font_offset.

(** The loop over the contours in [Privat::get_glyph]; [points] are those
    from the point index on.  A length below 1 makes the inner loop run past
    every array. *)
Fixpoint contours (points : list stbtt__point) (contour_lengths : list Z)
  : Outcome (list Points) :=
  match contour_lengths with
  | [] => Returned []
  | length :: rest =>
      (* last point is first point *)
      let length := (length - 1)%Z in
      if (length <? 0)%Z then OutOfBounds
      else if (Z.of_nat (List.length points) <? length)%Z then OutOfBounds
      else
        let pts :=
          map (fun point => Point_of (px point) (py point))
            (take (Z.to_nat length) points) in
        match contours (drop (S (Z.to_nat length)) points) rest with
        | Returned polygons => Returned (pts :: polygons)
        | CanceledException => CanceledException
        | OutOfBounds => OutOfBounds
        end
  end.

(** [Privat::get_glyph] *)
Definition get_glyph (font_info : stbtt_fontinfo) (unicode_letter : Z)
    (flatness : Q) : Outcome (option Glyph) :=
  let glyph_index := stbtt_FindGlyphIndex font_info unicode_letter in
  if (glyph_index =? 0)%Z then Returned None
  else
    let '(advance_width, left_side_bearing) :=
      stbtt_GetGlyphHMetrics font_info glyph_index in
    let '(num_verts, vertices) := stbtt_GetGlyphShape font_info glyph_index in
    if (num_verts <=? 0)%Z then
      (* no shape *)
      Returned (Some {| polygons := []; advance_width := advance_width;
                        left_side_bearing := left_side_bearing |})
    else
      let '(points, contour_lengths) :=
        stbtt_FlattenCurves vertices num_verts flatness in
      match contours points contour_lengths with
      | Returned polygons =>
          Returned (Some {| polygons := polygons;
                            advance_width := advance_width;
                            left_side_bearing := left_side_bearing |})
      | CanceledException => CanceledException
      | OutOfBounds => OutOfBounds
      end.

(** [Emboss::letter2polygons] *)
Definition letter2polygons (font : Font) (letter : Z) (flatness : Q)
  : Outcome (list Points) :=
  match load_font_info font with
  | None => Returned []
  | Some font_info =>
      match get_glyph font_info letter flatness with
      | Returned None => Returned []
      | Returned (Some glyph) => Returned (polygons glyph)
      | CanceledException => CanceledException
      | OutOfBounds => OutOfBounds
      end
  end.

(** The loop over the wide characters in [Emboss::text2polygons]: the
    cursor and the polygons so far. *)
Fixpoint text_loop (font_info : stbtt_fontinfo) (font : Font) (flatness : Q)
    (ws : list Z) (cursor : Point) (result : list Points)
  : Outcome (Point * list Points) :=
  match ws with
  | [] => Returned (cursor, result)
  | wc :: rest =>
      if (wc =? 10)%Z then
        text_loop font_info font flatness rest
          (mkPoint 0
             (y cursor - (ascent font - descent font + linegap font)))
          result
      else
        match get_glyph font_info wc flatness with
        | Returned None => text_loop font_info font flatness rest cursor result
        | Returned (Some glyph) =>
            (* move glyph to cursor position *)
            let polygons := map (translate cursor) (polygons glyph) in
            text_loop font_info font flatness rest
              (mkPoint (x cursor + advance_width glyph) (y cursor))
              (result ++ polygons)
        | CanceledException => CanceledException
        | OutOfBounds => OutOfBounds
        end
  end.

(** [Emboss::text2polygons]; [ws] is the text widened by
    [boost::nowide::widen]. *)
Definition text2polygons (font : Font) (ws : list Z) (flatness : Q)
  : Outcome (list Points) :=
  match load_font_info font with
  | None => Returned []
  | Some font_info =>
      match text_loop font_info font flatness ws (mkPoint 0 0) [] with
      | Returned (_, result) => Returned result
      | CanceledException => CanceledException
      | OutOfBounds => OutOfBounds
      end
  end.

(** The loop [while (font_offset >= 0)] of [Emboss::load_font]; [None]: it
    has not ended after [fuel] turns. *)
Fixpoint count_fonts (fuel : nat) (buffer : list Byte.byte)
    (index font_offset : Z) : option Z :=
  if (font_offset <? 0)%Z then Some index
  else
    match fuel with
    | O => None
    | S fuel' =>
        count_fonts fuel' buffer (to_uint32_t (index + 1))
          (stbtt_GetFontOffsetForIndex buffer index)
    end.

(** [Emboss::load_font]; the outer [None]: the loop over the fonts has not
    ended after [fuel] turns. *)
Definition load_font (fuel : nat) (file_path : string)
  : option (option Font) :=
  match fopen file_path with
  | None => Some None
  | Some file =>
      (* find size of file *)
      if negb (fseek_end file =? 0)%Z then Some None
      else
        let size := to_size_t (ftell file) in
        if (size =? 0)%Z then Some None
        else
          let buffer := fread file size in
          match count_fonts fuel buffer 0 0 with
          | None => None
          | Some index =>
              (* at least one font must be inside collection *)
              if (index <? 1)%Z then Some None
              else
                (* select default font on index 0 *)
                let res := {| buffer := buffer; index := 0; count := index;
                              ascent := 0; descent := 0; linegap := 0 |} in
                match load_font_info res with
                | None => Some None
                | Some font_info =>
                    (* load information about line gap *)
                    let '(ascent, descent, linegap) :=
                      stbtt_GetFontVMetrics font_info in
                    Some (Some {| buffer := buffer; index := 0;
                                  count := index; ascent := ascent;
                                  descent := descent; linegap := linegap |})
                end
          end
  end.

(** The height of a line of a font, and the line breaks of a text. *)
Definition line_height (font : Font) : Z :=
  (ascent font - descent font + linegap font)%Z.

Definition line_breaks (ws : list Z) : Z :=
  Z.of_nat (length (filter (fun wc => wc = 10%Z) ws)).
End Fonts.

End Emboss.

(** A font collection of two fonts whose glyphs are all the same triangle,
    for the letters from code point 65 on, and a file which holds it. *)
Definition example_font : Emboss.Font :=
  {| Emboss.buffer := []; Emboss.index := 0; Emboss.count := 3;
     Emboss.ascent := 800; Emboss.descent := -200; Emboss.linegap := 90 |}.

Definition example_font_offset (buffer : list Byte.byte) (index : Z) : Z :=
  if (index <? 2)%Z then 12%Z else (-1)%Z.

Definition example_text2polygons (ws : list Z)
  : Outcome (list Points) :=
  Emboss.text2polygons unit unit example_font_offset (fun _ _ => Some tt)
    (fun _ unicode_letter => Z.max 0 (unicode_letter - 64))
    (fun _ _ => (600, 50)%Z) (fun _ _ => (4%Z, tt))
    (fun _ _ _ =>
       ([ {| Emboss.px := 0; Emboss.py := 0 |};
          {| Emboss.px := 500; Emboss.py := 0 |};
          {| Emboss.px := 0; Emboss.py := 700 |};
          {| Emboss.px := 0; Emboss.py := 0 |} ], [4%Z]))
    (fun a b => mkPoint (Qfloor a) (Qfloor b)) example_font ws 2.

Definition example_load_font (fuel : nat) (file_path : string)
  : option (option Emboss.Font) :=
  Emboss.load_font unit unit example_font_offset (fun _ _ => Some tt)
    (fun _ => (800, -200, 90)%Z) (fun _ => Some tt) (fun _ => 0%Z)
    (fun _ => 3%Z) (fun _ _ => []) fuel file_path.

Definition example_shape : list Points :=
  [ [mkPoint 0 0; mkPoint 500 0; mkPoint 0 700];
    [mkPoint 100 100; mkPoint 100 200; mkPoint 200 100] ].

(** * Theorems *)

Lemma all_PrintSteps_complete (s : PrintStep) : s ∈ all_PrintSteps.
Proof. destruct s; unfold all_PrintSteps; set_solver. Qed.

Lemma all_PrintObjectSteps_complete (s : PrintObjectStep) : s ∈ all_PrintObjectSteps.
Proof. destruct s; unfold all_PrintObjectSteps; set_solver. Qed.

Section StateLemmas.
Context {StepType : Type} `{EqDecision StepType}.
Implicit Types (st : PrintState StepType) (step s : StepType).

Lemma invalidate_state step st s :
  snd (PrintStateOps.invalidate step st) s
  = if decide (s = step) then Invalidated else st s.
Proof.
  unfold PrintStateOps.invalidate.
  destruct (decide (st step = Invalidated)) as [E|E]; simpl; [|done].
  destruct (decide (s = step)); congruence.
Qed.

Lemma invalidate_flag step st :
  fst (PrintStateOps.invalidate step st) = noninv (st step).
Proof.
  unfold PrintStateOps.invalidate, noninv.
  destruct (decide (st step = Invalidated)) as [E|E]; simpl.
  - by rewrite bool_decide_eq_true_2.
  - by rewrite bool_decide_eq_false_2.
Qed.
End StateLemmas.

Lemma objs_flag_false TO os : (forall s, TO s = false) -> objs_flag TO os = false.
Proof.
  intros H. induction os as [|o os IH]; simpl; [done|].
  rewrite IH. unfold obj_flag. simpl. rewrite !H. done.
Qed.

Lemma objs_flag_ext TO TO' os :
  (forall s, TO s = TO' s) -> objs_flag TO os = objs_flag TO' os.
Proof.
  intros HO. induction os as [|o os IH]; simpl; [done|].
  rewrite IH. f_equal. unfold obj_flag. simpl. by rewrite !HO.
Qed.

Lemma stage_ext TJ TO TJ' TO' b p b' p' :
  (forall s, TJ s = TJ' s) -> (forall s, TO s = TO' s) ->
  stage TJ TO b p b' p' -> stage TJ' TO' b p b' p'.
Proof.
  intros HJ HO [H1 H2 H3 H4]. split.
  - intros s. rewrite <- HJ. apply H1.
  - eapply Forall2_impl; [exact H2|]. intros o o' [Ha Hb]. split; [|done].
    intros s. rewrite <- HO. apply Ha.
  - exact H3.
  - rewrite H4. f_equal; [f_equal|].
    + unfold job_flag. simpl. by rewrite !HJ.
    + by apply objs_flag_ext.
Qed.

Lemma stage_id b p : stage (fun _ => false) (fun _ => false) b p b p.
Proof.
  split; simpl.
  - done.
  - apply Forall_Forall2_diag, Forall_forall. intros o _. split; [done|].
    by destruct o.
  - by destruct p.
  - rewrite objs_flag_false by done. unfold job_flag. simpl. by destruct b.
Qed.

Lemma stage_compose TJ1 TO1 TJ2 TO2 b p b1 p1 b2 p2 :
  stage TJ1 TO1 b p b1 p1 -> stage TJ2 TO2 b1 p1 b2 p2 ->
  stage (fun s => TJ1 s || TJ2 s) (fun s => TO1 s || TO2 s) b p b2 p2.
Proof.
  intros [A1 A2 A3 A4] [B1 B2 B3 B4]. split.
  - intros s. rewrite B1, A1. by destruct (TJ1 s), (TJ2 s).
  - clear -A2 B2. revert B2. generalize (m_objects p2).
    induction A2 as [|o o1 os os1 [Ha Hb] _ IH]; intros l B2.
    + inversion B2. constructor.
    + inversion B2 as [|? o2 ? os2 [Hc Hd] Hrest]; subst. constructor; [|by apply IH].
      split.
      * intros s. rewrite Hc, Ha. by destruct (TO1 s), (TO2 s).
      * clear -Hb Hd. destruct o, o1, o2. unfold set_po_state in *.
        simpl in *. congruence.
  - clear -A3 B3. destruct p, p1, p2. unfold set_m_state, set_m_objects in *.
    simpl in *. congruence.
  - rewrite B4, A4.
    assert (job_flag TJ1 (m_state p) || job_flag TJ2 (m_state p1)
            = job_flag (fun s => TJ1 s || TJ2 s) (m_state p)) as EJ.
    { unfold job_flag. simpl. rewrite !A1. unfold noninv.
      destruct (TJ1 psWipeTower), (TJ1 psAlertWhenSupportsNeeded),
        (TJ1 psSkirtBrim), (TJ1 psGCodeExport); simpl; btauto. }
    assert (objs_flag TO1 (m_objects p) || objs_flag TO2 (m_objects p1)
            = objs_flag (fun s => TO1 s || TO2 s) (m_objects p)) as EO.
    { clear -A2. induction A2 as [|o o1 os os1 [Ha Hb] _ IH]; simpl; [done|].
      rewrite <- IH.
      assert (obj_flag TO1 o || obj_flag TO2 o1
              = obj_flag (fun s => TO1 s || TO2 s) o) as <-.
      { unfold obj_flag. simpl. rewrite !Ha. unfold noninv.
        destruct (TO1 posSlice), (TO1 posPerimeters), (TO1 posInfill),
          (TO1 posSupportMaterial), (TO1 posEstimateCurledExtrusions);
          simpl; btauto. }
      btauto. }
    rewrite <- EJ, <- EO. btauto.
Qed.

Lemma invalidate_step_stage step b p :
  stage (fun s => is_step step s || is_step psGCodeExport s) (fun _ => false)
    b p (b || fst (invalidate_step step p)) (snd (invalidate_step step p)).
Proof.
  unfold invalidate_step.
  pose proof (invalidate_state step (m_state p)) as S1.
  pose proof (invalidate_flag step (m_state p)) as F1.
  destruct (PrintStateOps.invalidate step (m_state p)) as [i1 st1].
  simpl in S1, F1.
  pose proof (invalidate_state psGCodeExport st1) as S2.
  pose proof (invalidate_flag psGCodeExport st1) as F2.
  destruct (PrintStateOps.invalidate psGCodeExport st1) as [i2 st2].
  simpl in S2, F2. subst i1 i2.
  destruct (decide (step <> psGCodeExport)) as [Hne|He]; simpl; split; simpl.
  - intros s. rewrite S2, S1. unfold is_step.
    destruct (decide (s = psGCodeExport)), (decide (s = step)); subst;
      repeat case_bool_decide; simpl; congruence.
  - apply Forall_Forall2_diag, Forall_forall. intros o _. split; [done|].
    by destruct o.
  - done.
  - rewrite objs_flag_false by done. unfold job_flag, is_step. simpl.
    rewrite S1. destruct step; simpl; try congruence; unfold noninv;
      repeat case_bool_decide; simpl; try congruence; btauto.
  - intros s. rewrite S1. unfold is_step.
    assert (step = psGCodeExport) as -> by (by destruct (decide (step = psGCodeExport)); [|exfalso; apply He]).
    destruct (decide (s = psGCodeExport)); repeat case_bool_decide; simpl; congruence.
  - apply Forall_Forall2_diag, Forall_forall. intros o _. split; [done|].
    by destruct o.
  - done.
  - rewrite objs_flag_false by done. unfold job_flag, is_step. simpl.
    assert (step = psGCodeExport) as -> by (by destruct (decide (step = psGCodeExport)); [|exfalso; apply He]).
    simpl. btauto.
Qed.

Lemma invalidate_all_steps_stage b p :
  stage (fun _ => true) (fun _ => false)
    b p (b || fst (invalidate_all_steps p)) (snd (invalidate_all_steps p)).
Proof.
  unfold invalidate_all_steps, PrintStateOps.invalidate_all. simpl.
  split; simpl.
  - intros s. rewrite decide_True; [done|apply all_PrintSteps_complete].
  - apply Forall_Forall2_diag, Forall_forall. intros o _. split; [done|].
    by destruct o.
  - done.
  - rewrite objs_flag_false by done. unfold job_flag, noninv. simpl. btauto.
Qed.

Lemma invalidate_objects_loop_spec ostep os b st :
  let r := invalidate_objects_loop ostep os b st in
  (forall s, snd r s
     = if is_step psGCodeExport s && nonempty os
       then Invalidated else st s) /\
  Forall2 (obj_rel (is_step ostep)) os (snd (fst r)) /\
  fst (fst r)
  = b || (nonempty os && noninv (st psGCodeExport))
      || objs_flag (is_step ostep) os.
Proof.
  revert b st. induction os as [|o os IH]; intros b st; simpl.
  - split; [|split].
    + intros s. by rewrite andb_false_r.
    + constructor.
    + btauto.
  - unfold PrintObject_invalidate_step.
    pose proof (invalidate_state ostep (po_state o)) as S1.
    pose proof (invalidate_flag ostep (po_state o)) as F1.
    destruct (PrintStateOps.invalidate ostep (po_state o)) as [i1 ost].
    pose proof (invalidate_state psGCodeExport st) as S2.
    pose proof (invalidate_flag psGCodeExport st) as F2.
    destruct (PrintStateOps.invalidate psGCodeExport st) as [i2 st1].
    simpl in S1, F1, S2, F2. subst i1 i2.
    specialize (IH (b || (noninv (po_state o ostep) || noninv (st psGCodeExport))) st1).
    destruct (invalidate_objects_loop ostep os _ st1) as [[b2 os2] st2].
    simpl in IH |- *. destruct IH as (I1 & I2 & I3).
    split; [|split].
    + intros s. rewrite I1, S2. unfold is_step.
      destruct (decide (s = psGCodeExport)), (nonempty os);
        repeat case_bool_decide; simpl; congruence.
    + constructor; [|done]. split; simpl; [|done].
      intros s. rewrite S1. unfold is_step.
      destruct (decide (s = ostep)); repeat case_bool_decide; congruence.
    + rewrite I3. rewrite S2. simpl.
      assert (obj_flag (is_step ostep) o = noninv (po_state o ostep)) as ->.
      { unfold obj_flag, is_step. destruct ostep; simpl; btauto. }
      unfold noninv. simpl. destruct (nonempty os); simpl; btauto.
Qed.

Lemma invalidate_ostep_stage ostep b p :
  stage (fun s => is_step psGCodeExport s && nonempty (m_objects p))
    (is_step ostep) b p
    (fst (invalidate_ostep (b, p) ostep)) (snd (invalidate_ostep (b, p) ostep)).
Proof.
  unfold invalidate_ostep.
  pose proof (invalidate_objects_loop_spec ostep (m_objects p) b (m_state p)) as H.
  destruct (invalidate_objects_loop ostep (m_objects p) b (m_state p))
    as [[b' os'] st']. simpl in H |- *. destruct H as (H1 & H2 & H3).
  split; simpl; [exact H1|exact H2|done|].
  rewrite H3. f_equal. f_equal. unfold job_flag, is_step. simpl.
  btauto.
Qed.

Lemma stage_objects_nonempty TJ TO b p b' p' :
  stage TJ TO b p b' p' ->
  nonempty (m_objects p') = nonempty (m_objects p).
Proof. intros [_ H _ _]. by destruct H. Qed.

Lemma invalidate_steps_loop_stage l b p :
  stage (fun s => member l s || (is_step psGCodeExport s && nonempty l))
    (fun _ => false) b p
    (fst (invalidate_steps_loop l (b, p))) (snd (invalidate_steps_loop l (b, p))).
Proof.
  unfold invalidate_steps_loop. revert b p.
  induction l as [|step l IH]; intros b p; simpl.
  - eapply stage_ext; [| |apply stage_id]; [|done].
    intros s. unfold member, nonempty, is_step.
    repeat case_bool_decide; simpl; try done; set_solver.
  - pose proof (invalidate_step_stage step b p) as H1.
    destruct (invalidate_step step p) as [b1 p1]. simpl in H1.
    eapply stage_ext; [| |exact (stage_compose _ _ _ _ _ _ _ _ _ _ H1 (IH _ _))].
    + intros s. unfold member, nonempty, is_step.
      repeat case_bool_decide; simpl; try done; set_solver.
    + done.
Qed.

Lemma invalidate_osteps_loop_stage l b p :
  stage (fun s => is_step psGCodeExport s && (nonempty l && nonempty (m_objects p)))
    (member l) b p
    (fst (invalidate_osteps_loop l (b, p))) (snd (invalidate_osteps_loop l (b, p))).
Proof.
  unfold invalidate_osteps_loop. revert b p.
  induction l as [|ostep l IH]; intros b p; cbn [fold_left].
  - eapply stage_ext; [| |apply stage_id].
    + intros s. simpl. by rewrite andb_false_r.
    + intros s. unfold member. case_bool_decide; set_solver.
  - pose proof (invalidate_ostep_stage ostep b p) as H1.
    destruct (invalidate_ostep (b, p) ostep) as [b1 p1]. simpl in H1.
    pose proof (stage_objects_nonempty _ _ _ _ _ _ H1) as Hne.
    eapply stage_ext; [| |exact (stage_compose _ _ _ _ _ _ _ _ _ _ H1 (IH _ _))].
    + intros s. unfold is_step. rewrite Hne. simpl.
      destruct (nonempty (m_objects p)), (nonempty l);
        repeat case_bool_decide; simpl; try done.
    + intros s. unfold member, is_step.
      repeat case_bool_decide; simpl; try done; set_solver.
Qed.

Section Unique.
Context {A : Type} `{EqDecision A}.

Lemma elem_of_unique (l : list A) (a : A) : a ∈ unique l <-> a ∈ l.
Proof.
  induction l as [|b l IH]; [done|].
  simpl. destruct l as [|c l]; [done|].
  destruct (decide (b = c)) as [->|Hne].
  - rewrite IH. set_solver.
  - rewrite elem_of_cons, IH. set_solver.
Qed.

Lemma elem_of_sort_remove_duplicates (index : A -> nat) (l : list A) (a : A) :
  a ∈ sort_remove_duplicates index l <-> a ∈ l.
Proof.
  unfold sort_remove_duplicates. rewrite elem_of_unique.
  by rewrite merge_sort_Permutation.
Qed.

Lemma member_sort_remove_duplicates (index : A -> nat) (l : list A) (a : A) :
  member (sort_remove_duplicates index l) a = member l a.
Proof.
  unfold member. apply bool_decide_ext, elem_of_sort_remove_duplicates.
Qed.

Lemma nonempty_elem_of (l : list A) : nonempty l = true <-> exists a, a ∈ l.
Proof.
  destruct l as [|a l]; simpl.
  - split; [done|]. intros [a Ha]. set_solver.
  - split; [|done]. intros _. exists a. set_solver.
Qed.

Lemma nonempty_sort_remove_duplicates (index : A -> nat) (l : list A) :
  nonempty (sort_remove_duplicates index l) = nonempty l.
Proof.
  apply eq_true_iff_eq. rewrite !nonempty_elem_of.
  by setoid_rewrite elem_of_sort_remove_duplicates.
Qed.
End Unique.

Lemma fold_classify_key opt_keys a :
  let a' := fold_left classify_key opt_keys a in
  steps a' = steps a ++ flat_map key_steps opt_keys /\
  osteps a' = osteps a ++ flat_map key_osteps opt_keys /\
  stage (fun _ => existsb key_unknown opt_keys) (fun _ => false)
    (invalidated a) (print a) (invalidated a') (print a').
Proof.
  revert a. induction opt_keys as [|k ks IH]; intros a; cbn [fold_left].
  - simpl. rewrite !app_nil_r. split; [done|split; [done|apply stage_id]].
  - specialize (IH (classify_key a k)). cbv zeta in IH.
    destruct IH as (I1 & I2 & I3).
    cbn [flat_map existsb]. unfold key_steps at 1, key_osteps at 1, key_unknown at 1.
    unfold classify_key in I1, I2, I3 |- *.
    destruct (classify k) as [[ss os]|] eqn:Hc.
    + cbn [steps osteps invalidated print push_steps] in I1, I2, I3.
      rewrite I1, I2, <- !app_assoc.
      split; [done|split; [done|]]. exact I3.
    + pose proof (invalidate_all_steps_stage (invalidated a) (print a)) as H1.
      destruct (invalidate_all_steps (print a)) as [b1 p1].
      cbn [steps osteps invalidated print fst snd] in I1, I2, I3, H1.
      split; [done|split; [done|]].
      eapply stage_ext; [| |exact (stage_compose _ _ _ _ _ _ _ _ _ _ H1 I3)]; done.
Qed.

(** What a batch of keys does, whatever their order. *)
Lemma invalidate_state_by_config_options_stage opt_keys p :
  stage (job_target opt_keys (m_objects p)) (object_target opt_keys) false p
    (fst (invalidate_state_by_config_options opt_keys p))
    (snd (invalidate_state_by_config_options opt_keys p)).
Proof.
  destruct opt_keys as [|k0 ks].
  { simpl. eapply stage_ext; [| |apply stage_id].
    - intros s. unfold job_target, member. simpl. by rewrite andb_false_r.
    - done. }
  unfold invalidate_state_by_config_options. cbv beta iota zeta.
  set (opt_keys := k0 :: ks).
  pose proof (fold_classify_key opt_keys
    {| steps := []; osteps := []; invalidated := false; print := p |}) as H.
  cbv zeta in H. destruct (fold_left classify_key opt_keys _) as [ss os b1 p1].
  cbn [steps osteps invalidated print app] in H |- *.
  destruct H as (-> & -> & H1).
  set (SS := flat_map key_steps opt_keys) in *.
  set (OS := flat_map key_osteps opt_keys) in *.
  pose proof (invalidate_steps_loop_stage
    (sort_remove_duplicates PrintStep_index SS) b1 p1) as H2.
  destruct (invalidate_steps_loop _ (b1, p1)) as [b2 p2]. simpl in H2.
  pose proof (invalidate_osteps_loop_stage
    (sort_remove_duplicates PrintObjectStep_index OS) b2 p2) as H3.
  pose proof (stage_objects_nonempty _ _ _ _ _ _ H1) as N1.
  pose proof (stage_objects_nonempty _ _ _ _ _ _ H2) as N2.
  eapply stage_ext;
    [| |exact (stage_compose _ _ _ _ _ _ _ _ _ _
                 (stage_compose _ _ _ _ _ _ _ _ _ _ H1 H2) H3)].
  - intros s. unfold job_target. fold SS OS.
    rewrite member_sort_remove_duplicates, !nonempty_sort_remove_duplicates.
    rewrite N2, N1.
    destruct (existsb key_unknown opt_keys), (member SS s),
      (is_step psGCodeExport s), (nonempty SS), (nonempty OS),
      (nonempty (m_objects p)); done.
  - intros s. unfold object_target. fold OS.
    by rewrite member_sort_remove_duplicates.
Qed.

(** *** What the loops leave alone *)
Lemma invalidate_step_objects step p :
  m_objects (snd (invalidate_step step p)) = m_objects p.
Proof.
  unfold invalidate_step.
  destruct (PrintStateOps.invalidate step (m_state p)) as [i1 st1].
  destruct (PrintStateOps.invalidate psGCodeExport st1) as [i2 st2].
  by destruct (decide (step <> psGCodeExport)).
Qed.

Lemma invalidate_steps_loop_objects l bp :
  m_objects (snd (invalidate_steps_loop l bp)) = m_objects (snd bp).
Proof.
  unfold invalidate_steps_loop. revert bp.
  induction l as [|step l IH]; intros [b p]; cbn [fold_left]; [done|].
  pose proof (invalidate_step_objects step p) as H.
  destruct (invalidate_step step p) as [b1 p1]. by rewrite IH.
Qed.

Lemma fold_classify_key_objects opt_keys a :
  m_objects (print (fold_left classify_key opt_keys a)) = m_objects (print a).
Proof.
  revert a. induction opt_keys as [|k ks IH]; intros a; cbn [fold_left]; [done|].
  rewrite IH. unfold classify_key.
  destruct (classify k) as [[ss os]|]; [done|].
  unfold invalidate_all_steps. by destruct (PrintStateOps.invalidate_all _ _).
Qed.

Lemma classify_gcode k : k ∈ steps_gcode -> classify k = Some ([psGCodeExport], []).
Proof. intros H. unfold classify. by rewrite bool_decide_eq_true_2. Qed.

Lemma flat_map_nil {A B} (f : A -> list B) (l : list A) :
  (forall a, a ∈ l -> f a = []) -> flat_map f l = [].
Proof.
  induction l as [|a l IH]; intros H; simpl; [done|].
  rewrite H, IH; [done| |].
  - intros b Hb. apply H. by constructor.
  - constructor.
Qed.

(** C3.  A batch of keys which are all in the G-code-only set invalidates
    exactly the export step: every other step of the job keeps its status,
    the objects are untouched, and the export step is Invalidated when the
    batch is not empty.  The flag returned tells whether the export step
    changed. *)
Theorem gcode_only_keys_invalidate_only_export (opt_keys : list string) (p : Print) :
  (forall k, k ∈ opt_keys -> k ∈ steps_gcode) ->
  let r := invalidate_state_by_config_options opt_keys p in
  (opt_keys <> [] -> m_state (snd r) psGCodeExport = Invalidated) /\
  (forall s, s <> psGCodeExport -> m_state (snd r) s = m_state p s) /\
  m_objects (snd r) = m_objects p /\
  fst r = nonempty opt_keys && noninv (m_state p psGCodeExport).
Proof.
  intros Hg r.
  assert (flat_map key_osteps opt_keys = []) as HO.
  { apply flat_map_nil. intros k Hk. unfold key_osteps.
    by rewrite (classify_gcode k (Hg k Hk)). }
  assert (existsb key_unknown opt_keys = false) as HU.
  { apply not_true_is_false. intros H. apply existsb_exists in H.
    destruct H as (k & Hk & H). apply list_elem_of_In in Hk. unfold key_unknown in H.
    by rewrite (classify_gcode k (Hg k Hk)) in H. }
  assert (forall s, s ∈ flat_map key_steps opt_keys -> s = psGCodeExport) as HS.
  { intros s Hs. apply list_elem_of_In, in_flat_map in Hs.
    destruct Hs as (k & Hk & Hs). apply list_elem_of_In in Hk.
    unfold key_steps in Hs. rewrite (classify_gcode k (Hg k Hk)) in Hs.
    simpl in Hs. by destruct Hs. }
  assert (nonempty (flat_map key_steps opt_keys) = nonempty opt_keys) as HN.
  { destruct opt_keys as [|k ks]; [done|]. simpl. unfold key_steps at 1.
    rewrite (classify_gcode k); [done|]. apply Hg. constructor. }
  pose proof (invalidate_state_by_config_options_stage opt_keys p) as [H1 _ _ H4].
  fold r in H1, H4.
  assert (forall s, job_target opt_keys (m_objects p) s
                    = is_step psGCodeExport s && nonempty opt_keys) as HT.
  { intros s. unfold job_target. rewrite HU, HO, HN. simpl.
    unfold member, is_step. rewrite orb_false_r.
    destruct (nonempty opt_keys) eqn:E; rewrite <- HN in E.
    - repeat case_bool_decide; simpl; try done. by specialize (HS s ltac:(done)).
    - rewrite andb_false_r, orb_false_r. apply bool_decide_eq_false_2.
      intros Hs. assert (nonempty (flat_map key_steps opt_keys) = true); [|congruence].
      apply nonempty_elem_of. eauto. }
  split; [|split; [|split]].
  - intros Hne. rewrite H1, HT. unfold is_step. simpl.
    by destruct opt_keys.
  - intros s Hs. rewrite H1, HT. unfold is_step.
    by rewrite bool_decide_eq_false_2.
  - subst r. destruct opt_keys as [|k0 ks]; [done|].
    unfold invalidate_state_by_config_options. cbv beta iota zeta.
    pose proof (fold_classify_key (k0 :: ks)
      {| steps := []; osteps := []; invalidated := false; print := p |}) as H.
    cbv zeta in H. destruct H as (_ & H & _).
    rewrite H, HO. cbn [osteps app].
    change (sort_remove_duplicates PrintObjectStep_index []) with (@nil PrintObjectStep).
    unfold invalidate_osteps_loop. cbn [fold_left].
    rewrite invalidate_steps_loop_objects. cbn [snd].
    exact (fold_classify_key_objects (k0 :: ks) _).
  - rewrite H4. simpl.
    rewrite objs_flag_false.
    2:{ intros s. unfold object_target, member. rewrite HO.
        apply bool_decide_eq_false_2, not_elem_of_nil. }
    unfold job_flag. simpl. rewrite !HT. unfold is_step. simpl.
    by rewrite !orb_false_r.
Qed.

Lemma gcode_only_keys_invalidate_only_export_witness :
  let r := invalidate_state_by_config_options ["bed_temperature"]
             example_print in
  m_state (snd r) psGCodeExport = Invalidated /\
  m_state (snd r) psSkirtBrim = Done /\
  m_objects (snd r) = [example_object].
Proof.
  assert (forall k, k ∈ ["bed_temperature"] -> k ∈ steps_gcode) as Hk.
  { intros k Hk. apply list_elem_of_singleton in Hk. subst k.
    apply (bool_decide_unpack _). vm_compute. exact I. }
  pose proof (gcode_only_keys_invalidate_only_export ["bed_temperature"]
                example_print Hk) as (H1 & H2 & H3 & _).
  split; [apply H1; discriminate|]. split; [|exact H3].
  rewrite H2; [reflexivity|discriminate].
Defined.

Lemma same_keys_flat_map {B} (f : string -> list B) (l1 l2 : list string) :
  (forall k, k ∈ l1 <-> k ∈ l2) ->
  forall b, b ∈ flat_map f l1 <-> b ∈ flat_map f l2.
Proof.
  intros H b. rewrite !list_elem_of_In, !in_flat_map.
  split; intros (k & Hk & Hb); exists k; split; try done;
    apply list_elem_of_In, H, list_elem_of_In, Hk.
Qed.

Lemma same_keys_existsb (f : string -> bool) (l1 l2 : list string) :
  (forall k, k ∈ l1 <-> k ∈ l2) -> existsb f l1 = existsb f l2.
Proof.
  intros H. apply eq_true_iff_eq. rewrite !existsb_exists.
  split; intros (k & Hk & Hb); exists k; split; try done;
    apply list_elem_of_In, H, list_elem_of_In, Hk.
Qed.

Lemma same_elements_member {A} `{EqDecision A} (l1 l2 : list A) :
  (forall a, a ∈ l1 <-> a ∈ l2) -> forall a, member l1 a = member l2 a.
Proof. intros H a. unfold member. apply bool_decide_ext, H. Qed.

Lemma same_elements_nonempty {A} `{EqDecision A} (l1 l2 : list A) :
  (forall a, a ∈ l1 <-> a ∈ l2) -> nonempty l1 = nonempty l2.
Proof.
  intros H. apply eq_true_iff_eq. rewrite !nonempty_elem_of.
  by setoid_rewrite H.
Qed.

Lemma stage_deterministic TJ TO b p b1 p1 b2 p2 :
  stage TJ TO b p b1 p1 -> stage TJ TO b p b2 p2 ->
  b1 = b2 /\
  (forall s, m_state p1 s = m_state p2 s) /\
  Forall2 same_statuses (m_objects p1) (m_objects p2).
Proof.
  intros [A1 A2 _ A4] [B1 B2 _ B4]. split; [congruence|split].
  - intros s. by rewrite A1, B1.
  - clear -A2 B2. revert B2. generalize (m_objects p2).
    induction A2 as [|o o1 os os1 [Ha _] _ IH]; intros l B2.
    + inversion B2. constructor.
    + inversion B2 as [|? o2 ? os2 [Hc _] Hrest]; subst.
      constructor; [|by apply IH].
      intros s. by rewrite Ha, Hc.
Qed.

(** C8.  Two lists of keys with the same elements, in whatever order and
    with whatever repetitions, invalidate the same steps of the job and of
    every object, and return the same flag. *)
Theorem invalidation_is_order_independent (l1 l2 : list string) (p : Print) :
  (forall k, k ∈ l1 <-> k ∈ l2) ->
  let r1 := invalidate_state_by_config_options l1 p in
  let r2 := invalidate_state_by_config_options l2 p in
  fst r1 = fst r2 /\
  (forall s, m_state (snd r1) s = m_state (snd r2) s) /\
  Forall2 same_statuses (m_objects (snd r1)) (m_objects (snd r2)).
Proof.
  intros H r1 r2.
  pose proof (invalidate_state_by_config_options_stage l1 p) as H1.
  pose proof (invalidate_state_by_config_options_stage l2 p) as H2.
  apply (stage_deterministic _ _ _ _ _ _ _ _ H1).
  eapply stage_ext; [| |exact H2].
  - intros s. unfold job_target.
    rewrite (same_keys_existsb key_unknown l2 l1) by (intros k; by rewrite H).
    rewrite (same_elements_member (flat_map key_steps l2) (flat_map key_steps l1))
      by (apply same_keys_flat_map; intros k; by rewrite H).
    rewrite (same_elements_nonempty (flat_map key_steps l2) (flat_map key_steps l1))
      by (apply same_keys_flat_map; intros k; by rewrite H).
    rewrite (same_elements_nonempty (flat_map key_osteps l2) (flat_map key_osteps l1))
      by (apply same_keys_flat_map; intros k; by rewrite H).
    done.
  - intros s. unfold object_target.
    apply same_elements_member, same_keys_flat_map. intros k; by rewrite H.
Qed.

Lemma invalidation_is_order_independent_witness :
  fst (invalidate_state_by_config_options
         ["skirts"; "nozzle_diameter"] example_print)
  = fst (invalidate_state_by_config_options
           ["nozzle_diameter"; "skirts"; "nozzle_diameter"] example_print).
Proof.
  refine (proj1 (invalidation_is_order_independent _ _ example_print _)).
  intros k. rewrite !elem_of_cons, !elem_of_nil. tauto.
Defined.

(** C9.  For the empty batch [invalidate_state_by_config_options] returns
    false and leaves the job, with all its statuses and objects, as it
    was. *)
Theorem empty_batch_changes_nothing (p : Print) :
  invalidate_state_by_config_options [] p = (false, p).
Proof. reflexivity. Qed.

(** C4.  [Print::is_step_done] of an object step is true exactly when the
    job has an object and every object reports the step Done; for a job
    without objects it is false. *)
Theorem is_step_done_iff (step : PrintObjectStep) (p : Print) :
  (is_step_done step p = true <->
   m_objects p <> [] /\
   forall object, object ∈ m_objects p -> po_state object step = Done) /\
  (m_objects p = [] -> is_step_done step p = false).
Proof.
  unfold is_step_done. split.
  - destruct (m_objects p) as [|o os] eqn:E.
    + split; [done|]. by intros [H _].
    + rewrite forallb_forall. unfold PrintStateOps.is_done_unguarded. split.
      * intros H. split; [done|]. intros object Ho.
        apply list_elem_of_In, H in Ho. by apply bool_decide_eq_true in Ho.
      * intros [_ H] object Ho. apply bool_decide_eq_true, H.
        by apply list_elem_of_In.
  - by intros ->.
Qed.

Lemma job_target_export opt_keys objects s :
  job_target opt_keys objects s = true ->
  job_target opt_keys objects psGCodeExport = true.
Proof.
  unfold job_target. intros H.
  destruct (existsb key_unknown opt_keys); [done|]. simpl in *.
  apply orb_true_iff in H. destruct H as [H|H].
  - assert (nonempty (flat_map key_steps opt_keys) = true) as ->.
    { apply nonempty_elem_of. exists s. by apply bool_decide_eq_true in H. }
    unfold is_step. simpl. by rewrite orb_true_r.
  - apply andb_true_iff in H. destruct H as [_ ->].
    unfold is_step. simpl. by rewrite orb_true_r.
Qed.

Lemma batch_cascade opt_keys p s :
  let p' := snd (invalidate_state_by_config_options opt_keys p) in
  m_state p' s = Invalidated ->
  m_state p s = Invalidated \/ m_state p' psGCodeExport = Invalidated.
Proof.
  intros p'.
  pose proof (invalidate_state_by_config_options_stage opt_keys p) as [H _ _ _].
  fold p' in H. rewrite (H s), (H psGCodeExport).
  destruct (job_target opt_keys (m_objects p) s) eqn:E.
  - rewrite (job_target_export _ _ _ E). by right.
  - by left.
Qed.

Lemma batch_monotone opt_keys p s :
  m_state p s = Invalidated ->
  m_state (snd (invalidate_state_by_config_options opt_keys p)) s = Invalidated.
Proof.
  intros Hs.
  pose proof (invalidate_state_by_config_options_stage opt_keys p) as [H _ _ _].
  rewrite H. by destruct (job_target _ _ _).
Qed.

Lemma apply_batches_monotone batches p s :
  m_state p s = Invalidated -> m_state (apply_batches batches p) s = Invalidated.
Proof.
  unfold apply_batches. revert p.
  induction batches as [|b bs IH]; intros p Hs; cbn [fold_left]; [done|].
  by apply IH, batch_monotone.
Qed.

Lemma apply_batches_cascade batches p s :
  m_state (apply_batches batches p) s = Invalidated ->
  m_state p s = Invalidated
  \/ m_state (apply_batches batches p) psGCodeExport = Invalidated.
Proof.
  unfold apply_batches. revert p.
  induction batches as [|b bs IH]; intros p Hs; cbn [fold_left] in *; [by left|].
  destruct (IH _ Hs) as [H|H]; [|by right].
  destruct (batch_cascade b p s H) as [H'|H']; [by left|right].
  by apply (apply_batches_monotone bs).
Qed.

Lemma invalidate_step_export step p :
  m_state (snd (invalidate_step step p)) psGCodeExport = Invalidated.
Proof.
  pose proof (invalidate_step_stage step false p) as [H _ _ _].
  rewrite H. unfold is_step. simpl. by rewrite orb_true_r.
Qed.

Lemma invalidate_step_self step p :
  m_state (snd (invalidate_step step p)) step = Invalidated.
Proof.
  pose proof (invalidate_step_stage step false p) as [H _ _ _].
  rewrite H. unfold is_step. by rewrite bool_decide_eq_true_2.
Qed.

(** C1.  After any sequence of batches of keys, invalidating a step of
    the job other than the export step leaves that step and the export step
    Invalidated; and whenever such a step is Invalidated after the batches
    without having been so before, the export step is Invalidated too. *)
Theorem export_cascade (batches : list (list string)) (p : Print)
    (step : PrintStep) :
  step <> psGCodeExport ->
  let p' := apply_batches batches p in
  m_state (snd (invalidate_step step p')) step = Invalidated /\
  m_state (snd (invalidate_step step p')) psGCodeExport = Invalidated /\
  (m_state p' step = Invalidated ->
   m_state p step = Invalidated \/ m_state p' psGCodeExport = Invalidated).
Proof.
  intros _ p'. split; [apply invalidate_step_self|].
  split; [apply invalidate_step_export|]. apply apply_batches_cascade.
Qed.

Lemma export_cascade_witness :
  m_state (apply_batches [["skirts"]; ["bed_temperature"]] example_print)
    psSkirtBrim = Invalidated /\
  m_state (apply_batches [["skirts"]; ["bed_temperature"]] example_print)
    psGCodeExport = Invalidated.
Proof.
  pose proof (export_cascade [["skirts"]; ["bed_temperature"]] example_print
                psSkirtBrim ltac:(discriminate)) as (_ & _ & H).
  assert (m_state (apply_batches [["skirts"]; ["bed_temperature"]] example_print)
            psSkirtBrim = Invalidated) as E by (vm_compute; reflexivity).
  split; [exact E|]. destruct (H E) as [H'|H']; [discriminate H'|exact H'].
Defined.

(** An unrecognised key in the batch: every step of the job is
    Invalidated. *)
Lemma unknown_key_invalidates_job_steps opt_keys p k s :
  k ∈ opt_keys -> key_unknown k = true ->
  m_state (snd (invalidate_state_by_config_options opt_keys p)) s = Invalidated.
Proof.
  intros Hk Hu.
  pose proof (invalidate_state_by_config_options_stage opt_keys p) as [H _ _ _].
  rewrite H. unfold job_target.
  assert (existsb key_unknown opt_keys = true) as ->; [|done].
  apply existsb_exists. exists k. split; [by apply list_elem_of_In|done].
Qed.

(** A batch of unrecognised keys only: the objects are not touched. *)
Lemma unknown_keys_leave_objects opt_keys p :
  (forall k, k ∈ opt_keys -> key_unknown k = true) ->
  m_objects (snd (invalidate_state_by_config_options opt_keys p)) = m_objects p.
Proof.
  intros Hu. destruct opt_keys as [|k0 ks]; [done|].
  unfold invalidate_state_by_config_options. cbv beta iota zeta.
  pose proof (fold_classify_key (k0 :: ks)
    {| steps := []; osteps := []; invalidated := false; print := p |}) as H.
  cbv zeta in H. destruct H as (H1 & H2 & _).
  assert (forall B (f : string -> list B),
            (forall k, key_unknown k = true -> f k = []) ->
            flat_map f (k0 :: ks) = []) as Hnil.
  { intros B f Hf. apply flat_map_nil. intros k Hk. by apply Hf, Hu. }
  rewrite H1, H2. rewrite !Hnil.
  - cbn [steps osteps app].
    change (sort_remove_duplicates PrintObjectStep_index [])
      with (@nil PrintObjectStep).
    change (sort_remove_duplicates PrintStep_index []) with (@nil PrintStep).
    exact (fold_classify_key_objects (k0 :: ks) _).
  - intros k. unfold key_unknown, key_steps, key_osteps.
    destruct (classify k) as [[ss os]|]; [discriminate|reflexivity].
  - intros k. unfold key_unknown, key_steps, key_osteps.
    destruct (classify k) as [[ss os]|]; [discriminate|reflexivity].
Qed.

(** C2.  The code at a batch with one unrecognised key: every step of the
    job is invalidated and the flag is raised, but every step of the object
    stays Done. *)
Theorem unknown_key_keeps_object_steps :
  let r := invalidate_state_by_config_options ["machine_limits_usage"]
             example_print in
  fst r = true /\
  map (m_state (snd r)) all_PrintSteps
    = [Invalidated; Invalidated; Invalidated; Invalidated] /\
  map (fun o => map (po_state o) all_PrintObjectSteps) (m_objects (snd r))
    = [[Done; Done; Done; Done; Done]].
Proof. vm_compute. repeat split; reflexivity. Qed.


(** *** Rounding to a binary format *)

Local Open Scope Q_scope.

Lemma two_ne_0 : ~ 2 == 0.
Proof. discriminate. Qed.

Lemma pow2_pos (e : Z) : 0 < 2 ^ e.
Proof. by apply Qpower_0_lt. Qed.

Lemma pow2_le (e1 e2 : Z) : (e1 <= e2)%Z -> 2 ^ e1 <= 2 ^ e2.
Proof. intros H. by apply Qpower_le_compat_l. Qed.

Lemma pow2_lt (e1 e2 : Z) : (e1 < e2)%Z -> 2 ^ e1 < 2 ^ e2.
Proof. intros H. by apply Qpower_lt_compat_l. Qed.

Lemma pow2_lt_inv (e1 e2 : Z) : 2 ^ e1 < 2 ^ e2 -> (e1 < e2)%Z.
Proof. intros H. by apply (Qpower_lt_compat_l_inv 2). Qed.

Lemma pow2_inject (n : Z) : (0 <= n)%Z -> 2 ^ n == inject_Z (2 ^ n).
Proof. intros H. by rewrite Zpower_Qpower. Qed.

Lemma pow2_S (e : Z) : 2 ^ (e + 1) == 2 * 2 ^ e.
Proof. rewrite Qpower_plus by apply two_ne_0. rewrite Qpower_1_r. ring. Qed.

Lemma binade_spec (a : Q) : 0 < a -> 2 ^ binade a <= a /\ a < 2 ^ (binade a + 1).
Proof.
  intros Ha. destruct a as [n d]. unfold binade. cbn [Qnum Qden].
  assert (Hn : (0 < n)%Z).
  { unfold Qlt in Ha. cbn in Ha. lia. }
  set (ln := Z.log2 n). set (ld := Z.log2 (Z.pos d)).
  destruct (Z.log2_spec n Hn) as [Hn1 Hn2]. fold ln in Hn1, Hn2.
  destruct (Z.log2_spec (Z.pos d) ltac:(lia)) as [Hd1 Hd2].
  fold ld in Hd1, Hd2.
  assert (Hln : (0 <= ln)%Z) by apply Z.log2_nonneg.
  assert (Hld : (0 <= ld)%Z) by apply Z.log2_nonneg.
  assert (Hq : n # d == inject_Z n / inject_Z (Z.pos d)) by apply Qmake_Qdiv.
  assert (Hdpos : 0 < inject_Z (Z.pos d)).
  { change 0 with (inject_Z 0). rewrite <- Zlt_Qlt. lia. }
  (* n # d < 2 ^ (ln - ld + 1) *)
  assert (Hup : n # d < 2 ^ (ln - ld + 1)).
  { rewrite Hq. apply Qlt_shift_div_r; [done|].
    apply Qlt_le_trans with (2 ^ (ln - ld + 1) * 2 ^ ld).
    - rewrite <- Qpower_plus by apply two_ne_0.
      replace (ln - ld + 1 + ld)%Z with (ln + 1)%Z by lia.
      rewrite pow2_inject by lia. rewrite <- Zlt_Qlt.
      replace (ln + 1)%Z with (Z.succ ln) by lia. done.
    - apply Qmult_le_l; [apply pow2_pos|].
      rewrite pow2_inject by lia. by rewrite <- Zle_Qle. }
  (* 2 ^ (ln - ld - 1) < n # d *)
  assert (Hlow : 2 ^ (ln - ld - 1) <= n # d).
  { rewrite Hq. apply Qle_shift_div_l; [done|].
    apply Qle_trans with (2 ^ (ln - ld - 1) * 2 ^ (ld + 1)).
    - apply Qmult_le_l; [apply pow2_pos|].
      rewrite pow2_inject by lia. rewrite <- Zle_Qle.
      replace (ld + 1)%Z with (Z.succ ld) by lia. lia.
    - rewrite <- Qpower_plus by apply two_ne_0.
      replace (ln - ld - 1 + (ld + 1))%Z with ln by lia.
      rewrite pow2_inject by lia. by rewrite <- Zle_Qle. }
  destruct (Qle_bool (2 ^ (ln - ld)) (n # d)) eqn:Hb.
  - apply Qle_bool_iff in Hb. by split.
  - split; [exact Hlow|].
    replace (ln - ld - 1 + 1)%Z with (ln - ld)%Z by lia.
    apply Qnot_le_lt. intros Hle. apply Qle_bool_iff in Hle. congruence.
Qed.

Lemma binade_unique (a : Q) (k : Z) :
  0 < a -> 2 ^ k <= a -> a < 2 ^ (k + 1) -> binade a = k.
Proof.
  intros Ha H1 H2. destruct (binade_spec a Ha) as [B1 B2].
  assert (binade a < k + 1)%Z.
  { apply pow2_lt_inv. by eapply Qle_lt_trans. }
  assert (k < binade a + 1)%Z.
  { apply pow2_lt_inv. by eapply Qle_lt_trans. }
  lia.
Qed.

Lemma binade_mono (a b : Q) : 0 < a -> a <= b -> (binade a <= binade b)%Z.
Proof.
  intros Ha Hab. assert (Hb : 0 < b) by by eapply Qlt_le_trans.
  destruct (binade_spec a Ha) as [A1 _], (binade_spec b Hb) as [_ B2].
  assert (binade a < binade b + 1)%Z; [|lia].
  apply pow2_lt_inv. eapply Qle_lt_trans; [exact A1|].
  by eapply Qle_lt_trans.
Qed.

Lemma round_half_even_bounds (v : Q) :
  (Qfloor v <= round_half_even v <= Qfloor v + 1)%Z.
Proof.
  unfold round_half_even. destruct (_ ?= _); [destruct (Z.even _)|..]; lia.
Qed.

Lemma round_half_even_inject (n : Z) : round_half_even (inject_Z n) = n.
Proof.
  unfold round_half_even. rewrite Qfloor_Z.
  assert (Qcompare (inject_Z n - inject_Z n) (1 # 2) = Lt) as ->; [|done].
  apply (proj1 (Qlt_alt _ _)). unfold Qlt. cbn. lia.
Qed.

Lemma round_half_even_mono (u v : Q) :
  u <= v -> (round_half_even u <= round_half_even v)%Z.
Proof.
  intros Huv. pose proof (Qfloor_resp_le _ _ Huv) as Hf.
  pose proof (round_half_even_bounds u) as Bu.
  pose proof (round_half_even_bounds v) as Bv.
  destruct (decide (Qfloor u = Qfloor v)) as [Heq|Hne]; [|lia].
  unfold round_half_even in *. rewrite <- Heq in *. clear Bu Bv Hf.
  set (f := Qfloor u) in *.
  destruct (u - inject_Z f ?= 1 # 2) eqn:Cu;
    destruct (v - inject_Z f ?= 1 # 2) eqn:Cv;
    try (destruct (Z.even f)); try lia; exfalso;
    repeat match goal with
           | H : (_ ?= _) = Eq |- _ => apply Qeq_alt in H
           | H : (_ ?= _) = Lt |- _ => apply Qlt_alt in H
           | H : (_ ?= _) = Gt |- _ => apply Qgt_alt in H
           end; lra.
Qed.

Lemma round_half_even_comp (u v : Q) :
  u == v -> round_half_even u = round_half_even v.
Proof.
  intros H. apply Z.le_antisymm; apply round_half_even_mono; rewrite H;
    apply Qle_refl.
Qed.

Lemma round_half_even_le (v : Q) (n : Z) :
  v <= inject_Z n -> (round_half_even v <= n)%Z.
Proof.
  intros H. rewrite <- (round_half_even_inject n).
  by apply round_half_even_mono.
Qed.

Lemma round_half_even_ge (v : Q) (n : Z) :
  inject_Z n <= v -> (n <= round_half_even v)%Z.
Proof.
  intros H. rewrite <- (round_half_even_inject n).
  by apply round_half_even_mono.
Qed.

Section Format.
(** A format of [prec] binary digits whose normal numbers start at
    [2 ^ emin]. *)
Variable prec emin : Z.
Hypothesis prec_pos : (1 <= prec)%Z.

Let exponent (a : Q) : Z := Z.max (binade a) emin.
Let quantum (a : Q) : Q := 2 ^ (exponent a - prec + 1).

Lemma round_magnitude_eq (a : Q) :
  round_magnitude prec emin a
  = inject_Z (round_half_even (a / quantum a)) * quantum a.
Proof. reflexivity. Qed.

Lemma quantum_pos (a : Q) : 0 < quantum a.
Proof. apply pow2_pos. Qed.

Lemma quantum_scale (a : Q) (k : Z) :
  2 ^ (exponent a + k) == inject_Z (2 ^ (prec - 1 + k)) * quantum a
  \/ (prec - 1 + k < 0)%Z.
Proof.
  destruct (Z.lt_ge_cases (prec - 1 + k) 0) as [?|Hk]; [by right|left].
  unfold quantum. rewrite <- pow2_inject by done.
  rewrite <- Qpower_plus by apply two_ne_0. f_equiv. lia.
Qed.

Lemma round_magnitude_nonneg (a : Q) : 0 < a -> 0 <= round_magnitude prec emin a.
Proof.
  intros Ha. rewrite round_magnitude_eq.
  apply Qmult_le_0_compat; [|apply Qlt_le_weak, quantum_pos].
  change 0 with (inject_Z 0). rewrite <- Zle_Qle.
  apply round_half_even_ge.
  apply Qle_shift_div_l; [apply quantum_pos|].
  change (inject_Z 0) with 0. rewrite Qmult_0_l. by apply Qlt_le_weak.
Qed.

(** The rounded value does not leave the binade of the value. *)
Lemma round_magnitude_upper (a : Q) :
  0 < a -> round_magnitude prec emin a <= 2 ^ (exponent a + 1).
Proof.
  intros Ha. rewrite round_magnitude_eq.
  destruct (quantum_scale a 1) as [->|]; [|lia].
  apply Qmult_le_r; [apply quantum_pos|]. rewrite <- Zle_Qle.
  apply round_half_even_le. apply Qle_shift_div_r; [apply quantum_pos|].
  destruct (quantum_scale a 1) as [<-|]; [|lia].
  destruct (binade_spec a Ha) as [_ H]. apply Qlt_le_weak.
  eapply Qlt_le_trans; [exact H|]. apply pow2_le. unfold exponent. lia.
Qed.

Lemma round_magnitude_lower (a : Q) :
  0 < a -> (emin <= binade a)%Z -> 2 ^ exponent a <= round_magnitude prec emin a.
Proof.
  intros Ha He. rewrite round_magnitude_eq.
  destruct (quantum_scale a 0) as [H|]; [|lia].
  rewrite Z.add_0_r in H. rewrite H.
  apply Qmult_le_r; [apply quantum_pos|]. rewrite <- Zle_Qle.
  apply round_half_even_ge. apply Qle_shift_div_l; [apply quantum_pos|].
  rewrite <- H. destruct (binade_spec a Ha) as [Hb _].
  unfold exponent. by rewrite Z.max_l by lia.
Qed.

Lemma round_magnitude_mono (a b : Q) :
  0 < a -> a <= b -> round_magnitude prec emin a <= round_magnitude prec emin b.
Proof.
  intros Ha Hab. assert (Hb : 0 < b) by by eapply Qlt_le_trans.
  pose proof (binade_mono a b Ha Hab) as Hbin.
  destruct (decide (exponent a = exponent b)) as [He|He].
  - rewrite !round_magnitude_eq. unfold quantum. rewrite He.
    apply Qmult_le_r; [apply pow2_pos|]. rewrite <- Zle_Qle.
    apply round_half_even_mono. apply Qmult_le_r; [|done].
    apply Qinv_lt_0_compat, pow2_pos.
  - assert (exponent a < exponent b)%Z by (unfold exponent in *; lia).
    eapply Qle_trans; [by apply round_magnitude_upper|].
    eapply Qle_trans; [|apply round_magnitude_lower; [done|]].
    + apply pow2_le. lia.
    + unfold exponent in *. lia.
Qed.

Lemma round_magnitude_comp (a b : Q) :
  0 < a -> a == b -> round_magnitude prec emin a == round_magnitude prec emin b.
Proof.
  intros Ha Hab. assert (Hb : 0 < b) by by rewrite <- Hab.
  apply Qle_antisym; apply round_magnitude_mono; try done; rewrite Hab;
    apply Qle_refl.
Qed.

(** A number of the format is rounded to itself. *)
Lemma representable_fixed (m g : Z) :
  (1 <= m < 2 ^ prec)%Z -> (emin - prec + 1 <= g)%Z ->
  round_magnitude prec emin (inject_Z m * 2 ^ g) == inject_Z m * 2 ^ g.
Proof.
  intros Hm Hg. set (v := inject_Z m * 2 ^ g).
  assert (Hv : 0 < v).
  { apply Qmult_lt_0_compat; [|apply pow2_pos].
    change 0 with (inject_Z 0). rewrite <- Zlt_Qlt. lia. }
  assert (Hbin : (binade v < g + prec)%Z).
  { apply pow2_lt_inv. destruct (binade_spec v Hv) as [H _].
    eapply Qle_lt_trans; [exact H|]. unfold v.
    rewrite Qpower_plus by apply two_ne_0. rewrite (Qmult_comm (2 ^ g)).
    apply Qmult_lt_r; [apply pow2_pos|].
    rewrite pow2_inject by lia. rewrite <- Zlt_Qlt. lia. }
  rewrite round_magnitude_eq. unfold quantum.
  set (E := (exponent v - prec + 1)%Z).
  assert (Hk : (0 <= g - E)%Z) by (unfold E, exponent; lia).
  assert (Hsplit : v == inject_Z (m * 2 ^ (g - E)) * 2 ^ E).
  { rewrite inject_Z_mult, <- pow2_inject by done. unfold v at 1.
    rewrite <- Qmult_assoc, <- Qpower_plus by apply two_ne_0.
    replace (g - E + E)%Z with g by lia. reflexivity. }
  assert (Hdiv : v / 2 ^ E == inject_Z (m * 2 ^ (g - E))).
  { rewrite Hsplit at 1. apply Qdiv_mult_l, Qpower_not_0, two_ne_0. }
  rewrite (round_half_even_comp _ _ Hdiv), round_half_even_inject.
  symmetry. exact Hsplit.
Qed.

Lemma round_magnitude_fixed (a : Q) :
  0 < a -> 0 < round_magnitude prec emin a ->
  round_magnitude prec emin (round_magnitude prec emin a)
  == round_magnitude prec emin a.
Proof.
  intros Ha Hpos. pose proof (round_magnitude_upper a Ha) as Hup.
  rewrite (round_magnitude_eq a) in Hpos, Hup |- *.
  set (m := round_half_even (a / quantum a)) in *.
  assert (Hm1 : (1 <= m)%Z).
  { assert (0 < inject_Z m); [|change 0 with (inject_Z 0) in *;
                                rewrite <- Zlt_Qlt in *; lia].
    destruct (Qlt_le_dec 0 (inject_Z m)) as [|Hle]; [done|exfalso].
    pose proof (quantum_pos a). nra. }
  assert (Hm2 : (m <= 2 ^ prec)%Z).
  { destruct (quantum_scale a 1) as [H|]; [|lia]. rewrite H in Hup.
    replace (prec - 1 + 1)%Z with prec in Hup by lia.
    apply Qmult_le_r in Hup; [|apply quantum_pos]. by rewrite <- Zle_Qle in Hup. }
  unfold quantum in *.
  destruct (decide (m = 2 ^ prec)%Z) as [Heq|Hne].
  - assert (Hy : inject_Z m * 2 ^ (exponent a - prec + 1)
                 == inject_Z 1 * 2 ^ (exponent a + 1)).
    { rewrite Heq, <- pow2_inject by lia.
      rewrite <- Qpower_plus by apply two_ne_0.
      change (inject_Z 1) with 1. rewrite Qmult_1_l. f_equiv. lia. }
    eapply Qeq_trans; [apply (round_magnitude_comp _ _ Hpos Hy)|]. rewrite Hy.
    apply representable_fixed.
    + split; [lia|]. apply Z.pow_gt_1; lia.
    + unfold exponent. lia.
  - apply representable_fixed; [lia|]. unfold exponent. lia.
Qed.

Lemma round_to_nonneg (v : Q) : 0 <= v -> 0 <= round_to prec emin v.
Proof.
  intros Hv. unfold round_to. destruct (v ?= 0) eqn:C.
  - apply Qle_refl.
  - apply Qlt_alt in C. lra.
  - apply Qgt_alt in C. by apply round_magnitude_nonneg.
Qed.

Lemma round_to_nonpos (v : Q) : v <= 0 -> round_to prec emin v <= 0.
Proof.
  intros Hv. unfold round_to. destruct (v ?= 0) eqn:C.
  - apply Qle_refl.
  - apply Qlt_alt in C.
    pose proof (round_magnitude_nonneg (- v) ltac:(lra)). lra.
  - apply Qgt_alt in C. lra.
Qed.

Lemma round_to_mono (u v : Q) :
  u <= v -> round_to prec emin u <= round_to prec emin v.
Proof.
  intros Huv. destruct (Qlt_le_dec 0 u) as [Hu|Hu].
  - unfold round_to.
    assert ((u ?= 0) = Gt) as -> by (apply (proj1 (Qgt_alt _ _)); lra).
    assert ((v ?= 0) = Gt) as -> by (apply (proj1 (Qgt_alt _ _)); lra).
    by apply round_magnitude_mono.
  - destruct (Qlt_le_dec v 0) as [Hv|Hv].
    + unfold round_to.
      assert ((u ?= 0) = Lt) as -> by (apply (proj1 (Qlt_alt _ _)); lra).
      assert ((v ?= 0) = Lt) as -> by (apply (proj1 (Qlt_alt _ _)); lra).
      apply Qopp_le_compat. apply round_magnitude_mono; lra.
    + eapply Qle_trans; [by apply round_to_nonpos|by apply round_to_nonneg].
Qed.

Lemma round_to_comp (u v : Q) :
  u == v -> round_to prec emin u == round_to prec emin v.
Proof.
  intros H. apply Qle_antisym; apply round_to_mono; rewrite H; apply Qle_refl.
Qed.

Lemma round_to_fixed (v : Q) :
  round_to prec emin (round_to prec emin v) == round_to prec emin v.
Proof.
  unfold round_to at 2 3. destruct (v ?= 0) eqn:C.
  - reflexivity.
  - apply Qlt_alt in C. set (y := round_magnitude prec emin (- v)).
    pose proof (round_magnitude_nonneg (- v) ltac:(lra)) as Hy. fold y in Hy.
    destruct (Qlt_le_dec 0 y) as [Hpos|Hzero].
    + unfold round_to.
      assert ((- y ?= 0) = Lt) as -> by (apply (proj1 (Qlt_alt _ _)); lra).
      apply Qopp_comp.
      eapply Qeq_trans; [apply (round_magnitude_comp (- - y) y); [lra|ring]|].
      apply round_magnitude_fixed; [lra|done].
    + assert (H0 : - y == 0) by lra.
      rewrite (round_to_comp _ _ H0). rewrite H0. reflexivity.
  - apply Qgt_alt in C. set (y := round_magnitude prec emin v).
    pose proof (round_magnitude_nonneg v ltac:(lra)) as Hy. fold y in Hy.
    destruct (Qlt_le_dec 0 y) as [Hpos|Hzero].
    + unfold round_to.
      assert ((y ?= 0) = Gt) as -> by (apply (proj1 (Qgt_alt _ _)); lra).
      apply round_magnitude_fixed; [lra|done].
    + assert (H0 : y == 0) by lra.
      rewrite (round_to_comp _ _ H0). rewrite H0. reflexivity.
Qed.

(** A number of the format is below a rounded value exactly when it is below
    the value rounded... the part used here: rounding keeps a value above
    the numbers of the format below it. *)
Lemma round_to_ge (x v : Q) :
  round_to prec emin x <= v -> round_to prec emin x <= round_to prec emin v.
Proof.
  intros H. eapply Qle_trans; [|apply round_to_mono, H].
  rewrite round_to_fixed. apply Qle_refl.
Qed.

Lemma round_to_le (x v : Q) :
  v <= round_to prec emin x -> round_to prec emin v <= round_to prec emin x.
Proof.
  intros H. eapply Qle_trans; [apply round_to_mono, H|].
  rewrite round_to_fixed. apply Qle_refl.
Qed.
End Format.

(** The two formats of the code. *)
Lemma to_float_mono (u v : Q) : u <= v -> to_float u <= to_float v.
Proof. by apply round_to_mono. Qed.

Lemma to_float_fixed (v : Q) : to_float (to_float v) == to_float v.
Proof. by apply round_to_fixed. Qed.

Lemma to_double_mono (u v : Q) : u <= v -> to_double u <= to_double v.
Proof. by apply round_to_mono. Qed.

Lemma to_double_comp (u v : Q) : u == v -> to_double u == to_double v.
Proof. by apply round_to_comp. Qed.

Local Close Scope Q_scope.

Local Open Scope Q_scope.

(** *** Extrusion widths *)

Section ExtrusionWidth.
Variables (max_nozzle_diameter : Q) (cfg : ConfigBase) (opt_key : string)
  (layer_height : Q).
Let width := get_abs_value cfg opt_key layer_height.
Let bound := to_double (max_nozzle_diameter * 3).
Let result :=
  validate_extrusion_width max_nozzle_diameter cfg opt_key layer_height.

Lemma width_zero_is_auto : width == 0 -> result = None.
Proof.
  intros H. unfold result, validate_extrusion_width. fold width.
  apply Qeq_bool_iff in H. by rewrite H.
Qed.

Lemma width_too_low :
  ~ width == 0 -> width <= layer_height ->
  result = Some (TooLowToBePrintable opt_key width layer_height).
Proof.
  intros H0 Hle. unfold result, validate_extrusion_width. fold width.
  destruct (Qeq_bool width 0) eqn:E; [by apply Qeq_bool_iff in E|].
  apply Qle_bool_iff in Hle. by rewrite Hle.
Qed.

Lemma width_excessive :
  ~ width == 0 -> layer_height < width -> bound <= width ->
  result = Some (Excessive opt_key width max_nozzle_diameter).
Proof.
  intros H0 Hlo Hhi. unfold result, validate_extrusion_width. fold width.
  destruct (Qeq_bool width 0) eqn:E; [by apply Qeq_bool_iff in E|].
  destruct (Qle_bool width layer_height) eqn:E1.
  { apply Qle_bool_iff in E1. lra. }
  apply Qle_bool_iff in Hhi. unfold bound in Hhi. by rewrite Hhi.
Qed.

(** A [double] above the exact product is not below the rounded one. *)
Lemma width_above_three_nozzles :
  ~ width == 0 -> to_double width == width ->
  max_nozzle_diameter * 3 < width -> is_Some result.
Proof.
  intros H0 Hd Hgt.
  assert (Hb : bound <= width).
  { rewrite <- Hd. apply to_double_mono. by apply Qlt_le_weak. }
  destruct (Qlt_le_dec layer_height width) as [Hlo|Hlo].
  - rewrite width_excessive by done. by eexists.
  - rewrite width_too_low by done. by eexists.
Qed.

Lemma width_in_between :
  ~ width == 0 -> layer_height < width -> width < bound -> result = None.
Proof.
  intros H0 Hlo Hhi. unfold result, validate_extrusion_width. fold width.
  destruct (Qeq_bool width 0) eqn:E; [by apply Qeq_bool_iff in E|].
  destruct (Qle_bool width layer_height) eqn:E1.
  { apply Qle_bool_iff in E1. lra. }
  destruct (Qle_bool (to_double (max_nozzle_diameter * 3)) width) eqn:E2;
    [|done].
  apply Qle_bool_iff in E2. unfold bound in Hhi. lra.
Qed.
End ExtrusionWidth.

Lemma first_error_is_Some {A E} (check : A -> option E) (l : list A) (a : A) :
  a ∈ l -> is_Some (check a) -> is_Some (first_error check l).
Proof.
  induction l as [|b l IH]; intros Ha Hc; [by apply elem_of_nil in Ha|].
  simpl. destruct (check b) eqn:Hb; [by eexists|].
  apply elem_of_cons in Ha. destruct Ha as [->|Ha]; [|by apply IH].
  rewrite Hb in Hc. by destruct Hc.
Qed.

Lemma first_error_None {A E} (check : A -> option E) (l : list A) :
  first_error check l = None <-> forall a, a ∈ l -> check a = None.
Proof.
  induction l as [|b l IH]; simpl.
  - split; [|done]. intros _ a Ha. by apply elem_of_nil in Ha.
  - destruct (check b) eqn:Hb.
    + split; [done|]. intros H. rewrite <- Hb. apply H. constructor.
    + rewrite IH. split.
      * intros H a Ha. apply elem_of_cons in Ha. destruct Ha as [->|Ha]; auto.
      * intros H a Ha. apply H. by constructor.
Qed.

Lemma region_error_reaches_validate max_nozzle_diameter object region opt_key :
  region ∈ all_regions object -> opt_key ∈ region_width_keys ->
  is_Some (validate_extrusion_width max_nozzle_diameter (region_config region)
             opt_key (layer_height (config object))) ->
  is_Some (validate_extrusion_widths max_nozzle_diameter object).
Proof.
  intros Hr Hk He. unfold validate_extrusion_widths.
  destruct (validate_extrusion_width _ (object_options _) "extrusion_width" _);
    [by eexists|].
  match goal with |- context [if ?c then _ else _] => destruct c end.
  - destruct (validate_extrusion_width _ (object_options _)
                "support_material_extrusion_width" _); [by eexists|].
    apply (first_error_is_Some _ _ opt_key Hk).
    by apply (first_error_is_Some _ _ region Hr).
  - apply (first_error_is_Some _ _ opt_key Hk).
    by apply (first_error_is_Some _ _ region Hr).
Qed.

(** C6.  For a region of an object of the job and one of the region's
    extrusion-width options, with the layer height of the object and the
    largest nozzle diameter in use, the bound being the product of that
    diameter and 3 as the [double] the code computes: a width of zero is
    accepted; a nonzero width not above the layer height makes the check,
    and with it the validation of the object's widths, return a message; so
    does a width above the layer height which is at least the bound, with
    the message of an excessive width; so does, in particular, every
    nonzero width which is a [double] and exceeds three times the largest
    nozzle diameter; a nonzero width above the layer height and strictly
    below the bound passes the check. *)
Theorem region_extrusion_width_sanity (p : Print) (extruders : list nat)
    (object : PrintObject) (region : PrintRegion) (opt_key : string) :
  object ∈ m_objects p ->
  region ∈ all_regions object -> opt_key ∈ region_width_keys ->
  let max_nozzle_diameter := used_max_nozzle_diameter (m_config p) extruders in
  let bound := to_double (max_nozzle_diameter * 3) in
  let layer_height := layer_height (config object) in
  let width := get_abs_value (region_config region) opt_key layer_height in
  let check :=
    validate_extrusion_width max_nozzle_diameter (region_config region)
      opt_key layer_height in
  (width == 0 -> check = None) /\
  (~ width == 0 -> width <= layer_height ->
   check = Some (TooLowToBePrintable opt_key width layer_height) /\
   is_Some (validate_extrusion_widths max_nozzle_diameter object)) /\
  (~ width == 0 -> layer_height < width -> bound <= width ->
   check = Some (Excessive opt_key width max_nozzle_diameter) /\
   is_Some (validate_extrusion_widths max_nozzle_diameter object)) /\
  (~ width == 0 -> to_double width == width ->
   max_nozzle_diameter * 3 < width ->
   is_Some check /\
   is_Some (validate_extrusion_widths max_nozzle_diameter object)) /\
  (~ width == 0 -> layer_height < width -> width < bound -> check = None).
Proof.
  intros _ Hr Hk mx bound lh width check.
  split; [apply width_zero_is_auto|]. split; [|split; [|split]].
  - intros H0 Hle.
    pose proof (width_too_low mx _ opt_key lh H0 Hle) as E.
    split; [exact E|].
    apply (region_error_reaches_validate _ _ region opt_key Hr Hk).
    fold lh. rewrite E. by eexists.
  - intros H0 Hlo Hhi.
    pose proof (width_excessive mx _ opt_key lh H0 Hlo Hhi) as E.
    split; [exact E|].
    apply (region_error_reaches_validate _ _ region opt_key Hr Hk).
    fold lh. rewrite E. by eexists.
  - intros H0 Hd Hgt.
    pose proof (width_above_three_nozzles mx _ opt_key lh H0 Hd Hgt) as E.
    split; [exact E|].
    by apply (region_error_reaches_validate _ _ region opt_key Hr Hk).
  - apply width_in_between.
Qed.

Lemma region_extrusion_width_sanity_witness :
  validate_extrusion_width
    (used_max_nozzle_diameter example_config [0; 1]%nat) example_options
    "perimeter_extrusion_width" 0.2
  = None.
Proof.
  pose proof (region_extrusion_width_sanity example_print [0; 1]%nat
                example_object {| region_config := example_options |}
                "perimeter_extrusion_width") as H.
  cbv zeta in H.
  destruct H as (_ & _ & _ & _ & H).
  - vm_compute. left.
  - vm_compute. left.
  - vm_compute. left.
  - apply H.
    + intros E. vm_compute in E. discriminate E.
    + vm_compute. reflexivity.
    + vm_compute. reflexivity.
Defined.

(** With nozzles of 0.6 the product with 3 is the [double]
    1.7999999999999998: a width of that value is not zero, above the layer
    height of 0.2 and strictly below three times the largest nozzle
    diameter, and the check returns the message of an excessive width, as
    does the validation of the widths of the object. *)
Lemma width_below_three_nozzles_is_excessive :
  let max_nozzle_diameter :=
    used_max_nozzle_diameter (m_config wide_print) [0; 1]%nat in
  let layer_height := layer_height (config wide_object) in
  let width :=
    get_abs_value (region_config wide_region) "perimeter_extrusion_width"
      layer_height in
  wide_object ∈ m_objects wide_print
  /\ wide_region ∈ all_regions wide_object
  /\ "perimeter_extrusion_width" ∈ region_width_keys
  /\ ~ width == 0 /\ to_double width == width
  /\ layer_height < width /\ width < max_nozzle_diameter * 3
  /\ validate_extrusion_width max_nozzle_diameter (region_config wide_region)
       "perimeter_extrusion_width" layer_height
     = Some (Excessive "perimeter_extrusion_width" width max_nozzle_diameter)
  /\ is_Some (validate_extrusion_widths max_nozzle_diameter wide_object).
Proof.
  cbv zeta. split; [left|]. split; [left|]. split; [left|].
  split; [intros E; vm_compute in E; discriminate E|].
  split; [vm_compute; reflexivity|].
  split; [vm_compute; reflexivity|]. split; [vm_compute; reflexivity|].
  split; [vm_compute; reflexivity|].
  vm_compute. by eexists.
Qed.

(** All widths in order: the object passes. *)
Lemma widths_pass max_nozzle_diameter object :
  (forall (c : ConfigBase) (k : string),
     validate_extrusion_width max_nozzle_diameter c k
       (layer_height (config object)) = None) ->
  validate_extrusion_widths max_nozzle_diameter object = None.
Proof.
  intros H. unfold validate_extrusion_widths. rewrite !H.
  assert (first_error _ region_width_keys = None) as ->; [|by destruct (_ || _)].
  apply first_error_None. intros k _. apply first_error_None. intros r _. apply H.
Qed.

Local Close Scope Q_scope.

(** *** Purge volumes *)

(** The [float] sum of a volume and the floor, against the floor. *)
Lemma adds_floor_bounds (c : PrintConfig) (t : PlannedToolchange) (left : Q) :
  adds_floor c t left ->
  ((0 <= left)%Q -> (float_purge_floor c t <= wipe_volume t)%Q)
  /\ ((left <= 0)%Q -> (wipe_volume t <= float_purge_floor c t)%Q).
Proof.
  unfold adds_floor, float_purge_floor. intros ->. split; intros H.
  - apply round_to_ge; [lia|]. fold (to_float (purge_floor c t)). lra.
  - apply round_to_le; [lia|]. fold (to_float (purge_floor c t)). lra.
Qed.

Section WipeTowerProofs.
Variable EPSILON : Q.
Variable make_tool_ordering : Print -> ToolOrdering.t.
Variable extract_wipe_volumes : PrintConfig -> nat -> nat -> Q.
Variable W : Type.
Variable mark_wiping_extrusions :
  W -> Print -> LayerTools.t -> nat -> nat -> Q -> Q * W.
Variable ensure_perimeters_infills_order : W -> Print -> LayerTools.t -> W.
Variable generate : PrintConfig -> list PlannedToolchange
                    -> list (list ToolChangeResult).

(** A call of [plan_toolchange] either opens a layer or asks for what
    [mark_wiping_extrusions] left, with the floor added. *)
Let planned_well (c : PrintConfig) (t : PlannedToolchange) : Prop :=
  opens_layer t
  \/ exists w p lt offered,
       adds_floor c t
         (fst (mark_wiping_extrusions w p lt (old_tool t) (new_tool t)
                 offered)).

Abbreviation plan_extruder' :=
  (plan_extruder extract_wipe_volumes W mark_wiping_extrusions).
Abbreviation plan_layers' :=
  (plan_layers extract_wipe_volumes W mark_wiping_extrusions
     ensure_perimeters_infills_order).

Lemma plan_extruder_floor p last first_layer lt s e :
  Forall (planned_well (m_config p)) (plan W s) ->
  Forall (planned_well (m_config p))
    (plan W (plan_extruder' p last first_layer lt s e)).
Proof.
  intros H. unfold plan_extruder.
  destruct (_ || _); [|done].
  match goal with
  | |- context [mark_wiping_extrusions ?w0 ?p0 ?lt0 ?a ?b ?v] =>
      pose proof (eq_refl (mark_wiping_extrusions w0 p0 lt0 a b v)) as Hm;
      destruct (mark_wiping_extrusions w0 p0 lt0 a b v) as [left w'] in Hm at 2
                                                                         |- *
  end.
  simpl. apply Forall_app. split; [done|]. constructor; [|constructor].
  right. eexists _, _, _, _. unfold adds_floor, float_purge_floor, purge_floor.
  cbn [old_tool new_tool wipe_volume]. rewrite Hm. reflexivity.
Qed.

Lemma plan_extruders_floor p last first_layer lt es s :
  Forall (planned_well (m_config p)) (plan W s) ->
  Forall (planned_well (m_config p))
    (plan W (fold_left (plan_extruder' p last first_layer lt) es s)).
Proof.
  revert s. induction es as [|e es IH]; intros s H; simpl; [done|].
  by apply IH, plan_extruder_floor.
Qed.

Lemma plan_layers_floor p last first_layer layers s :
  Forall (planned_well (m_config p)) (plan W s) ->
  Forall (planned_well (m_config p))
    (plan W (plan_layers' p last first_layer layers s)).
Proof.
  revert first_layer s.
  induction layers as [|lt rest IH]; intros first_layer s H; simpl; [done|].
  destruct (negb (LayerTools.has_wipe_tower lt)); [by apply IH|].
  match goal with
  | |- context [fold_left ?f ?es ?s0] =>
      assert (Forall (planned_well (m_config p)) (plan W (fold_left f es s0)))
        as H1
  end.
  { apply plan_extruders_floor. simpl. apply Forall_app. split; [done|].
    constructor; [|constructor]. left. split; simpl; [done|reflexivity]. }
  destruct rest as [|next rest']; [exact H1|].
  destruct (LayerTools.wipe_tower_partitions next =? 0)%nat; [exact H1|].
  by apply IH.
Qed.

Abbreviation _make_wipe_tower' :=
  (_make_wipe_tower EPSILON make_tool_ordering extract_wipe_volumes W
     mark_wiping_extrusions ensure_perimeters_infills_order generate).

Lemma make_wipe_tower_floor canceled w p p' planned :
  _make_wipe_tower' canceled w p = Returned (p', planned) ->
  Forall (planned_well (m_config p)) planned.
Proof.
  unfold _make_wipe_tower.
  destruct (negb (has_wipe_tower _)); [intros [= _ <-]; constructor|].
  destruct (negb (ToolOrdering.has_wipe_tower _)); [intros [= _ <-]; constructor|].
  destruct (insert_gap_layers _) as [layers new].
  cbn [m_objects set_m_wipe_tower_data set_m_objects].
  destruct new as [|n new], (m_objects p) as [|front others]; try done;
    (destruct canceled; [done|]);
    cbn [ToolOrdering.all_extruders ToolOrdering.layer_tools
         ToolOrdering.set_layer_tools];
    (destruct (last (ToolOrdering.all_extruders _)); [|done]);
    (destruct (last layers); [|done]); intros [= _ <-];
    match goal with
    | |- Forall _ (plan W (plan_layers _ _ _ _ ?q _ _ _ _)) =>
        apply (plan_layers_floor q); constructor
    end.
Qed.
End WipeTowerProofs.

(** C5.  Every call of [plan_toolchange] made by a run of
    [Print::_make_wipe_tower] which returns either opens a layer (same
    tool, no volume) or asks for the [float] sum of the volume which
    [mark_wiping_extrusions] left for the tower and of the minimal purge of
    the extruder it loads, converted to [float]: at least that [float]
    when the volume left is not negative, at most that [float] when
    the volume left is not positive.  So, when
    [mark_wiping_extrusions] never leaves a negative volume, every call
    which changes the tool asks for at least the minimal purge as a
    [float]. *)
Theorem purge_volume_at_least_float_floor
    (EPSILON : Q) (make_tool_ordering : Print -> ToolOrdering.t)
    (extract_wipe_volumes : PrintConfig -> nat -> nat -> Q) (W : Type)
    (mark_wiping_extrusions :
       W -> Print -> LayerTools.t -> nat -> nat -> Q -> Q * W)
    (ensure_perimeters_infills_order : W -> Print -> LayerTools.t -> W)
    (generate : PrintConfig -> list PlannedToolchange
                -> list (list ToolChangeResult))
    (canceled : bool) (w : W) (p p' : Print)
    (planned : list PlannedToolchange) (t : PlannedToolchange) :
  _make_wipe_tower EPSILON make_tool_ordering extract_wipe_volumes W
    mark_wiping_extrusions ensure_perimeters_infills_order generate
    canceled w p = Returned (p', planned) ->
  t ∈ planned ->
  let floor :=
    to_float
      (get_at (filament_minimal_purge_on_wipe_tower (m_config p))
         (new_tool t)) in
  (opens_layer t
   \/ exists w0 p0 lt offered,
        let left :=
          fst (mark_wiping_extrusions w0 p0 lt (old_tool t) (new_tool t)
                 offered) in
        (wipe_volume t == to_float (left + floor))%Q
        /\ ((0 <= left)%Q -> (floor <= wipe_volume t)%Q)
        /\ ((left <= 0)%Q -> (wipe_volume t <= floor)%Q))
  /\ ((forall w0 p0 lt a b v,
         (0 <= fst (mark_wiping_extrusions w0 p0 lt a b v))%Q) ->
      old_tool t <> new_tool t -> (floor <= wipe_volume t)%Q).
Proof.
  intros Hr Ht floor.
  pose proof (make_wipe_tower_floor EPSILON make_tool_ordering
    extract_wipe_volumes W mark_wiping_extrusions
    ensure_perimeters_infills_order generate _ _ _ _ _ Hr) as H.
  rewrite Forall_forall in H. specialize (H t Ht). cbv zeta in H.
  assert (Hcases :
    opens_layer t
    \/ exists w0 p0 lt offered,
         let left :=
           fst (mark_wiping_extrusions w0 p0 lt (old_tool t) (new_tool t)
                  offered) in
         (wipe_volume t == to_float (left + floor))%Q
         /\ ((0 <= left)%Q -> (floor <= wipe_volume t)%Q)
         /\ ((left <= 0)%Q -> (wipe_volume t <= floor)%Q)).
  { destruct H as [H|(w0 & p0 & lt & offered & H)]; [by left|right].
    exists w0, p0, lt, offered. cbv zeta. split; [exact H|].
    exact (adds_floor_bounds _ _ _ H). }
  split; [exact Hcases|]. intros Hn Hne.
  destruct Hcases as [[Heq _]|(w0 & p0 & lt & offered & _ & Hge & _)];
    [done|]. apply Hge, Hn.
Qed.

Lemma purge_volume_at_least_float_floor_witness :
  let t :=
    {| z_par := to_float 0.2; layer_height_par := to_float 0.2;
       old_tool := 1; new_tool := 0;
       wipe_volume := to_float (0 + to_float 15) |} in
  (to_float (get_at (filament_minimal_purge_on_wipe_tower example_config)
               (new_tool t))
   <= wipe_volume t)%Q.
Proof.
  intros t.
  refine (proj2 (purge_volume_at_least_float_floor (1 # 10000)
                   (fun _ => example_tool_ordering) (fun _ _ _ => 140%Q) unit
                   absorb_all (fun w _ _ => w) (fun _ _ => [])
                   false tt example_print _ _ t _ _) _ _).
  - vm_compute. reflexivity.
  - apply list_elem_of_In. vm_compute. right. left. reflexivity.
  - intros. vm_compute. discriminate.
  - vm_compute. discriminate.
Defined.

(** With a minimal purge of 0.7 and wiping extrusions which absorb all
    they are offered, the run plans a change of tool whose volume is the
    [float] 0.699999988, strictly below the minimal purge which is
    configured. *)
Lemma purge_volume_below_configured_floor :
  exists p' planned t,
    _make_wipe_tower (1 # 10000) (fun _ => example_tool_ordering)
      (fun _ _ _ => 140%Q) unit absorb_all (fun w _ _ => w) (fun _ _ => [])
      false tt fine_purge_print
    = Returned (p', planned)
    /\ t ∈ planned
    /\ old_tool t <> new_tool t
    /\ (0 <= fst (absorb_all tt fine_purge_print example_layer_tools
                    (old_tool t) (new_tool t) 140))%Q
    /\ (wipe_volume t
        < get_at (filament_minimal_purge_on_wipe_tower
                    (m_config fine_purge_print)) (new_tool t))%Q.
Proof.
  eexists _, _,
    {| z_par := to_float 0.2; layer_height_par := to_float 0.2;
       old_tool := 1; new_tool := 0;
       wipe_volume := to_float (0 + to_float (to_double 0.7)) |}.
  split; [reflexivity|]. split.
  { apply list_elem_of_In. right. left. reflexivity. }
  split; [cbn; lia|]. split; [vm_compute; discriminate|].
  vm_compute. reflexivity.
Qed.

(** With wiping extrusions which leave a negative volume the run plans a
    change of tool below the minimal purge, whatever the rounding: 14
    against 15. *)
Lemma purge_volume_below_floor_when_more_is_absorbed :
  exists p' planned t,
    _make_wipe_tower (1 # 10000) (fun _ => example_tool_ordering)
      (fun _ _ _ => 140%Q) unit absorb_more (fun w _ _ => w) (fun _ _ => [])
      false tt example_print
    = Returned (p', planned)
    /\ t ∈ planned
    /\ old_tool t <> new_tool t
    /\ (wipe_volume t == 14)%Q
    /\ (float_purge_floor (m_config example_print) t == 15)%Q.
Proof.
  eexists _, _,
    {| z_par := to_float 0.2; layer_height_par := to_float 0.2;
       old_tool := 1; new_tool := 0;
       wipe_volume := to_float (- (1) + to_float 15) |}.
  split; [reflexivity|]. split.
  { apply list_elem_of_In. right. left. reflexivity. }
  split; [cbn; lia|]. split; vm_compute; reflexivity.
Qed.

(** *** Gates *)

Lemma has_wipe_tower_iff p :
  has_wipe_tower p = true <->
  spiral_vase (m_config p) = false /\ wipe_tower (m_config p) = true
  /\ (1 < length (nozzle_diameter (m_config p)))%nat.
Proof.
  unfold has_wipe_tower. rewrite !andb_true_iff, negb_true_iff, bool_decide_eq_true.
  tauto.
Qed.

(** C10.  [Print::has_wipe_tower] is true exactly when spiral vase is off,
    the wipe tower option is on and there is more than one nozzle diameter.
    When it is false, the purge-tower block of [Print::validate] returns no
    message, the support check of an object can only return the message
    about differing nozzle diameters, and [Print::_make_wipe_tower] clears
    the wipe tower data and plans nothing. *)
Theorem wipe_tower_gate (p : Print) :
  (has_wipe_tower p = true <->
   spiral_vase (m_config p) = false /\ wipe_tower (m_config p) = true
   /\ (1 < length (nozzle_diameter (m_config p)))%nat) /\
  (has_wipe_tower p = false ->
   (forall EPSILON equal_layering layer_height_profile extruders
           has_custom_layering,
      validate_wipe_tower EPSILON equal_layering layer_height_profile
        extruders has_custom_layering p = None) /\
   (forall EPSILON min_nozzle_diameter max_nozzle_diameter object e,
      validate_object_support EPSILON min_nozzle_diameter max_nozzle_diameter
        p object = Some e -> e = DifferingNozzleDiameters) /\
   (forall EPSILON make_tool_ordering extract_wipe_volumes W
           mark_wiping_extrusions ensure_perimeters_infills_order generate
           canceled w,
      _make_wipe_tower EPSILON make_tool_ordering extract_wipe_volumes W
        mark_wiping_extrusions ensure_perimeters_infills_order generate
        canceled w p
      = Returned (set_m_wipe_tower_data WipeTowerData_clear p, []))).
Proof.
  split; [apply has_wipe_tower_iff|]. intros H. split; [|split].
  - intros. unfold validate_wipe_tower. by rewrite H.
  - intros EPSILON mn mx object e. unfold validate_object_support. rewrite H.
    simpl. destruct (has_support_material object); [|done].
    destruct (_ && _); [|done]. by intros [= <-].
  - intros. unfold _make_wipe_tower.
    assert (has_wipe_tower (set_m_wipe_tower_data WipeTowerData_clear p) = false)
      as -> by exact H.
    done.
Qed.

(** *** Skirt *)

(** C7.  When the candidate points of the skirt are fewer than three,
    [Print::_make_skirt] returns normally, whether or not the job is being
    canceled, and leaves the job as it was: no loop is added to
    [m_skirt]. *)
Theorem short_point_set_gives_no_skirt
    (wipe_tower_outline : Print -> Points)
    (skirt_loops : Print -> Points -> Outcome (list ExtrusionLoop * Points))
    (canceled : bool) (p : Print) (points : Points) :
  skirt_points wipe_tower_outline p = Some points ->
  (length points < 3)%nat ->
  _make_skirt wipe_tower_outline skirt_loops canceled p = Returned p.
Proof.
  intros Hp Hl. unfold _make_skirt. rewrite Hp.
  by rewrite bool_decide_eq_true_2.
Qed.

Lemma short_point_set_gives_no_skirt_witness :
  _make_skirt (fun _ => []) (fun _ _ => CanceledException) true example_print
  = Returned example_print.
Proof.
  apply (short_point_set_gives_no_skirt _ _ _ _
           [mkPoint 0 0; mkPoint 1000000 0]).
  - vm_compute. reflexivity.
  - vm_compute. lia.
Defined.

(** *** More on what a batch of keys does *)

Lemma job_flag_true TJ st :
  job_flag TJ st = true <-> exists s, TJ s = true /\ st s <> Invalidated.
Proof.
  unfold job_flag. rewrite existsb_exists. split.
  - intros (s & _ & H). exists s. apply andb_true_iff in H. destruct H as [H1 H2].
    split; [done|]. unfold noninv in H2. apply negb_true_iff in H2.
    by apply bool_decide_eq_false in H2.
  - intros (s & H1 & H2). exists s. split.
    + apply list_elem_of_In, all_PrintSteps_complete.
    + rewrite H1. unfold noninv. by rewrite bool_decide_eq_false_2.
Qed.

Lemma obj_flag_true TO o :
  obj_flag TO o = true <-> exists s, TO s = true /\ po_state o s <> Invalidated.
Proof.
  unfold obj_flag. rewrite existsb_exists. split.
  - intros (s & _ & H). exists s. apply andb_true_iff in H. destruct H as [H1 H2].
    split; [done|]. unfold noninv in H2. apply negb_true_iff in H2.
    by apply bool_decide_eq_false in H2.
  - intros (s & H1 & H2). exists s. split.
    + apply list_elem_of_In, all_PrintObjectSteps_complete.
    + rewrite H1. unfold noninv. by rewrite bool_decide_eq_false_2.
Qed.

Lemma objs_flag_true TO os os' :
  Forall2 (obj_rel TO) os os' ->
  objs_flag TO os = true <->
  exists i o o' s, os !! i = Some o /\ os' !! i = Some o'
                   /\ po_state o' s <> po_state o s.
Proof.
  intros H. unfold objs_flag. rewrite existsb_exists. split.
  - intros (o & Ho & Hf). apply list_elem_of_In, list_elem_of_lookup in Ho.
    destruct Ho as [i Hi].
    destruct (Forall2_lookup_l _ _ _ _ _ H Hi) as (o' & Hi' & [Hrel _]).
    apply obj_flag_true in Hf. destruct Hf as (s & Hs & Hn).
    exists i, o, o', s. split; [done|split; [done|]].
    rewrite Hrel, Hs. congruence.
  - intros (i & o & o' & s & Hi & Hi' & Hne).
    exists o. split; [apply list_elem_of_In, list_elem_of_lookup; eauto|].
    pose proof (Forall2_lookup_lr _ _ _ _ _ _ H Hi Hi') as [Hrel _].
    apply obj_flag_true. exists s. rewrite Hrel in Hne.
    destruct (TO s); [|done]. split; [done|]. congruence.
Qed.

(** X1.  The flag returned by [Print::invalidate_state_by_config_options]
    is true exactly when the call changed the status of a step of the job or
    of a step of one of its objects. *)
Theorem flag_tells_change (opt_keys : list string) (p : Print) :
  let r := invalidate_state_by_config_options opt_keys p in
  fst r = true <->
  (exists s, m_state (snd r) s <> m_state p s) \/
  (exists i o o' s,
     m_objects p !! i = Some o /\ m_objects (snd r) !! i = Some o'
     /\ po_state o' s <> po_state o s).
Proof.
  intros r.
  pose proof (invalidate_state_by_config_options_stage opt_keys p) as [H1 H2 _ H4].
  fold r in H1, H2, H4. rewrite H4. simpl.
  rewrite orb_true_iff, job_flag_true, (objs_flag_true _ _ _ H2).
  split; (intros [H|H]; [left|by right]).
  - destruct H as (s & Hs & Hn). exists s. rewrite H1, Hs. congruence.
  - destruct H as (s & Hn). exists s. rewrite H1 in Hn.
    destruct (job_target _ _ s); [|done]. split; [done|congruence].
Qed.

(** X3.  A batch of keys only ever invalidates: every status of the job
    and of every object is either what it was or Invalidated, the objects
    stay the same apart from their statuses, and nothing else of the print
    changes. *)
Theorem invalidation_only_invalidates (opt_keys : list string) (p : Print) :
  let p' := snd (invalidate_state_by_config_options opt_keys p) in
  (forall s, m_state p' s = m_state p s \/ m_state p' s = Invalidated) /\
  Forall2
    (fun o o' =>
       o' = set_po_state (po_state o') o /\
       forall s, po_state o' s = po_state o s \/ po_state o' s = Invalidated)
    (m_objects p) (m_objects p') /\
  p' = set_m_state (m_state p') (set_m_objects (m_objects p') p).
Proof.
  intros p'.
  pose proof (invalidate_state_by_config_options_stage opt_keys p) as [H1 H2 H3 _].
  fold p' in H1, H2, H3. split; [|split; [|done]].
  - intros s. rewrite H1. destruct (job_target _ _ s); auto.
  - eapply Forall2_impl; [exact H2|]. intros o o' [Ha Hb]. split; [done|].
    intros s. rewrite Ha. destruct (object_target _ s); auto.
Qed.

(** X2.  Applying the same batch of keys a second time returns false and
    changes no status of the job or of an object. *)
Theorem invalidation_is_idempotent (opt_keys : list string) (p : Print) :
  let r1 := invalidate_state_by_config_options opt_keys p in
  let r2 := invalidate_state_by_config_options opt_keys (snd r1) in
  fst r2 = false /\
  (forall s, m_state (snd r2) s = m_state (snd r1) s) /\
  Forall2 same_statuses (m_objects (snd r2)) (m_objects (snd r1)).
Proof.
  intros r1 r2.
  pose proof (invalidate_state_by_config_options_stage opt_keys p) as S1.
  pose proof (invalidate_state_by_config_options_stage opt_keys (snd r1)) as S2.
  fold r1 in S1. fold r2 in S2.
  pose proof (stage_objects_nonempty _ _ _ _ _ _ S1) as N1.
  destruct S1 as [A1 A2 _ _]. destruct S2 as [B1 B2 _ B4].
  assert (forall s, job_target opt_keys (m_objects (snd r1)) s
                    = job_target opt_keys (m_objects p) s) as ET.
  { intros s. unfold job_target. by rewrite N1. }
  split; [|split].
  - rewrite B4. simpl. apply orb_false_iff. split.
    + apply not_true_is_false. rewrite job_flag_true.
      intros (s & Hs & Hn). apply Hn. rewrite A1, <- ET, Hs. done.
    + apply not_true_is_false. rewrite (objs_flag_true _ _ _ B2).
      intros (i & o & o' & s & Hi & Hi' & Hne). apply Hne.
      pose proof (Forall2_lookup_lr _ _ _ _ _ _ B2 Hi Hi') as [Hrel _].
      rewrite Hrel. destruct (object_target opt_keys s) eqn:E; [|done].
      destruct (Forall2_lookup_r _ _ _ _ _ A2 Hi) as (o0 & _ & [Hrel0 _]).
      by rewrite Hrel0, E.
  - intros s. rewrite B1, ET, A1. by destruct (job_target _ _ s).
  - clear -A2 B2. revert B2. generalize (m_objects (snd r2)).
    induction A2 as [|o o1 os os1 [Ha _] _ IH]; intros l B2.
    + inversion B2. constructor.
    + inversion B2 as [|? o2 ? os2 [Hc _] Hrest]; subst.
      constructor; [|by apply IH].
      intros s. rewrite Hc, Ha. by destruct (object_target _ s).
Qed.

Lemma nonempty_app {A} (l1 l2 : list A) :
  nonempty (l1 ++ l2) = nonempty l1 || nonempty l2.
Proof. by destruct l1, l2. Qed.

Lemma member_app {A} `{EqDecision A} (l1 l2 : list A) (a : A) :
  member (l1 ++ l2) a = member l1 a || member l2 a.
Proof.
  unfold member. apply eq_true_iff_eq.
  rewrite orb_true_iff, !bool_decide_eq_true. apply elem_of_app.
Qed.

(** X4.  Applying two batches of keys one after the other leaves the same
    statuses as applying their concatenation in one call, whose flag is the
    disjunction of the two flags. *)
Theorem batches_compose (keys1 keys2 : list string) (p : Print) :
  let r1 := invalidate_state_by_config_options keys1 p in
  let r2 := invalidate_state_by_config_options keys2 (snd r1) in
  let r := invalidate_state_by_config_options (keys1 ++ keys2) p in
  fst r = fst r1 || fst r2 /\
  (forall s, m_state (snd r) s = m_state (snd r2) s) /\
  Forall2 same_statuses (m_objects (snd r)) (m_objects (snd r2)).
Proof.
  intros r1 r2 r.
  pose proof (invalidate_state_by_config_options_stage keys1 p) as S1.
  pose proof (invalidate_state_by_config_options_stage keys2 (snd r1)) as S2.
  pose proof (invalidate_state_by_config_options_stage (keys1 ++ keys2) p) as S.
  fold r1 in S1. fold r2 in S2. fold r in S.
  pose proof (stage_objects_nonempty _ _ _ _ _ _ S1) as N1.
  assert (stage (job_target (keys1 ++ keys2) (m_objects p))
            (object_target (keys1 ++ keys2)) false p
            (fst r1 || fst r2) (snd r2)) as S12.
  { assert (stage (job_target keys2 (m_objects (snd r1))) (object_target keys2)
              (fst r1) (snd r1) (fst r1 || fst r2) (snd r2)) as S2'.
    { destruct S2 as [B1 B2 B3 B4]. split; try done.
      rewrite B4. simpl. by rewrite orb_assoc. }
    eapply stage_ext; [| |exact (stage_compose _ _ _ _ _ _ _ _ _ _ S1 S2')].
    - intros s. unfold job_target. rewrite N1.
      rewrite !flat_map_app, existsb_app, !member_app, !nonempty_app.
      destruct (existsb key_unknown keys1), (existsb key_unknown keys2),
        (member (flat_map key_steps keys1) s),
        (member (flat_map key_steps keys2) s), (is_step psGCodeExport s),
        (nonempty (flat_map key_steps keys1)),
        (nonempty (flat_map key_steps keys2)),
        (nonempty (flat_map key_osteps keys1)),
        (nonempty (flat_map key_osteps keys2)), (nonempty (m_objects p)); done.
    - intros s. unfold object_target. by rewrite flat_map_app, member_app. }
  apply (stage_deterministic _ _ _ _ _ _ _ _ S S12).
Qed.

(** X5.  On a job without objects, a batch of recognised keys none of
    which names a step of the job returns false and changes nothing,
    whichever object steps the keys stand for. *)
Theorem object_keys_on_empty_job (opt_keys : list string) (p : Print) :
  m_objects p = [] ->
  (forall k, k ∈ opt_keys -> key_unknown k = false /\ key_steps k = []) ->
  let r := invalidate_state_by_config_options opt_keys p in
  fst r = false /\ (forall s, m_state (snd r) s = m_state p s)
  /\ m_objects (snd r) = [].
Proof.
  intros Ho Hk r.
  pose proof (invalidate_state_by_config_options_stage opt_keys p) as [H1 H2 _ H4].
  fold r in H1, H2, H4.
  assert (forall s, job_target opt_keys (m_objects p) s = false) as HT.
  { intros s. unfold job_target. rewrite Ho. simpl.
    assert (flat_map key_steps opt_keys = []) as ->.
    { apply flat_map_nil. intros k Hin. by apply Hk. }
    assert (existsb key_unknown opt_keys = false) as ->.
    { apply not_true_is_false. intros H. apply existsb_exists in H.
      destruct H as (k & Hin & Hu). apply list_elem_of_In in Hin.
      destruct (Hk k Hin) as [E _]. congruence. }
    unfold member. simpl. by rewrite !andb_false_r. }
  split; [|split].
  - rewrite H4. simpl. apply orb_false_iff. split; [|by rewrite Ho].
    apply not_true_is_false. rewrite job_flag_true.
    intros (s & Hs & _). by rewrite HT in Hs.
  - intros s. by rewrite H1, HT.
  - rewrite Ho in H2. by inversion H2.
Qed.

Lemma object_keys_on_empty_job_witness :
  fst (invalidate_state_by_config_options ["spiral_vase"; "nozzle_diameter"]
         (set_m_objects [] example_print)) = false.
Proof.
  refine (proj1 (object_keys_on_empty_job _ (set_m_objects [] example_print)
                   _ _)); [reflexivity|].
  intros k Hk. rewrite !elem_of_cons, elem_of_nil in Hk.
  destruct Hk as [->|[->|[]]]; vm_compute; done.
Defined.

(** X6.  After a batch with a key that stands for an object step,
    [Print::is_step_done] of that step is false. *)
Theorem targeted_step_is_not_done (opt_keys : list string) (p : Print)
    (k : string) (step : PrintObjectStep) :
  k ∈ opt_keys -> step ∈ key_osteps k ->
  is_step_done step (snd (invalidate_state_by_config_options opt_keys p))
  = false.
Proof.
  intros Hk Hs.
  pose proof (invalidate_state_by_config_options_stage opt_keys p) as [_ H2 _ _].
  assert (object_target opt_keys step = true) as HT.
  { unfold object_target, member. apply bool_decide_eq_true.
    apply list_elem_of_In, in_flat_map. exists k.
    split; by apply list_elem_of_In. }
  unfold is_step_done.
  destruct H2 as [|o o' os os' [Hrel _] _]; [done|].
  simpl. unfold PrintStateOps.is_done_unguarded.
  rewrite Hrel, HT. done.
Qed.

Lemma targeted_step_is_not_done_witness :
  is_step_done posSlice
    (snd (invalidate_state_by_config_options ["nozzle_diameter"] example_print))
  = false.
Proof.
  apply (targeted_step_is_not_done _ _ "nozzle_diameter").
  - constructor.
  - vm_compute. constructor.
Defined.

(** X7.  [Print::invalidate_step] returns true exactly when the step or
    the export step was not Invalidated before; calling it again returns
    false; and the steps other than these two keep their status. *)
Theorem invalidate_step_flag (step : PrintStep) (p : Print) :
  let r := invalidate_step step p in
  (fst r = true <->
   m_state p step <> Invalidated \/ m_state p psGCodeExport <> Invalidated) /\
  fst (invalidate_step step (snd r)) = false /\
  (forall s, s <> step -> s <> psGCodeExport ->
             m_state (snd r) s = m_state p s).
Proof.
  intros r.
  pose proof (invalidate_step_stage step false p) as [A1 _ _ A4].
  pose proof (invalidate_step_stage step false (snd r)) as [_ _ _ B4].
  fold r in A1, A4. simpl in A4, B4.
  rewrite objs_flag_false in A4, B4 by done. rewrite orb_false_r in A4, B4.
  split; [|split].
  - rewrite A4, job_flag_true. split.
    + intros (s & Hs & Hn). apply orb_true_iff in Hs.
      unfold is_step in Hs. rewrite !bool_decide_eq_true in Hs.
      destruct Hs as [->| ->]; auto.
    + intros [H|H]; [exists step|exists psGCodeExport]; (split; [|done]);
        unfold is_step; apply orb_true_iff; rewrite !bool_decide_eq_true; auto.
  - rewrite B4. apply not_true_is_false. rewrite job_flag_true.
    intros (s & Hs & Hn). apply Hn. by rewrite A1, Hs.
  - intros s H1 H2. rewrite A1. unfold is_step.
    by rewrite !bool_decide_eq_false_2.
Qed.

(** *** Sorting and removing duplicates *)

Section SortRemoveDuplicates.
Context {A : Type} `{EqDecision A} (index : A -> nat) `{!Inj (=) (=) index}.

#[local] Instance index_le_trans : Transitive (index_le index).
Proof. intros a b c. unfold index_le. lia. Qed.

#[local] Instance index_le_total : Total (index_le index).
Proof. intros a b. unfold index_le. lia. Qed.

Lemma unique_strictly_sorted (l : list A) :
  StronglySorted (index_le index) l -> StronglySorted (index_lt index) (unique l).
Proof.
  induction l as [|a l IH]; intros Hs; [constructor|].
  apply StronglySorted_inv in Hs. destruct Hs as [Hl Ha].
  specialize (IH Hl). simpl. destruct l as [|b l]; [repeat constructor|].
  destruct (decide (a = b)) as [->|Hne]; [done|].
  constructor; [done|].
  apply Forall_forall. intros c Hc. rewrite elem_of_unique in Hc.
  rewrite Forall_forall in Ha. unfold index_lt.
  apply StronglySorted_inv in Hl. destruct Hl as [_ Hb].
  rewrite Forall_forall in Hb.
  assert (index a <= index b)%nat as H1 by (apply Ha; constructor).
  assert (index a <> index b) as H2 by (intros E; by apply Hne, (inj index)).
  apply elem_of_cons in Hc. destruct Hc as [->|Hc]; [lia|].
  specialize (Hb c Hc). unfold index_le in Hb. lia.
Qed.

Lemma sort_remove_duplicates_sorted (l : list A) :
  StronglySorted (index_lt index) (sort_remove_duplicates index l).
Proof.
  unfold sort_remove_duplicates. apply unique_strictly_sorted.
  apply StronglySorted_merge_sort; apply _.
Qed.
End SortRemoveDuplicates.

Lemma sort_remove_duplicates_spec (l : list nat) :
  StronglySorted lt (sort_remove_duplicates id l) /\
  NoDup (sort_remove_duplicates id l) /\
  (forall a, a ∈ sort_remove_duplicates id l <-> a ∈ l).
Proof.
  pose proof (sort_remove_duplicates_sorted (A:=nat) id l) as H.
  split; [exact H|]. split; [|intros a; apply elem_of_sort_remove_duplicates].
  revert H. generalize (sort_remove_duplicates id l). intros l' H.
  induction H as [|a l' Hl IH Ha]; constructor; [|done].
  intros Hin. rewrite Forall_forall in Ha. specialize (Ha a Hin).
  unfold index_lt in Ha. simpl in Ha. lia.
Qed.

Section ExtrudersProofs.
Variable collect : Print -> PrintRegion -> list nat -> list nat.

(** X8.  [Print::extruders] is strictly increasing, hence without
    duplicates, and holds exactly the extruders of the objects and those of
    the supports. *)
Theorem extruders_sorted_union (p : Print) :
  StronglySorted lt (extruders collect p) /\
  NoDup (extruders collect p) /\
  (forall e, e ∈ extruders collect p <->
             e ∈ object_extruders collect p
             \/ e ∈ support_material_extruders collect p).
Proof.
  unfold extruders.
  destruct (sort_remove_duplicates_spec
              (object_extruders collect p ++ support_material_extruders collect p))
    as (H1 & H2 & H3).
  split; [done|split; [done|]]. intros e. rewrite H3. apply elem_of_app.
Qed.

Lemma push_support_extruder_spec n v acc :
  let r := push_support_extruder n v acc in
  (forall e, e ∈ fst r <-> e ∈ fst acc \/ (v <> 0%Z /\ e = clamp_extruder n v)) /\
  (snd r = true <-> snd acc = true \/ v = 0%Z).
Proof.
  destruct acc as [es b]. unfold push_support_extruder. simpl.
  case_bool_decide as Hv; simpl.
  - split; [intros e; naive_solver|naive_solver].
  - split.
    + intros e. rewrite elem_of_app, list_elem_of_singleton.
      unfold clamp_extruder. naive_solver.
    + naive_solver.
Qed.

Lemma support_fold_spec n (os : list PrintObject) acc :
  let r :=
    fold_left
      (fun acc object =>
         if has_support_material object then
           push_support_extruder n
             (support_material_interface_extruder (config object))
             (push_support_extruder n
                (support_material_extruder (config object)) acc)
         else acc) os acc in
  let vs :=
    flat_map
      (fun object =>
         if has_support_material object then
           [support_material_extruder (config object);
            support_material_interface_extruder (config object)]
         else []) os in
  (forall e, e ∈ fst r <->
             e ∈ fst acc \/ exists v, v ∈ vs /\ v <> 0%Z /\ e = clamp_extruder n v) /\
  (snd r = true <-> snd acc = true \/ 0%Z ∈ vs).
Proof.
  revert acc. induction os as [|o os IH]; intros acc; cbn [fold_left flat_map].
  - split; [intros e|]; split; try tauto.
    + intros [H|(v & Hv & _)]; [done|by apply elem_of_nil in Hv].
    + intros [H|H]; [done|by apply elem_of_nil in H].
  - destruct (has_support_material o).
    + specialize (IH (push_support_extruder n
                        (support_material_interface_extruder (config o))
                        (push_support_extruder n
                           (support_material_extruder (config o)) acc))).
      cbv zeta in IH. destruct IH as [I1 I2].
      pose proof (push_support_extruder_spec n
                    (support_material_extruder (config o)) acc) as [A1 A2].
      pose proof (push_support_extruder_spec n
                    (support_material_interface_extruder (config o))
                    (push_support_extruder n
                       (support_material_extruder (config o)) acc)) as [B1 B2].
      cbv zeta in A1, A2, B1, B2. split.
      * intros e. rewrite I1, B1, A1. split.
        -- intros [[[H|[H ->]]|[H ->]]|(v & Hv & H & ->)]; [by left|right..].
           ++ eexists. split; [|done]. apply elem_of_app. left. constructor.
           ++ eexists. split; [|done]. apply elem_of_app. left.
              apply elem_of_cons. right. constructor.
           ++ eexists. split; [|done]. apply elem_of_app. by right.
        -- intros [H|(v & Hv & H & ->)]; [by do 3 left|].
           apply elem_of_app in Hv. destruct Hv as [Hv|Hv].
           ++ apply elem_of_cons in Hv. destruct Hv as [->|Hv]; [left; left; by right|].
              apply list_elem_of_singleton in Hv. subst v. left. by right.
           ++ right. by exists v.
      * rewrite I2, B2, A2. rewrite elem_of_app, !elem_of_cons, elem_of_nil.
        split.
        -- intros [[[H|H]|H]|H]; auto.
        -- intros [H|[[H|[H|[]]]|H]]; auto.
    + apply IH.
Qed.

(** X9.  [Print::support_material_extruders] is strictly increasing.  It
    holds the extruder of every non-zero support option of an object with
    support material, taken from one, wrapped to 32 bits and replaced by
    extruder 0 when it is not below the number of extruders; and, when such
    an option is zero, all extruders of the objects.  So each member is 0,
    below the number of extruders, or an extruder of an object; and the list
    is empty when no object has support material. *)
Theorem support_material_extruders_spec (p : Print) :
  let num_extruders := length (nozzle_diameter (m_config p)) in
  StronglySorted lt (support_material_extruders collect p) /\
  (forall e, e ∈ support_material_extruders collect p <->
     (exists v, v ∈ support_values p /\ v <> 0%Z
                /\ e = clamp_extruder num_extruders v)
     \/ (0%Z ∈ support_values p /\ e ∈ object_extruders collect p)) /\
  (forall e, e ∈ support_material_extruders collect p ->
     e = 0%nat \/ (e < num_extruders)%nat \/ e ∈ object_extruders collect p) /\
  (Print_has_support_material p = false ->
   support_material_extruders collect p = []).
Proof.
  intros n. unfold support_material_extruders. fold n.
  pose proof (support_fold_spec n (m_objects p) ([], false)) as H.
  cbv zeta in H. fold (support_values p) in H.
  destruct (fold_left _ (m_objects p) ([], false)) as [es b].
  simpl in H. destruct H as [H1 H2].
  match goal with
  | |- context [sort_remove_duplicates id ?l] =>
      destruct (sort_remove_duplicates_spec l) as (S1 & _ & S3)
  end.
  assert (forall e, e ∈ sort_remove_duplicates id
                      (if b then es ++ object_extruders collect p else es) <->
            (exists v, v ∈ support_values p /\ v <> 0%Z /\ e = clamp_extruder n v)
            \/ (0%Z ∈ support_values p /\ e ∈ object_extruders collect p)) as M.
  { intros e. rewrite S3. destruct b.
    - rewrite elem_of_app, H1. rewrite elem_of_nil.
      assert (0%Z ∈ support_values p) as H0.
      { destruct H2 as [H2 _]. destruct (H2 eq_refl) as [H|H]; [discriminate|done]. }
      tauto.
    - rewrite H1, elem_of_nil.
      assert (~ 0%Z ∈ support_values p) as H0.
      { intros H. destruct H2 as [_ H2]. discriminate H2. by right. }
      tauto. }
  split; [done|split; [done|split]].
  - intros e He. apply M in He. destruct He as [(v & _ & _ & ->)|[_ He]]; [|auto].
    unfold clamp_extruder. case_bool_decide; [auto|right; left; lia].
  - intros Hs.
    assert (support_values p = []) as Hv.
    { unfold support_values. apply flat_map_nil. intros o Ho.
      unfold Print_has_support_material in Hs.
      destruct (has_support_material o) eqn:E; [|done].
      assert (existsb has_support_material (m_objects p) = true); [|congruence].
      apply existsb_exists. exists o. split; [by apply list_elem_of_In|done]. }
    destruct (sort_remove_duplicates id _) as [|e l] eqn:E; [done|].
    exfalso. assert (e ∈ e :: l) as He by constructor.
    apply M in He. rewrite Hv in He.
    destruct He as [(v & Hin & _)|[Hin _]]; by apply elem_of_nil in Hin.
Qed.
End ExtrudersProofs.

Lemma max_element_None (l : list Z) : max_element l = None <-> l = [].
Proof.
  destruct l as [|h l]; [done|]. cbn.
  destruct (max_element l); [destruct (h <? z)%Z|]; split; discriminate.
Qed.

Lemma max_element_spec (l : list Z) (m : Z) :
  max_element l = Some m -> m ∈ l /\ Forall (fun h => (h <= m)%Z) l.
Proof.
  revert m. induction l as [|h l IH]; intros m; [discriminate|]. cbn.
  destruct (max_element l) as [m'|] eqn:Hm.
  - destruct (IH m' eq_refl) as [Hin Hall].
    destruct (Z.ltb_spec h m'); intros [= <-].
    + split; [by right|]. constructor; [lia|done].
    + split; [by left|]. constructor; [lia|].
      eapply Forall_impl; [exact Hall|]. cbn. intros; lia.
  - apply max_element_None in Hm as ->. intros [= <-].
    split; [by left|]. constructor; [lia|constructor].
Qed.

(** X10.  [sequential_print_vertical_clearance_valid] never looks at the
    instance printed last: with at least one instance it returns, and the
    result is true exactly when every other instance is no higher than the
    scaled clearance. *)
Theorem vertical_clearance_ignores_last (heights : list Z) (last : Z)
    (scaled_clearance : Q) :
  exists valid,
    sequential_print_vertical_clearance_valid (heights ++ [last])
      scaled_clearance = Returned valid
    /\ (valid = true <->
        Forall (fun h => (inject_Z h <= scaled_clearance)%Q) heights).
Proof.
  unfold sequential_print_vertical_clearance_valid.
  destruct (heights ++ [last]) as [|h0 t] eqn:Hl.
  { by destruct heights. }
  rewrite <- Hl, removelast_last.
  destruct (max_element heights) as [m|] eqn:Hm.
  - eexists; split; [reflexivity|].
    rewrite Qle_bool_iff.
    destruct (max_element_spec _ _ Hm) as [Hin Hall]. split.
    + intros Hle. eapply Forall_impl; [exact Hall|]. cbn. intros h Hh.
      eapply Qle_trans; [|exact Hle]. by rewrite <- Zle_Qle.
    + intros HF. rewrite Forall_forall in HF. by apply HF.
  - apply max_element_None in Hm as ->.
    eexists; split; [reflexivity|]. split; [constructor|done].
Qed.

Lemma forallb_false_lookup {A} (f : A -> bool) (l : list A) :
  forallb f l = false -> exists j a, l !! j = Some a /\ f a = false.
Proof.
  induction l as [|a l IH]; [discriminate|]. cbn.
  destruct (f a) eqn:Ha.
  - intros H. destruct (IH H) as (j & b & Hj & Hb). by exists (S j), b.
  - intros _. by exists 0%nat, a.
Qed.

Lemma omap_lookup_Forall2 {A} (l : list A) (idxs : list nat) :
  Forall (fun k => is_Some (l !! k)) idxs ->
  Forall2 (fun k a => l !! k = Some a) idxs (omap (fun i => l !! i) idxs).
Proof.
  induction 1 as [|k ks [a Ha] _ IH]; cbn; [constructor|].
  rewrite Ha. cbn. by constructor.
Qed.

Section HorizontalClearanceProofs.
Variable model_object_id : PrintObject -> nat.
Variable grown_convex_hull : Print -> PrintObject -> Points.
Variable rotate_to_instance : PrintObject -> Points -> Points.
Variable center_offset : PrintObject -> Point.
Variable intersects : Points -> Points -> bool.

Abbreviation check_against' := (check_against intersects).
Abbreviation check_instance' := (check_instance intersects).
Abbreviation object_instance_hulls' :=
  (object_instance_hulls model_object_id grown_convex_hull rotate_to_instance
     center_offset).
Abbreviation check_objects_clearance' :=
  (check_objects_clearance model_object_id grown_convex_hull
     rotate_to_instance center_offset intersects).
Abbreviation instance_hulls' :=
  (instance_hulls model_object_id grown_convex_hull rotate_to_instance
     center_offset).
Abbreviation clearance_valid' :=
  (sequential_print_horizontal_clearance_valid model_object_id
     grown_convex_hull rotate_to_instance center_offset intersects).
Abbreviation collides' := (collides intersects).

Lemma check_instance_None (w : bool) (hulls : list Points) :
  fold_left (check_instance' w) hulls None = None.
Proof. by induction hulls. Qed.

Lemma check_objects_clearance_fold (w : bool) (p : Print)
    (objects : list PrintObject) (cache : gmap nat Points)
    (state : option (list Points * list nat)) :
  check_objects_clearance' w p cache objects state
  = fold_left (check_instance' w) (instance_hulls' p cache objects) state.
Proof.
  revert cache state. induction objects as [|o objects IH]; intros cache state;
    [done|].
  cbn [check_objects_clearance instance_hulls].
  destruct (object_instance_hulls' p cache o) as [cache' hulls].
  by rewrite IH, fold_left_app.
Qed.

(** The indices met by the inner loop when polygons are asked for. *)
Lemma check_against_wanted (hull : Points) (size : nat) (others : list Points)
    (i : nat) (idxs : list nat) :
  exists idxs',
    check_against' true hull size i others idxs = Some idxs'
    /\ forall k, k ∈ idxs' <->
         k ∈ idxs
         \/ exists j a, others !! j = Some a /\ intersects a hull = true
              /\ (k = (i + j)%nat \/ k = size).
Proof.
  revert i idxs. induction others as [|o others IH]; intros i idxs.
  - eexists; split; [reflexivity|]. intros k; split; [auto|].
    intros [?|(j & a & Hj & _)]; [done|]. by rewrite lookup_nil in Hj.
  - cbn [check_against]. destruct (intersects o hull) eqn:Ho.
    + destruct (IH (S i) (idxs ++ [i; size])) as (idxs' & -> & Hk).
      eexists; split; [reflexivity|]. intros k. rewrite Hk.
      rewrite elem_of_app, !elem_of_cons, elem_of_nil. split.
      * intros [[?|[->|[->|[]]]]|(j & a & Hj & Ha & Hkj)]; [by left|..].
        -- right. exists 0%nat, o. split; [done|]. split; [done|]. left. lia.
        -- right. exists 0%nat, o. split; [done|]. split; [done|]. by right.
        -- right. exists (S j), a. split; [done|]. split; [done|].
           destruct Hkj; [left; lia|by right].
      * intros [?|(j & a & Hj & Ha & Hkj)]; [by left; left|].
        destruct j as [|j].
        -- left. right. destruct Hkj as [->| ->]; [left; lia|right; by left].
        -- right. exists j, a. split; [done|]. split; [done|].
           destruct Hkj; [left; lia|by right].
    + destruct (IH (S i) idxs) as (idxs' & -> & Hk).
      eexists; split; [reflexivity|]. intros k. rewrite Hk. split.
      * intros [?|(j & a & Hj & Ha & Hkj)]; [by left|].
        right. exists (S j), a. split; [done|]. split; [done|].
        destruct Hkj; [left; lia|by right].
      * intros [?|(j & a & Hj & Ha & Hkj)]; [by left|].
        destruct j as [|j].
        -- cbn in Hj. injection Hj as <-. congruence.
        -- right. exists j, a. split; [done|]. split; [done|].
           destruct Hkj; [left; lia|by right].
Qed.

(** The inner loop when no polygons are asked for. *)
Lemma check_against_unwanted (hull : Points) (size : nat)
    (others : list Points) (i : nat) (idxs : list nat) :
  check_against' false hull size i others idxs
  = if forallb (fun a => negb (intersects a hull)) others
    then Some idxs else None.
Proof.
  revert i. induction others as [|o others IH]; intros i; [done|].
  cbn [check_against forallb]. destruct (intersects o hull); [done|].
  cbn. apply IH.
Qed.

Lemma collides_snoc (hulls : list Points) (hull : Points) (k : nat) :
  collides' (hulls ++ [hull]) k <->
  collides' hulls k
  \/ exists j a, hulls !! j = Some a /\ intersects a hull = true
       /\ (k = j \/ k = length hulls).
Proof.
  unfold collides. split.
  - intros (i & j & a & b & Hij & Hi & Hj & Hab & Hk).
    apply lookup_snoc_Some in Hj as [[Hlt Hj]|[-> ->]].
    + left. exists i, j, a, b. split; [done|].
      rewrite lookup_app_l in Hi by lia. done.
    + right. rewrite lookup_app_l in Hi by lia.
      exists i, a. split; [done|]. split; [done|]. done.
  - intros [(i & j & a & b & Hij & Hi & Hj & Hab & Hk)
           |(j & a & Hj & Ha & Hk)].
    + exists i, j, a, b. split; [done|].
      split; [by apply lookup_app_l_Some|].
      split; [by apply lookup_app_l_Some|]. done.
    + exists j, (length hulls), a, hull.
      split; [by eapply lookup_lt_Some|].
      split; [by apply lookup_app_l_Some|].
      split; [by rewrite list_lookup_middle|]. done.
Qed.

Lemma check_instances_wanted (hulls : list Points) (pre : list Points)
    (idxs : list nat) :
  (forall k, k ∈ idxs <-> collides' pre k) ->
  exists idxs',
    fold_left (check_instance' true) hulls (Some (pre, idxs))
    = Some (pre ++ hulls, idxs')
    /\ forall k, k ∈ idxs' <-> collides' (pre ++ hulls) k.
Proof.
  revert pre idxs. induction hulls as [|hull hulls IH]; intros pre idxs Hinv.
  - exists idxs. by rewrite app_nil_r.
  - cbn [fold_left check_instance].
    destruct (check_against_wanted hull (length pre) pre 0 idxs)
      as (idxs1 & -> & H1).
    destruct (IH (pre ++ [hull]) idxs1) as (idxs' & Hf & Hk).
    { intros k. rewrite H1, collides_snoc, Hinv. done. }
    exists idxs'. by rewrite <- app_assoc in Hf, Hk.
Qed.

Lemma check_instances_unwanted (hulls : list Points) (pre : list Points) :
  (forall k, ~ collides' pre k) ->
  (fold_left (check_instance' false) hulls (Some (pre, []))
   = Some (pre ++ hulls, [])
   /\ forall k, ~ collides' (pre ++ hulls) k)
  \/ (fold_left (check_instance' false) hulls (Some (pre, [])) = None
      /\ exists k, collides' (pre ++ hulls) k).
Proof.
  revert pre. induction hulls as [|hull hulls IH]; intros pre Hinv.
  - left. by rewrite app_nil_r.
  - cbn [fold_left check_instance]. rewrite check_against_unwanted.
    destruct (forallb _ pre) eqn:Hall.
    + destruct (IH (pre ++ [hull])) as [[Hf Hk]|[Hf Hk]].
      * intros k. rewrite collides_snoc. intros [?|(j & a & Hj & Ha & _)].
        { by eapply Hinv. }
        rewrite forallb_forall in Hall.
        apply list_elem_of_lookup_2, list_elem_of_In, Hall in Hj.
        rewrite Ha in Hj. done.
      * left. by rewrite <- app_assoc in Hf, Hk.
      * right. by rewrite <- app_assoc in Hk.
    + right. split; [apply check_instance_None|].
      destruct (forallb_false_lookup _ _ Hall) as (j & a & Hj & Ha).
      apply negb_false_iff in Ha.
      exists j, j, (length pre), a, hull.
      split; [by eapply lookup_lt_Some|].
      split; [by apply lookup_app_l_Some|].
      split; [|by auto].
      by rewrite list_lookup_middle.
Qed.
Lemma not_collides_nil (k : nat) : ~ collides' [] k.
Proof. intros (i & j & a & b & _ & Hi & _). by rewrite lookup_nil in Hi. Qed.

Lemma collides_pair (hulls : list Points) :
  (forall k, ~ collides' hulls k) <->
  (forall i j a b, (i < j)%nat -> hulls !! i = Some a -> hulls !! j = Some b ->
     intersects a b = false).
Proof.
  split.
  - intros H i j a b Hij Hi Hj. destruct (intersects a b) eqn:Hab; [|done].
    destruct (H i). exists i, j, a, b. repeat split; auto.
  - intros H k (i & j & a & b & Hij & Hi & Hj & Hab & _).
    rewrite (H i j a b Hij Hi Hj) in Hab. done.
Qed.

(** X11.  [Print::sequential_print_horizontal_clearance_valid] returns
    true exactly when no hull of an instance intersects a hull of an earlier
    instance, whether or not the colliding polygons are asked for. *)
Theorem horizontal_clearance_valid_iff (polygons_wanted : bool) (p : Print) :
  let hulls := instance_hulls' p ∅ (m_objects p) in
  fst (clearance_valid' polygons_wanted p) = true <->
  forall i j a b, (i < j)%nat -> hulls !! i = Some a -> hulls !! j = Some b ->
    intersects a b = false.
Proof.
  intros hulls. rewrite <- collides_pair.
  unfold sequential_print_horizontal_clearance_valid.
  rewrite check_objects_clearance_fold. fold hulls.
  destruct polygons_wanted.
  - destruct (check_instances_wanted hulls [] []) as (idxs & -> & Hk).
    { intros k. rewrite elem_of_nil. split; [done|apply not_collides_nil]. }
    cbn [app] in Hk |- *. destruct idxs as [|k0 idxs]; cbn [fst].
    + split; [|done]. intros _ k Hc. apply Hk in Hc. by apply elem_of_nil in Hc.
    + split; [done|]. intros H. destruct (H k0). apply Hk. by left.
  - destruct (check_instances_unwanted hulls []) as [[-> Hk]|[-> [k Hk]]].
    { apply not_collides_nil. }
    + cbn [app fst] in Hk |- *. done.
    + cbn [app fst] in Hk |- *. split; [done|]. intros H. by destruct (H k).
Qed.

(** X12.  When no polygons are asked for, none are written.  When they
    are, the polygons written are the hulls of the instances that take part
    in an intersection, each once and in the order of the instances. *)
Theorem horizontal_clearance_polygons (p : Print) :
  let hulls := instance_hulls' p ∅ (m_objects p) in
  snd (clearance_valid' false p) = []
  /\ exists idxs,
       StronglySorted lt idxs
       /\ (forall k, k ∈ idxs <-> collides' hulls k)
       /\ Forall2 (fun k polygon => hulls !! k = Some polygon) idxs
            (snd (clearance_valid' true p)).
Proof.
  intros hulls. unfold sequential_print_horizontal_clearance_valid.
  rewrite !check_objects_clearance_fold. fold hulls. split.
  - destruct (check_instances_unwanted hulls []) as [[-> _]|[-> _]]; try done.
    apply not_collides_nil.
  - destruct (check_instances_wanted hulls [] []) as (idxs & -> & Hk).
    { intros k. rewrite elem_of_nil. split; [done|apply not_collides_nil]. }
    cbn [app] in Hk |- *.
    destruct (sort_remove_duplicates_spec idxs) as (Hs & _ & Hin).
    assert (Hgoal : Forall2 (fun k polygon => hulls !! k = Some polygon)
              (sort_remove_duplicates id idxs)
              (omap (fun i => hulls !! i) (sort_remove_duplicates id idxs))).
    { assert (Hall : Forall (fun k => is_Some (hulls !! k))
                (sort_remove_duplicates id idxs)).
      { apply Forall_forall. intros k Hkin. apply Hin, Hk in Hkin.
        destruct Hkin as (i & j & a & b & _ & Hi & Hj & _ & [-> | ->]); eauto. }
      by apply omap_lookup_Forall2. }
    destruct idxs as [|k0 idxs].
    + exists []. split; [constructor|]. split; [exact Hk|]. constructor.
    + exists (sort_remove_duplicates id (k0 :: idxs)).
      split; [exact Hs|]. split; [|exact Hgoal].
      intros k. by rewrite Hin, Hk.
Qed.
End HorizontalClearanceProofs.

(** *** The whole of the validation *)

(** The value a result in [H] branches on first. *)
Tactic Notation "scrutinee" hyp(H) "as" simple_intropattern(pat)
    ident(name) :=
  match type of H with
  | match ?x with _ => _ end = _ => destruct x as pat eqn:name
  end.

Lemma Qgt_bool_false (a b : Q) :
  Qgt_bool a b = false <-> (a <= b)%Q.
Proof.
  unfold Qgt_bool. rewrite negb_false_iff. apply Qle_bool_iff.
Qed.

Lemma Qgt_bool_true (a b : Q) : Qgt_bool a b = true <-> (b < a)%Q.
Proof.
  unfold Qgt_bool. rewrite negb_true_iff, <- not_true_iff_false, Qle_bool_iff.
  split; [apply Qnot_le_lt|apply Qlt_not_le].
Qed.

Lemma min_coordf_le_l (a b : Q) : (min_coordf a b <= a)%Q.
Proof.
  unfold min_coordf. destruct (Qle_bool a b) eqn:H; [apply Qle_refl|].
  apply Qlt_le_weak, Qnot_le_lt. intros Hle. apply Qle_bool_iff in Hle.
  congruence.
Qed.

Lemma min_coordf_le_r (a b : Q) : (min_coordf a b <= b)%Q.
Proof.
  unfold min_coordf. destruct (Qle_bool a b) eqn:H; [|apply Qle_refl].
  by apply Qle_bool_iff.
Qed.

Lemma fold_min_le (f : nat -> Q) (l : list nat) (init : Q) :
  let m := fold_left (fun acc e => min_coordf acc (f e)) l init in
  (m <= init)%Q /\ forall e, e ∈ l -> (m <= f e)%Q.
Proof.
  revert init. induction l as [|a l IH]; intros init; cbn.
  - split; [apply Qle_refl|]. intros e He. by apply elem_of_nil in He.
  - destruct (IH (min_coordf init (f a))) as [H1 H2]. split.
    + eapply Qle_trans; [exact H1|apply min_coordf_le_l].
    + intros e [->|He]%elem_of_cons; [|by apply H2].
      eapply Qle_trans; [exact H1|apply min_coordf_le_r].
Qed.

Lemma used_min_nozzle_diameter_le (c : PrintConfig) (extruders : list nat)
    (e : nat) :
  e ∈ extruders ->
  (used_min_nozzle_diameter c extruders <= get_at (nozzle_diameter c) e)%Q.
Proof.
  intros He. unfold used_min_nozzle_diameter.
  by apply (fold_min_le (fun e => get_at (nozzle_diameter c) e)).
Qed.

Section WholeValidateProofs.
Variable EPSILON : Q.
Variable SCALING_FACTOR : Q.
Variable equal_layering : SlicingParameters -> SlicingParameters -> bool.
Variable generate_object_layers : SlicingParameters -> list Q -> list Q.
Variable check_object_layers_fixed : SlicingParameters -> list Q -> bool.
Variable layer_height_profile : Print -> nat -> list Q.
Variable model_has_custom_layering : PrintObject -> bool.
Variable model_volumes : PrintObject -> list ModelVolume.
Variable config_raft_layers : PrintObject -> Z.
Variable regex_search_g92e0 : string -> bool.
Variable collect_object_printing_extruders :
  Print -> PrintRegion -> list nat -> list nat.
Variable model_object_id : PrintObject -> nat.
Variable grown_convex_hull : Print -> PrintObject -> Points.
Variable rotate_to_instance : PrintObject -> Points -> Points.
Variable center_offset : PrintObject -> Point.
Variable intersects : Points -> Points -> bool.
Variable heights_in_print_order : Print -> list Z.

Abbreviation validate' :=
  (validate EPSILON SCALING_FACTOR equal_layering generate_object_layers
     check_object_layers_fixed layer_height_profile model_has_custom_layering
     model_volumes config_raft_layers regex_search_g92e0
     collect_object_printing_extruders model_object_id grown_convex_hull
     rotate_to_instance center_offset intersects heights_in_print_order).
Abbreviation validate_object' :=
  (validate_object EPSILON model_volumes config_raft_layers).
Abbreviation validate_objects' :=
  (validate_objects EPSILON model_volumes config_raft_layers).
Abbreviation unused_enforcers' := (unused_enforcers model_volumes).
Abbreviation object_passes' := (object_passes EPSILON).
Abbreviation validate_max_print_height' :=
  (validate_max_print_height EPSILON generate_object_layers
     layer_height_profile).
Abbreviation too_high' :=
  (too_high EPSILON generate_object_layers layer_height_profile).
Abbreviation layered_as' := (layered_as EPSILON equal_layering).
Abbreviation validate_wipe_tower' :=
  (validate_wipe_tower EPSILON equal_layering layer_height_profile).
Abbreviation check_objects' :=
  (check_objects EPSILON equal_layering layer_height_profile).
Abbreviation horizontal_clearance_valid' :=
  (sequential_print_horizontal_clearance_valid model_object_id
     grown_convex_hull rotate_to_instance center_offset intersects).

Lemma validate_object_passes (vc : ValidateConfig) (p : Print)
    (extruders : list nat) (object : PrintObject)
    (warning warning' : option string) :
  validate_object' vc (used_min_nozzle_diameter (m_config p) extruders)
    (used_max_nozzle_diameter (m_config p) extruders) p object warning
  = (warning', None) ->
  object_passes' vc p extruders object
  /\ warning' = match warning with
                | Some text =>
                    if unused_enforcers' object then Some "_SUPPORTS_OFF"
                    else Some text
                | None => None
                end.
Proof.
  unfold validate_object, object_passes.
  destruct (validate_object_support _ _ _ _ _) eqn:Hs; [discriminate|].
  destruct (Qgt_bool (first_layer_height vc) _) eqn:Hf; [discriminate|].
  destruct (Qgt_bool (layer_height _) _) eqn:Hl; [discriminate|].
  destruct (validate_extrusion_widths _ _) eqn:Hw; [discriminate|].
  intros [= <-]. apply Qgt_bool_false in Hf, Hl.
  split; [|by destruct warning]. split; [done|]. split; [|split; [|done]].
  - intros e He. eapply Qle_trans; [exact Hl|].
    by apply used_min_nozzle_diameter_le.
  - intros Hr e He. unfold first_layer_min_nozzle_diameter in Hf.
    rewrite Hr in Hf. eapply Qle_trans; [exact Hf|].
    by apply used_min_nozzle_diameter_le.
Qed.

Lemma validate_objects_passes (vc : ValidateConfig) (p : Print)
    (extruders : list nat) (objects : list PrintObject)
    (warning warning' : option string) :
  validate_objects' vc (used_min_nozzle_diameter (m_config p) extruders)
    (used_max_nozzle_diameter (m_config p) extruders) p objects warning
  = (warning', None) ->
  Forall (object_passes' vc p extruders) objects
  /\ warning' = match warning with
                | Some text =>
                    if existsb unused_enforcers' objects
                    then Some "_SUPPORTS_OFF" else Some text
                | None => None
                end.
Proof.
  revert warning. induction objects as [|object objects IH]; intros warning.
  - cbn. intros [= <-]. split; [constructor|by destruct warning].
  - cbn [validate_objects existsb].
    destruct (validate_object' _ _ _ _ object warning) as [w1 [e|]] eqn:Ho;
      [discriminate|].
    apply validate_object_passes in Ho as [Ho ->]. intros H.
    apply IH in H as [H ->]. split; [by constructor|].
    destruct warning as [text|]; [|done].
    destruct (unused_enforcers' object); cbn; [|done].
    by destruct (existsb unused_enforcers' objects).
Qed.
Lemma total_copies_count (objects : list PrintObject) (n : nat) :
  fold_left (fun total object => (total + length (instances object))%nat)
    objects n
  = (n + length (flat_map instances objects))%nat.
Proof.
  revert n. induction objects as [|o objects IH]; intros n; cbn; [lia|].
  rewrite IH, length_app. lia.
Qed.

(** X13.  When [Print::validate] returns the empty message, the job has
    objects and used extruders; with sequential printing both clearance
    checks hold; the two avoid-crossing options are not both on; in spiral
    vase mode there is at most one instance, unless printing sequentially,
    and the first object has at most one region; machine limits are not
    emitted for Klipper; every object has passed the support checks and the
    extrusion-width checks, its layer height is at most the nozzle diameter
    of every used extruder, and so is the first layer height when the object
    has no raft; and [G92 E0] is in one of the layer-change G-codes under
    relative addressing with a Marlin flavor, and in neither under absolute
    addressing. *)
Theorem validate_passes (vc : ValidateConfig) (p : Print)
    (warning warning' : option string) :
  validate' vc p warning = Returned (None, warning') ->
  let c := m_config p in
  let extruders := extruders collect_object_printing_extruders p in
  m_objects p <> [] /\ extruders <> []
  /\ (complete_objects c = true ->
      fst (horizontal_clearance_valid' false p) = true
      /\ sequential_print_vertical_clearance_valid (heights_in_print_order p)
           (scale_ SCALING_FACTOR (extruder_clearance_height vc))
         = Returned true)
  /\ avoid_crossing_perimeters vc && avoid_crossing_curled_overhangs vc = false
  /\ (spiral_vase c = true ->
      ((length (flat_map instances (m_objects p)) <= 1)%nat
       \/ complete_objects c = true)
      /\ forall front, head (m_objects p) = Some front ->
           (length (all_regions front) <= 1)%nat)
  /\ (machine_limits_emit_to_gcode vc = true -> gcode_flavor c <> gcfKlipper)
  /\ Forall (object_passes' vc p extruders) (m_objects p)
  /\ (use_relative_e_distances c = true ->
      gcode_flavor c = gcfMarlinLegacy \/ gcode_flavor c = gcfMarlinFirmware ->
      regex_search_g92e0 (before_layer_gcode vc) = true
      \/ regex_search_g92e0 (layer_gcode vc) = true)
  /\ (use_relative_e_distances c = false ->
      regex_search_g92e0 (before_layer_gcode vc) = false
      /\ regex_search_g92e0 (layer_gcode vc) = false).
Proof.
  intros H c exs. unfold validate in H. fold exs in H. fold c in H.
  scrutinee H as [] Ho; [discriminate|].
  apply bool_decide_eq_false in Ho.
  scrutinee H as [] He; [discriminate|].
  apply bool_decide_eq_false in He.
  scrutinee H as [[e|]| |] Hseq; try discriminate.
  scrutinee H as [] Hav; [discriminate|].
  scrutinee H as [e|] Hsp; [discriminate|].
  scrutinee H as [] Hml; [discriminate|].
  scrutinee H as [[e|]| |] Hmx; try discriminate.
  scrutinee H as [e|] Horg; [discriminate|].
  scrutinee H as [e|] Hwt; [discriminate|].
  scrutinee H as [w1 [e|]] Hobj; [discriminate|].
  injection H as Hreset <-.
  apply validate_objects_passes in Hobj as [Hobj _].
  split; [done|]. split; [done|]. split; [|split; [done|]].
  { intros Hc. unfold validate_sequential in Hseq. fold c in Hseq.
    rewrite Hc in Hseq.
    destruct (fst (horizontal_clearance_valid' false p)); [|discriminate].
    split; [done|]. cbn in Hseq.
    by destruct (sequential_print_vertical_clearance_valid _ _)
      as [[]| |]. }
  split.
  { intros Hs. unfold validate_spiral_vase in Hsp. fold c in Hsp.
    rewrite Hs, total_copies_count in Hsp. cbn [Nat.add] in Hsp.
    destruct (bool_decide (1 < _)%nat && _) eqn:Hn; [discriminate|].
    apply andb_false_iff in Hn. split.
    - destruct Hn as [Hn|Hn].
      + apply bool_decide_eq_false in Hn. left. lia.
      + apply negb_false_iff in Hn. by right.
    - intros front Hfront. destruct (m_objects p) as [|o os]; [done|].
      injection Hfront as ->.
      destruct (bool_decide (1 < length (all_regions front))%nat) eqn:Hr;
        [discriminate|].
      apply bool_decide_eq_false in Hr. lia. }
  split.
  { intros Hm. rewrite Hm in Hml. cbn in Hml.
    by apply bool_decide_eq_false in Hml. }
  split; [exact Hobj|].
  unfold validate_extruder_reset in Hreset. fold c in Hreset. split.
  - intros Hrel Hfl. rewrite Hrel in Hreset.
    destruct (regex_search_g92e0 (before_layer_gcode vc)); [by left|].
    destruct (regex_search_g92e0 (layer_gcode vc)); [by right|].
    destruct Hfl as [Hfl|Hfl]; rewrite Hfl in Hreset; discriminate.
  - intros Hrel. rewrite Hrel in Hreset.
    destruct (regex_search_g92e0 (before_layer_gcode vc)); [discriminate|].
    by destruct (regex_search_g92e0 (layer_gcode vc)).
Qed.
Lemma validate_object_warning (vc : ValidateConfig) (mn mx : Q) (p : Print)
    (object : PrintObject) (warning warning' : option string)
    (m : option ValidateError) :
  validate_object' vc mn mx p object warning = (warning', m) ->
  warning' = warning
  \/ (warning <> None /\ warning' = Some "_SUPPORTS_OFF"
      /\ unused_enforcers' object = true).
Proof.
  unfold validate_object. fold (unused_enforcers' object).
  destruct (validate_object_support _ _ _ _ _); [intros [= <- _]; by left|].
  set (w := match warning with Some _ => _ | None => _ end).
  intros H.
  assert (warning' = w) as ->.
  { destruct (Qgt_bool (first_layer_height vc) _); [by injection H|].
    destruct (Qgt_bool (layer_height _) _); [by injection H|].
    destruct (validate_extrusion_widths _ _); by injection H. }
  subst w. destruct warning as [text|]; [|by left].
  destruct (unused_enforcers' object); [by right|by left].
Qed.

Lemma validate_objects_warning (vc : ValidateConfig) (mn mx : Q) (p : Print)
    (objects : list PrintObject) (warning warning' : option string)
    (m : option ValidateError) :
  validate_objects' vc mn mx p objects warning = (warning', m) ->
  warning' = warning
  \/ (warning <> None /\ warning' = Some "_SUPPORTS_OFF"
      /\ exists object, object ∈ objects /\ unused_enforcers' object = true).
Proof.
  revert warning. induction objects as [|object objects IH]; intros warning.
  - intros [= <- _]. by left.
  - cbn [validate_objects].
    destruct (validate_object' _ _ _ _ object warning) as [w1 m1] eqn:Ho.
    apply validate_object_warning in Ho.
    assert (Hw1 : w1 = warning
              \/ (warning <> None /\ w1 = Some "_SUPPORTS_OFF"
                  /\ exists o, o ∈ object :: objects
                               /\ unused_enforcers' o = true)).
    { destruct Ho as [?|(? & ? & ?)]; [by left|right].
      split; [done|]. split; [done|]. exists object. split; [by left|done]. }
    destruct m1 as [e|]; [by intros [= <- _]|].
    intros H. apply IH in H as [->|(Hn & -> & o & Ho1 & Ho2)]; [done|].
    right. split.
    + destruct Hw1 as [<-|(? & _)]; done.
    + split; [done|]. exists o. split; [by right|done].
Qed.

(** X14.  [Print::validate] leaves a null [warning] null, and changes
    the text of a non-null one only to [_SUPPORTS_OFF], and only when some
    object without supports has a support enforcer.  When the message is
    empty, the text is [_SUPPORTS_OFF] exactly when there is such an
    object. *)
Theorem validate_warning (vc : ValidateConfig) (p : Print)
    (warning warning' : option string) (m : option ValidateError) :
  validate' vc p warning = Returned (m, warning') ->
  (warning' = warning
   \/ (warning <> None /\ warning' = Some "_SUPPORTS_OFF"
       /\ exists object,
            object ∈ m_objects p /\ unused_enforcers' object = true))
  /\ (m = None ->
      warning' = match warning with
                 | Some text =>
                     if existsb unused_enforcers' (m_objects p)
                     then Some "_SUPPORTS_OFF" else Some text
                 | None => None
                 end).
Proof.
  intros H. unfold validate in H.
  scrutinee H as [] Ho; [injection H as <- <-; by split; [left|]|].
  scrutinee H as [] He; [injection H as <- <-; by split; [left|]|].
  scrutinee H as [[e|]| |] Hseq;
    [injection H as <- <-; by split; [left|]| |done|done].
  scrutinee H as [] Hav; [injection H as <- <-; by split; [left|]|].
  scrutinee H as [e|] Hsp; [injection H as <- <-; by split; [left|]|].
  scrutinee H as [] Hml; [injection H as <- <-; by split; [left|]|].
  scrutinee H as [[e|]| |] Hmx;
    [injection H as <- <-; by split; [left|]| |done|done].
  scrutinee H as [e|] Horg; [injection H as <- <-; by split; [left|]|].
  scrutinee H as [e|] Hwt; [injection H as <- <-; by split; [left|]|].
  scrutinee H as [w1 [e|]] Hobj.
  - injection H as <- <-. split; [|done].
    by apply validate_objects_warning in Hobj.
  - injection H as <- <-. split.
    + by apply validate_objects_warning in Hobj.
    + intros _. by apply validate_objects_passes in Hobj as [_ ->].
Qed.
Lemma validate_max_print_height_cons (vc : ValidateConfig) (p : Print)
    (object : PrintObject) (objects : list PrintObject) (i : nat) :
  (too_high' vc p i object = false
   /\ validate_max_print_height' vc p i (object :: objects)
      = validate_max_print_height' vc p (S i) objects)
  \/ (too_high' vc p i object = true
      /\ (validate_max_print_height' vc p i (object :: objects) = OutOfBounds
          \/ validate_max_print_height' vc p i (object :: objects)
             = Returned (Some (ExceedsBuildVolumeHeight i))
          \/ validate_max_print_height' vc p i (object :: objects)
             = Returned (Some (LastLayerExceedsBuildVolumeHeight i)))).
Proof.
  cbn [validate_max_print_height]. unfold too_high.
  destruct (last _) as [back|]; [|by left].
  destruct (Qgt_bool back _); [right; split; [done|]|by left].
  destruct (_ <? 2)%nat; [by left|].
  destruct (_ !! _) as [last_but_one|]; [|by left].
  destruct (Qgt_bool _ _); auto.
Qed.

Lemma validate_max_print_height_spec (vc : ValidateConfig) (p : Print)
    (objects : list PrintObject) (i : nat) :
  match validate_max_print_height' vc p i objects with
  | Returned None =>
      forall k object, objects !! k = Some object ->
        too_high' vc p (i + k) object = false
  | Returned (Some e) =>
      exists k object,
        objects !! k = Some object /\ too_high' vc p (i + k) object = true
        /\ (e = ExceedsBuildVolumeHeight (i + k)
            \/ e = LastLayerExceedsBuildVolumeHeight (i + k))
        /\ forall j o, (j < k)%nat -> objects !! j = Some o ->
             too_high' vc p (i + j) o = false
  | _ =>
      exists k object,
        objects !! k = Some object /\ too_high' vc p (i + k) object = true
  end.
Proof.
  revert i. induction objects as [|object objects IH]; intros i.
  - cbn. intros k o Hk. by rewrite lookup_nil in Hk.
  - destruct (validate_max_print_height_cons vc p object objects i)
      as [[Hobj ->]|[Hobj Hres]].
    + specialize (IH (S i)).
      destruct (validate_max_print_height' vc p (S i) objects) as [[e|]| |].
      * destruct IH as (k & o & Hk & Ho & He & Hbefore).
        exists (S k), o. replace (i + S k)%nat with (S i + k)%nat by lia.
        split; [done|]. split; [done|]. split; [done|].
        intros [|j] o' Hj Hj'.
        -- injection Hj' as <-. by rewrite Nat.add_0_r.
        -- replace (i + S j)%nat with (S i + j)%nat by lia.
           apply Hbefore; [lia|done].
      * intros [|k] o Hk.
        -- injection Hk as <-. by rewrite Nat.add_0_r.
        -- replace (i + S k)%nat with (S i + k)%nat by lia. by apply IH.
      * destruct IH as (k & o & Hk & Ho). exists (S k), o.
        by replace (i + S k)%nat with (S i + k)%nat by lia.
      * destruct IH as (k & o & Hk & Ho). exists (S k), o.
        by replace (i + S k)%nat with (S i + k)%nat by lia.
    + destruct Hres as [-> |[-> | ->]]; exists 0%nat, object;
        rewrite ?Nat.add_0_r; [done|..]; (split; [done|]); (split; [done|]);
        (split; [auto|]); intros; lia.
Qed.

(** X16.  The loop checking the maximum print height passes exactly when
    no object has its top layer above the print volume; and the object named
    in its message is the first one whose top layer is. *)
Theorem max_print_height_names_first (vc : ValidateConfig) (p : Print) :
  let result := validate_max_print_height' vc p 0 (m_objects p) in
  (result = Returned None <->
   forall k object, m_objects p !! k = Some object ->
     too_high' vc p k object = false)
  /\ (forall e, result = Returned (Some e) ->
      exists k object,
        m_objects p !! k = Some object /\ too_high' vc p k object = true
        /\ (e = ExceedsBuildVolumeHeight k
            \/ e = LastLayerExceedsBuildVolumeHeight k)
        /\ forall j o, (j < k)%nat -> m_objects p !! j = Some o ->
             too_high' vc p j o = false).
Proof.
  intros result. subst result.
  pose proof (validate_max_print_height_spec vc p (m_objects p) 0) as H.
  cbn [Nat.add] in H.
  destruct (validate_max_print_height' vc p 0 (m_objects p)) as [[e|]| |].
  - split.
    + split; [done|]. intros Hall.
      destruct H as (k & o & Hk & Ho & _). by rewrite (Hall k o Hk) in Ho.
    + by intros e' [= <-].
  - split; [done|]. intros e' [=].
  - split; [|done]. split; [done|]. intros Hall.
    destruct H as (k & o & Hk & Ho). by rewrite (Hall k o Hk) in Ho.
  - split; [|done]. split; [done|]. intros Hall.
    destruct H as (k & o & Hk & Ho). by rewrite (Hall k o Hk) in Ho.
Qed.

End WholeValidateProofs.

Lemma validate_passes_witness :
  Forall
    (fun object =>
       forall e, e ∈ [0; 1]%nat ->
         (layer_height (config object)
          <= get_at (nozzle_diameter example_config) e)%Q)
    [example_object; example_object].
Proof.
  pose proof (validate_passes _ _ _ _ _ _ _ _ _ _ _ _ _ _ _ _ _
                example_validate_config
                (set_m_objects [example_object; example_object] example_print)
                None None
                (eq_refl : example_validate
                             (set_m_objects [example_object; example_object]
                                example_print) None
                           = Returned (None, None)))
    as (_ & _ & _ & _ & _ & _ & H & _).
  eapply Forall_impl; [exact H|]. intros object (_ & Hl & _). exact Hl.
Defined.

Lemma validate_warning_witness :
  exists object,
    object ∈ m_objects example_print /\ has_support object = false.
Proof.
  destruct (validate_warning _ _ _ _ _ _ _ _ _ _ _ _ _ _ _ _ _
              example_validate_config example_print (Some "")
              (Some "_SUPPORTS_OFF") None
              (eq_refl : example_validate example_print (Some "")
                         = Returned (None, Some "_SUPPORTS_OFF")))
    as [[Heq|(_ & _ & object & Hin & Hunused)] _]; [discriminate|].
  exists object. split; [exact Hin|].
  unfold unused_enforcers in Hunused.
  apply andb_true_iff in Hunused as [Hunused _].
  by apply negb_true_iff.
Defined.


(** *** The loops of the skirt *)

(** X17.  The number of skirt loops is the [skirts] option itself: the
    replacement of zero loops by one for an infinite skirt never applies,
    since a skirt is infinite only when [skirts] is positive. *)
Theorem n_skirts_is_the_option (p : Print) :
  (skirts (m_config p) < 2 ^ 64)%Z ->
  n_skirts p = size_t (skirts (m_config p)).
Proof.
  intros Hint. unfold n_skirts, has_infinite_skirt.
  destruct (bool_decide _); [|done]. cbn [andb].
  destruct (0 <? skirts (m_config p))%Z eqn:Hs; [|done].
  apply Z.ltb_lt in Hs. cbn [andb].
  destruct (size_t (skirts (m_config p)) =? 0)%nat eqn:Hn; [|done].
  apply Nat.eqb_eq in Hn. unfold size_t in Hn.
  rewrite Z.mod_small in Hn by lia. lia.
Qed.

Lemma n_skirts_is_the_option_witness :
  n_skirts example_print = 1%nat.
Proof.
  rewrite (n_skirts_is_the_option example_print); [reflexivity|].
  vm_compute. reflexivity.
Defined.

Section SkirtLoopProofs.
Variable offset_loop : Q -> option Points.
Variable unscaled_length : Points -> Q.
Variable split_at_first_point : Points -> Points.
Variable scaled_spacing : Q.
Variable extruders_e_per_mm : list Q.
Variable min_skirt_length : Q.
Variable canceled : nat -> bool.

Abbreviation skirt_loop' :=
  (skirt_loop offset_loop unscaled_length split_at_first_point scaled_spacing
     extruders_e_per_mm min_skirt_length canceled).
Abbreviation loop_distance' := (loop_distance scaled_spacing).
Abbreviation earlier_extruders_done' :=
  (earlier_extruders_done min_skirt_length).

Lemma loop_distance_S (st : SkirtLoops) (k : nat) (e : nat) (l : list Q)
    (s : list ExtrusionLoop) :
  loop_distance' st (S k)
  = loop_distance'
      {| distance := (distance st + scaled_spacing)%Q; extruder_idx := e;
         extruded_length := l; skirt := s |} k.
Proof.
  unfold loop_distance. cbn [distance].
  exact (Nat.iter_succ_r (S k) (fun d => (d + scaled_spacing)%Q) (distance st)).
Qed.

(** X18.  Without a minimal skirt length, a loop which is not canceled
    and whose offsets all exist makes exactly the asked number of skirt
    loops, the k-th at the initial distance plus k+1 spacings, and leaves the
    extruders alone. *)
Theorem skirt_loop_unlimited (fuel n : nat) (st : SkirtLoops) :
  (min_skirt_length <= 0)%Q ->
  (forall k, canceled k = false) ->
  (forall k, (k < n)%nat -> is_Some (offset_loop (loop_distance' st k))) ->
  (n <= fuel)%nat ->
  exists st',
    skirt_loop' fuel n st = Some (Returned st')
    /\ skirt st'
       = skirt st
         ++ map (fun k =>
                   {| polyline :=
                        split_at_first_point
                          (default [] (offset_loop (loop_distance' st k))) |})
             (seq 0 n)
    /\ extruder_idx st' = extruder_idx st
    /\ extruded_length st' = extruded_length st.
Proof.
  intros Hmin Hcancel. revert n st.
  induction fuel as [|fuel IH]; intros n st Hoffset Hfuel.
  - assert (n = 0)%nat as -> by lia. exists st. cbn. by rewrite app_nil_r.
  - destruct n as [|n]; [exists st; cbn; by rewrite app_nil_r|].
    cbn [skirt_loop]. rewrite Hcancel.
    destruct (Hoffset 0%nat ltac:(lia)) as [loop Hloop].
    change (offset_loop (distance st + scaled_spacing)%Q = Some loop) in Hloop.
    rewrite Hloop.
    assert (Qgt_bool min_skirt_length 0 = false) as ->
      by by apply Qgt_bool_false.
    set (st1 := {| distance := (distance st + scaled_spacing)%Q;
                   extruder_idx := extruder_idx st;
                   extruded_length := extruded_length st;
                   skirt := skirt st ++ [ {| polyline :=
                                               split_at_first_point loop |} ] |}).
    destruct (IH n st1) as (st' & -> & Hskirt & Hidx & Hlen); [|lia|].
    { intros k Hk. unfold st1. rewrite <- loop_distance_S.
      apply Hoffset. lia. }
    exists st'. split; [done|]. split; [|done].
    rewrite Hskirt. unfold st1 at 1. cbn [skirt seq map].
    rewrite <- app_assoc. f_equal. cbn [app]. f_equal.
    + change (loop_distance' st 0) with (distance st + scaled_spacing)%Q.
      by rewrite Hloop.
    + rewrite <- seq_shift, map_map. apply map_ext. intros k.
      by rewrite (loop_distance_S st k (extruder_idx st) (extruded_length st)
                    (skirt st1)).
Qed.
Lemma skirt_loop_0 (fuel : nat) (st : SkirtLoops) :
  skirt_loop' fuel 0 st = Some (Returned st).
Proof. by destruct fuel. Qed.

(** X19.  With a minimal skirt length, every extruder before the current
    one has extruded at least that length whenever the loop returns; and
    when it returns without having run out of offsets, it has made at least
    the asked number of loops and some extruder has extruded the minimal
    length. *)
Theorem skirt_loop_limited (fuel i : nat) (st st' : SkirtLoops) :
  (0 < min_skirt_length)%Q ->
  earlier_extruders_done' st ->
  skirt_loop' fuel i st = Some (Returned st') ->
  earlier_extruders_done' st'
  /\ (is_Some (offset_loop (distance st')) -> (0 < i)%nat ->
      (length (skirt st) + i <= length (skirt st'))%nat
      /\ exists idx extruded,
           extruded_length st' !! idx = Some extruded
           /\ (min_skirt_length <= extruded)%Q).
Proof.
  intros Hmin. revert i st.
  induction fuel as [|fuel IH]; intros i st Hdone H.
  { destruct i; [|discriminate]. injection H as <-. split; [done|lia]. }
  destruct i as [|i]; [injection H as <-; split; [done|lia]|].
  cbn [skirt_loop] in H.
  destruct (canceled _); [discriminate|].
  destruct (offset_loop (distance st + scaled_spacing)%Q) as [loop|] eqn:Hloop.
  2:{ injection H as <-. split; [exact Hdone|]. cbn [distance].
      rewrite Hloop. by intros [? ?]. }
  assert (Qgt_bool min_skirt_length 0 = true) as Hgt by by apply Qgt_bool_true.
  rewrite Hgt in H.
  destruct (extruded_length st !! extruder_idx st) as [so_far|] eqn:Hlen;
    [|discriminate].
  destruct (extruders_e_per_mm !! extruder_idx st) as [e_per_mm|];
    [|discriminate].
  set (extruded := (so_far + unscaled_length loop * e_per_mm)%Q) in H.
  pose proof (lookup_lt_Some _ _ _ Hlen) as Hidx.
  destruct (Qlt_bool extruded min_skirt_length) eqn:Henough.
  - apply IH in H as [Hdone' Hrest].
    2:{ intros idx ex Hlt. cbn [extruder_idx extruded_length] in Hlt |- *.
        rewrite list_lookup_insert_ne by lia. by apply Hdone. }
    split; [exact Hdone'|]. intros Hsome _.
    destruct Hrest as [Hcount Hex]; [exact Hsome|destruct i; cbn; lia|].
    split; [|exact Hex]. cbn [skirt] in Hcount.
    rewrite length_app in Hcount. cbn [length] in Hcount.
    destruct i; cbn in Hcount; lia.
  - assert (Hreached : (min_skirt_length <= extruded)%Q).
    { unfold Qlt_bool in Henough. apply negb_false_iff in Henough.
      by apply Qle_bool_iff. }
    destruct i as [|i].
    + rewrite skirt_loop_0 in H. injection H as <-. split.
      * intros idx ex. cbn [extruder_idx extruded_length].
        destruct (_ <? _)%nat; intros Hlt Hex.
        -- destruct (decide (idx = extruder_idx st)) as [->|Hne].
           ++ rewrite list_lookup_insert_eq in Hex by done.
              by injection Hex as <-.
           ++ rewrite list_lookup_insert_ne in Hex by done.
              apply (Hdone idx); [lia|done].
        -- rewrite list_lookup_insert_ne in Hex by lia. by apply (Hdone idx).
      * intros _ _. cbn [skirt extruded_length]. rewrite length_app. cbn.
        split; [lia|]. exists (extruder_idx st), extruded.
        by rewrite list_lookup_insert_eq.
    + apply IH in H as [Hdone' Hrest].
      2:{ intros idx ex. cbn [extruder_idx extruded_length].
          destruct (_ <? _)%nat; intros Hlt Hex.
          - destruct (decide (idx = extruder_idx st)) as [->|Hne].
            + rewrite list_lookup_insert_eq in Hex by done.
              by injection Hex as <-.
            + rewrite list_lookup_insert_ne in Hex by done.
              apply (Hdone idx); [lia|done].
          - rewrite list_lookup_insert_ne in Hex by lia.
            by apply (Hdone idx). }
      split; [exact Hdone'|]. intros Hsome _.
      destruct Hrest as [Hcount Hex]; [exact Hsome|lia|].
      split; [|exact Hex]. cbn [skirt] in Hcount.
      rewrite length_app in Hcount. cbn [length] in Hcount. lia.
Qed.
End SkirtLoopProofs.

Lemma skirt_loop_unlimited_witness :
  exists st',
    example_skirt_loop 0 2 2 = Some (Returned st')
    /\ length (skirt st') = 2%nat.
Proof.
  destruct (skirt_loop_unlimited
              (fun distance => Some [mkPoint 0 0; mkPoint 1 0; mkPoint 0 1])
              (fun _ => 100%Q) (fun polygon => polygon) 450000%Q [1; 1]%Q 0%Q
              (fun _ => false) 2 2 (skirt_start [1; 1]%Q 5550000%Q []))
    as (st' & Hrun & Hskirt & _).
  - apply Qle_refl.
  - reflexivity.
  - intros k _. by eexists.
  - lia.
  - exists st'. split; [exact Hrun|]. by rewrite Hskirt.
Defined.

Lemma skirt_loop_limited_witness :
  exists st',
    example_skirt_loop 150 5 1 = Some (Returned st')
    /\ (1 <= length (skirt st'))%nat.
Proof.
  eexists. split; [vm_compute; reflexivity|].
  refine (proj1 (proj2 (skirt_loop_limited
            (fun distance => Some [mkPoint 0 0; mkPoint 1 0; mkPoint 0 1])
            (fun _ => 100%Q) (fun polygon => polygon) 450000%Q [1; 1]%Q 150%Q
            (fun _ => false) 5 1 (skirt_start [1; 1]%Q 5550000%Q []) _
            _ _ _) _ _)).
  - reflexivity.
  - intros idx extruded Hidx. cbn in Hidx. lia.
  - vm_compute. reflexivity.
  - by eexists.
  - lia.
Defined.

(** *** The height of the skirt *)

Lemma max_coordf_le_l (a b : Q) : (a <= max_coordf a b)%Q.
Proof.
  unfold max_coordf. destruct (Qle_bool b a) eqn:H; [apply Qle_refl|].
  apply Qlt_le_weak, Qnot_le_lt. intros Hle. apply Qle_bool_iff in Hle.
  congruence.
Qed.

Lemma max_coordf_le_r (a b : Q) : (b <= max_coordf a b)%Q.
Proof.
  unfold max_coordf. destruct (Qle_bool b a) eqn:H; [|apply Qle_refl].
  by apply Qle_bool_iff.
Qed.

Lemma skirt_height_z_fold (p : Print) :
  skirt_height_z p = fold_left (skirt_height_step p) (m_objects p) (Some 0%Q).
Proof. reflexivity. Qed.

Lemma skirt_layers_le (p : Print) (object : PrintObject) :
  (skirt_layers p object <= layer_count object)%nat.
Proof. unfold skirt_layers. destruct (has_infinite_skirt p); lia. Qed.

Lemma skirt_height_fold_None (p : Print) (objects : list PrintObject) :
  fold_left (skirt_height_step p) objects None = None.
Proof. by induction objects. Qed.

Lemma skirt_height_fold_spec (p : Print) (objects : list PrintObject) (z0 : Q) :
  match fold_left (skirt_height_step p) objects (Some z0) with
  | None => exists object, object ∈ objects /\ skirt_layers p object = 0%nat
  | Some z =>
      (z0 <= z)%Q
      /\ forall object, object ∈ objects ->
           exists layer,
             (0 < skirt_layers p object)%nat
             /\ m_layers object !! (skirt_layers p object - 1)%nat = Some layer
             /\ (Layer.print_z layer <= z)%Q
  end.
Proof.
  revert z0. induction objects as [|object objects IH]; intros z0.
  - cbn. split; [apply Qle_refl|]. intros o Ho. by apply elem_of_nil in Ho.
  - cbn [fold_left]. unfold skirt_height_step at 2.
    destruct (skirt_layers p object) as [|i] eqn:Hs.
    { rewrite skirt_height_fold_None. exists object. split; [by left|done]. }
    pose proof (skirt_layers_le p object) as Hle. unfold layer_count in Hle.
    destruct (lookup_lt_is_Some_2 (m_layers object) i ltac:(lia))
      as [layer Hlayer].
    rewrite Hlayer. specialize (IH (max_coordf z0 (Layer.print_z layer))).
    destruct (fold_left _ objects _) as [z|].
    + destruct IH as [Hz Hall]. split.
      * eapply Qle_trans; [apply max_coordf_le_l|exact Hz].
      * intros o [->|Ho]%elem_of_cons; [|by apply Hall].
        exists layer. rewrite Hs. split; [lia|].
        replace (S i - 1)%nat with i by lia. split; [done|].
        eapply Qle_trans; [apply max_coordf_le_r|exact Hz].
    + destruct IH as (o & Ho & Ho'). exists o. split; [by right|done].
Qed.

(** X20.  The first loop of [Print::_make_skirt] reads a layer out of
    bounds exactly when the skirt covers no layer of some object; for a job
    with a skirt that is exactly when some object has no layers.  Otherwise
    the height it finds is not negative and not below the top skirt layer of
    any object. *)
Theorem skirt_height_out_of_bounds (p : Print) :
  (skirt_height_z p = None <->
   exists object, object ∈ m_objects p /\ skirt_layers p object = 0%nat)
  /\ (has_skirt p = true -> (skirt_height (m_config p) < 2 ^ 64)%Z ->
      (skirt_height_z p = None <->
       exists object, object ∈ m_objects p /\ m_layers object = []))
  /\ (forall z, skirt_height_z p = Some z ->
      (0 <= z)%Q
      /\ forall object, object ∈ m_objects p ->
           exists layer,
             m_layers object !! (skirt_layers p object - 1)%nat = Some layer
             /\ (Layer.print_z layer <= z)%Q).
Proof.
  rewrite skirt_height_z_fold.
  pose proof (skirt_height_fold_spec p (m_objects p) 0) as H.
  assert (Hiff : fold_left (skirt_height_step p) (m_objects p) (Some 0%Q) = None
                 <-> exists object, object ∈ m_objects p
                                    /\ skirt_layers p object = 0%nat).
  { destruct (fold_left _ _ _) as [z|]; [|done]. split; [done|].
    intros (o & Ho & Hs). destruct H as [_ H].
    destruct (H o Ho) as (_ & Hpos & _). lia. }
  split; [exact Hiff|]. split.
  - intros Hskirt Hint. rewrite Hiff. unfold has_skirt in Hskirt.
    split; intros (o & Ho & Hs); exists o; (split; [done|]).
    + unfold skirt_layers, layer_count in Hs.
      destruct (has_infinite_skirt p); [by apply length_zero_iff_nil|].
      cbn in Hskirt. rewrite orb_false_r in Hskirt.
      apply andb_true_iff in Hskirt as [Hh _]. apply Z.ltb_lt in Hh.
      unfold size_t in Hs. rewrite Z.mod_small in Hs by lia.
      apply length_zero_iff_nil. lia.
    + unfold skirt_layers, layer_count. rewrite Hs. cbn.
      destruct (has_infinite_skirt p); lia.
  - intros z Hz. rewrite Hz in H. destruct H as [H0 Hall].
    split; [exact H0|]. intros o Ho.
    destruct (Hall o Ho) as (layer & _ & Hl & Hle). by exists layer.
Qed.

(** *** Tree supports: radius and height of a branch *)

Section TreeSupportProofs.
Import FFFTreeSupport.

Lemma truncate_mono (a b : Q) :
  (a <= b)%Q -> (truncate a <= truncate b)%Z.
Proof.
  intros Hab. unfold truncate.
  destruct (Qle_bool 0 a) eqn:Ha; destruct (Qle_bool 0 b) eqn:Hb.
  - by apply Qfloor_resp_le.
  - apply Qle_bool_iff in Ha. apply not_true_iff_false in Hb.
    destruct Hb. apply Qle_bool_iff. by eapply Qle_trans.
  - apply Qle_bool_iff in Hb. apply not_true_iff_false in Ha.
    rewrite Qle_bool_iff in Ha. apply Qnot_le_lt, Qlt_le_weak in Ha.
    transitivity 0%Z.
    + change 0%Z with (Qceiling 0). by apply Qceiling_resp_le.
    + change 0%Z with (Qfloor 0). by apply Qfloor_resp_le.
  - by apply Qceiling_resp_le.
Qed.

Lemma truncate_comp (a b : Q) :
  (a == b)%Q -> truncate a = truncate b.
Proof.
  intros Hab. apply Z.le_antisymm; apply truncate_mono; rewrite Hab;
    apply Qle_refl.
Qed.

Lemma truncate_inject_Z (n : Z) : truncate (inject_Z n) = n.
Proof.
  unfold truncate.
  destruct (Qle_bool 0 (inject_Z n)); [apply Qfloor_Z|apply Qceiling_Z].
Qed.

Lemma tip_radius_bounds (config : TreeSupportSettings) (d : Z) :
  widening_tip config ->
  (0 <= d <= tip_layers config)%Z ->
  (min_radius config <= tip_radius config d
   <= branch_radius config)%Z.
Proof.
  intros (Hr & Ht & Hw) Hd. unfold tip_radius.
  set (mr := min_radius config) in *.
  set (br := branch_radius config) in *.
  set (tip := tip_layers config) in *.
  assert (0 <= (br - mr) * d / tip)%Z by (apply Z.div_pos; nia).
  assert ((br - mr) * d / tip <= br - mr)%Z.
  { apply Z.div_le_upper_bound; nia. }
  lia.
Qed.

Lemma tip_arithmetic (config : TreeSupportSettings) (d : Z) :
  widening_tip config ->
  (0 <= d <= tip_layers config)%Z ->
  to_size_t
    (to_size_t (min_radius config)
     + to_size_t
         (to_size_t
            (branch_radius config
             - min_radius config) * d)
       / tip_layers config)%Z
  = tip_radius config d.
Proof.
  intros Hc Hd. pose proof (tip_radius_bounds config d Hc Hd) as Hb.
  destruct Hc as (Hr & Ht & Hw). unfold tip_radius in *.
  set (mr := min_radius config) in *.
  set (br := branch_radius config) in *.
  set (tip := tip_layers config) in *.
  unfold to_size_t.
  assert (Hbr : (br < 2 ^ 64)%Z) by nia.
  rewrite (Z.mod_small (br - mr)) by lia.
  rewrite (Z.mod_small ((br - mr) * d)) by nia.
  rewrite (Z.mod_small mr) by lia.
  apply Z.mod_small. lia.
Qed.

Lemma double_to_coord_t_Some (coord_t_max : Z) (v : Q) (r : Z) :
  double_to_coord_t coord_t_max v = Some r
  <-> r = truncate v /\ (- coord_t_max - 1 <= r <= coord_t_max)%Z.
Proof.
  unfold double_to_coord_t.
  destruct (Z.leb_spec (- coord_t_max - 1) (truncate v));
    destruct (Z.leb_spec (truncate v) coord_t_max); cbn [andb];
    split; try (intros [= <-]; split; [done|lia]); try discriminate;
    intros [-> ?]; (done || lia).
Qed.

Lemma double_to_coord_t_inject (coord_t_max n : Z) :
  (- coord_t_max - 1 <= n <= coord_t_max)%Z ->
  double_to_coord_t coord_t_max (inject_Z n) = Some n.
Proof.
  intros H. apply double_to_coord_t_Some. by rewrite truncate_inject_Z.
Qed.

(** Below a [double] which converts, a [double] which is not below the
    smallest [coord_t] converts, to a value which is not larger. *)
Lemma double_to_coord_t_mono (coord_t_max : Z) (a b : Q) (rb : Z) :
  (a <= b)%Q -> (- coord_t_max - 1 <= truncate a)%Z ->
  double_to_coord_t coord_t_max b = Some rb ->
  exists ra, double_to_coord_t coord_t_max a = Some ra /\ (ra <= rb)%Z.
Proof.
  intros Hab Hlow Hb. apply double_to_coord_t_Some in Hb as [-> Hb].
  pose proof (truncate_mono a b Hab) as Hm.
  exists (truncate a). split; [|done].
  apply double_to_coord_t_Some. split; [done|lia].
Qed.

Lemma getRadius_eq (coord_t_max : Z) (config : TreeSupportSettings) (d : Z)
    (e : Q) :
  widening_tip config -> (0 <= d)%Z ->
  getRadius coord_t_max config d e
  = double_to_coord_t coord_t_max (radius_as_double config d e).
Proof.
  intros Hc Hd. unfold getRadius, radius_as_double.
  destruct (Z.leb_spec d (tip_layers config)); [|done].
  destruct (Z.eqb_spec (tip_layers config) 0).
  { destruct Hc as (_ & ? & _). lia. }
  by rewrite tip_arithmetic.
Qed.

Lemma tip_radius_mono (config : TreeSupportSettings) (d1 d2 : Z) :
  widening_tip config -> (0 <= d1 <= d2)%Z ->
  (tip_radius config d1 <= tip_radius config d2)%Z.
Proof.
  intros (Hr & Ht & _) Hd. unfold tip_radius.
  apply Z.add_le_mono_l, Z.div_le_mono; [done|].
  apply Z.mul_le_mono_nonneg_l; lia.
Qed.

Lemma max_coordf_nonneg (a : Q) : (0 <= max_coordf a 0)%Q.
Proof. apply max_coordf_le_r. Qed.

Lemma radius_as_double_mono (config : TreeSupportSettings) (d1 d2 : Z)
    (e1 e2 : Q) :
  widening_tip config ->
  (0 <= branch_radius_increase_per_layer config)%Q ->
  (0 <= d1 <= d2)%Z -> (e1 <= e2)%Q ->
  (radius_as_double config d1 e1 <= radius_as_double config d2 e2)%Q.
Proof.
  intros Hc Hincr Hd He. unfold radius_as_double.
  apply Qplus_le_compat;
    [|apply Qmult_le_compat_r; [done|apply max_coordf_nonneg]].
  destruct (Z.leb_spec d2 (tip_layers config)) as [H2|H2].
  - destruct (Z.leb_spec d1 (tip_layers config)); [|lia].
    rewrite <- Zle_Qle. by apply tip_radius_mono.
  - assert (Hbase : (0 <= inject_Z (d2 - tip_layers config)
                          * branch_radius_increase_per_layer config)%Q).
    { apply Qmult_le_0_compat; [|done].
      change 0%Q with (inject_Z 0). rewrite <- Zle_Qle. lia. }
    destruct (Z.leb_spec d1 (tip_layers config)) as [H1|H1].
    + pose proof (tip_radius_bounds config d1 Hc ltac:(lia)) as [_ Hb].
      rewrite Zle_Qle in Hb. lra.
    + apply Qplus_le_r, Qmult_le_compat_r; [|done].
      rewrite <- Zle_Qle. lia.
Qed.

Lemma radius_as_double_lower (config : TreeSupportSettings) (d : Z) (e : Q) :
  widening_tip config ->
  (0 <= branch_radius_increase_per_layer config)%Q ->
  (0 <= d)%Z -> (0 <= e)%Q ->
  (inject_Z (min_radius config) <= radius_as_double config d e)%Q.
Proof.
  intros Hc Hincr Hd He.
  assert (H0 : (radius_as_double config 0 0 == inject_Z (min_radius config))%Q).
  { unfold radius_as_double. destruct Hc as (_ & Ht & _).
    destruct (Z.leb_spec 0 (tip_layers config)); [|lia].
    unfold tip_radius. rewrite Z.mul_0_r, Z.div_0_l, Z.add_0_r by lia. ring. }
  rewrite <- H0. apply radius_as_double_mono; (done || lia).
Qed.

(** The radius at a smaller distance, when the one at a larger distance is
    a [coord_t]. *)
Lemma getRadius_mono (coord_t_max : Z) (config : TreeSupportSettings)
    (d1 d2 : Z) (e1 e2 : Q) (r2 : Z) :
  widening_tip config ->
  (0 <= branch_radius_increase_per_layer config)%Q ->
  (0 <= d1 <= d2)%Z -> (0 <= e1 <= e2)%Q ->
  getRadius coord_t_max config d2 e2 = Some r2 ->
  exists r1,
    getRadius coord_t_max config d1 e1 = Some r1
    /\ (min_radius config <= r1 <= r2)%Z.
Proof.
  intros Hc Hincr Hd He H2.
  rewrite getRadius_eq in H2 |- * by (done || lia).
  pose proof (radius_as_double_mono config d1 d2 e1 e2 Hc Hincr Hd
                (proj2 He)) as Hm.
  pose proof (radius_as_double_lower config d1 e1 Hc Hincr (proj1 Hd)
                (proj1 He)) as Hl.
  apply truncate_mono in Hl. rewrite truncate_inject_Z in Hl.
  pose proof (truncate_mono _ _ Hm) as Ht.
  pose proof (proj1 (double_to_coord_t_Some _ _ _) H2) as [E2 Hr2].
  destruct Hc as ((Hmin & _) & _).
  destruct (double_to_coord_t_mono coord_t_max _ _ r2 Hm ltac:(lia) H2)
    as (r1 & H1 & H12).
  exists r1. split; [done|].
  apply double_to_coord_t_Some in H1 as [-> _]. lia.
Qed.

(** X21.  In the tip of a branch which widens, with a [branch_radius]
    which is a [coord_t], [getRadius] without elephant foot is the integer
    interpolation between [min_radius] and [branch_radius]: it lies between
    the two, is [min_radius] at distance 0 and [branch_radius] at distance
    [tip_layers]. *)
Theorem getRadius_in_the_tip (coord_t_max : Z) (config : TreeSupportSettings)
    (d : Z) :
  widening_tip config ->
  (branch_radius config <= coord_t_max)%Z ->
  (0 <= d <= tip_layers config)%Z ->
  getRadius coord_t_max config d 0 = Some (tip_radius config d)
  /\ (min_radius config <= tip_radius config d <= branch_radius config)%Z
  /\ tip_radius config 0 = min_radius config
  /\ tip_radius config (tip_layers config) = branch_radius config.
Proof.
  intros Hc Hmax Hd.
  pose proof (tip_radius_bounds config d Hc Hd) as Hb.
  split; [|split; [done|]].
  - rewrite getRadius_eq by (done || lia). unfold radius_as_double.
    destruct (Z.leb_spec d (tip_layers config)); [|lia].
    apply double_to_coord_t_Some. split.
    + rewrite <- (truncate_inject_Z (tip_radius config d)) at 1.
      apply truncate_comp. ring.
    + destruct Hc as ((? & ?) & _). lia.
  - destruct Hc as (_ & Ht & _). unfold tip_radius. split.
    + rewrite Z.mul_0_r, Z.div_0_l by lia. lia.
    + rewrite Z.div_mul by lia. lia.
Qed.

(** X22.  For a tip which widens, a branch radius which does not shrink
    per layer and elephant foot increases which are not negative: when
    [getRadius] at a distance to the top and a number of increases is a
    [coord_t], it is one at every smaller distance and smaller number of
    increases as well, there at least [min_radius] and not larger, also
    across the end of the tip. *)
Theorem getRadius_is_monotone (coord_t_max : Z) (config : TreeSupportSettings)
    (d1 d2 : Z) (e1 e2 : Q) (r2 : Z) :
  widening_tip config ->
  (0 <= branch_radius_increase_per_layer config)%Q ->
  (0 <= d1 <= d2)%Z -> (0 <= e1 <= e2)%Q ->
  getRadius coord_t_max config d2 e2 = Some r2 ->
  (r2 <= coord_t_max)%Z
  /\ exists r1,
       getRadius coord_t_max config d1 e1 = Some r1
       /\ (min_radius config <= r1 <= r2)%Z.
Proof.
  intros Hc Hincr Hd He H2. split.
  - rewrite getRadius_eq in H2 by (done || lia).
    apply double_to_coord_t_Some in H2. lia.
  - by apply (getRadius_mono coord_t_max config d1 d2 e1 e2).
Qed.

(** X23.  For an element whose effective radius height is at most its
    distance to the top and whose elephant foot increases are not
    negative, in a tip which widens: when the radius of the element is a
    [coord_t], so is its collision radius, which is at most the radius. *)
Theorem collision_radius_le_radius (coord_t_max : Z)
    (config : TreeSupportSettings) (elem : SupportElementState) (radius : Z) :
  widening_tip config ->
  (0 <= branch_radius_increase_per_layer config)%Q ->
  (0 <= effective_radius_height elem <= distance_to_top elem)%Z ->
  (0 <= elephant_foot_increases elem)%Q ->
  getRadius_of coord_t_max config elem = Some radius ->
  (radius <= coord_t_max)%Z
  /\ exists collision_radius,
       getCollisionRadius coord_t_max config elem = Some collision_radius
       /\ (collision_radius <= radius)%Z.
Proof.
  intros Hc Hincr He Hf Hr. unfold getCollisionRadius, getRadius_of in *.
  assert (Hd : (0 <= effective_radius_height elem
                <= getEffectiveDTT config elem)%Z).
  { unfold getEffectiveDTT.
    destruct (Z.ltb_spec (effective_radius_height elem)
                (increase_radius_until_layer config));
      [destruct (Z.ltb_spec (distance_to_top elem)
                   (increase_radius_until_layer config))|]; lia. }
  split.
  - rewrite getRadius_eq in Hr by (done || lia).
    apply double_to_coord_t_Some in Hr. lia.
  - destruct (getRadius_mono coord_t_max config _ _
                (elephant_foot_increases elem) (elephant_foot_increases elem)
                radius Hc Hincr Hd) as (r1 & H1 & H12); [|done|].
    + split; [done|apply Qle_refl].
    + exists r1. split; [done|lia].
Qed.

(** X24.  With at least one known layer, [getActualZ] returns the known
    z of a layer, and for every layer above the known ones the z of the last
    known layer: the layer height adds nothing. *)
Theorem getActualZ_never_extrapolates (to_coord_t : Z -> Z)
    (config : TreeSupportSettings) (layer_idx back : Z) :
  last (known_z config) = Some back ->
  to_coord_t (Z.of_nat (length (known_z config)))
  = Z.of_nat (length (known_z config)) ->
  (0 <= layer_idx)%Z -> (0 <= layer_height config)%Z ->
  ((layer_idx + 1) * (layer_height config + 1) < 2 ^ 64)%Z ->
  getActualZ to_coord_t config layer_idx
  = Returned (default back (known_z config !! Z.to_nat layer_idx)).
Proof.
  intros Hback Hcoord Hidx Hlh Hwrap. unfold getActualZ. rewrite Hcoord, Hback.
  set (size := Z.of_nat (length (known_z config))).
  assert (Hsize : (0 < size)%Z).
  { unfold size. destruct (known_z config); [discriminate|]. cbn. lia. }
  assert (Hsmall : to_size_t layer_idx = layer_idx).
  { unfold to_size_t. apply Z.mod_small. nia. }
  rewrite Hsmall. destruct (Z.ltb_spec layer_idx size) as [Hlt|Hge].
  - destruct (lookup_lt_is_Some_2 (known_z config) (Z.to_nat layer_idx))
      as [z Hz]; [unfold size in Hlt; lia|].
    by rewrite Hz.
  - rewrite (lookup_ge_None_2 (known_z config) (Z.to_nat layer_idx))
      by (unfold size in Hge; lia).
    cbn [default]. unfold to_size_t.
    rewrite (Z.mod_small (layer_idx - size)) by nia.
    rewrite (Z.mod_small (layer_height config)) by nia.
    rewrite (Z.mod_small ((layer_idx - size) * layer_height config + size))
      by nia.
    destruct (Z.eqb_spec ((layer_idx - size) * layer_height config + size) 0);
      [nia|done].
Qed.

(** X25.  Propagating an element down n layers keeps the sum of its
    layer index and its distance to the top, which is the layer of the top of
    its branch, and keeps its effective radius height and its elephant foot
    increases; afterwards the element is locked exactly when its distance to
    the top plus n is below [dont_move_until], and its result on the layer
    is unset. *)
Theorem propagate_down_keeps_the_top (coord_t_max : Z) (n : nat)
    (src : SupportElementState) :
  (0 <= distance_to_top src)%Z ->
  (distance_to_top src + Z.of_nat n < 2 ^ 32)%Z ->
  let dst := Nat.iter n (propagate_down coord_t_max) src in
  (layer_idx dst + distance_to_top dst
   = layer_idx src + distance_to_top src)%Z
  /\ distance_to_top dst = (distance_to_top src + Z.of_nat n)%Z
  /\ (locked dst = true <->
      (distance_to_top src + Z.of_nat n < dont_move_until src)%Z)
  /\ effective_radius_height dst = effective_radius_height src
  /\ elephant_foot_increases dst = elephant_foot_increases src
  /\ ((0 < n)%nat -> result_on_layer_is_set coord_t_max dst = false).
Proof.
  intros H0 Hn dst.
  assert (H : layer_idx dst = (layer_idx src - Z.of_nat n)%Z
              /\ distance_to_top dst = (distance_to_top src + Z.of_nat n)%Z
              /\ dont_move_until dst = dont_move_until src
              /\ effective_radius_height dst = effective_radius_height src
              /\ elephant_foot_increases dst = elephant_foot_increases src
              /\ ((0 < n)%nat ->
                  result_on_layer_is_set coord_t_max dst = false)).
  { subst dst. induction n as [|n IH].
    - cbn. repeat split; try lia.
    - destruct IH as (Hl & Hd & Hm & He & Hf & _); [lia|].
      rewrite Nat.iter_succ.
      set (mid := Nat.iter n (propagate_down coord_t_max) src) in *.
      cbn [propagate_down layer_idx distance_to_top dont_move_until
           effective_radius_height elephant_foot_increases].
      split; [lia|]. split.
      { unfold to_uint32_t. rewrite Z.mod_small by lia. lia. }
      split; [done|]. split; [done|]. split; [done|]. intros _.
      unfold result_on_layer_is_set, propagate_down, result_on_layer_unset.
      cbn. by rewrite !bool_decide_eq_true_2. }
  destruct H as (Hl & Hd & Hm & He & Hf & Hr).
  split; [lia|]. split; [done|]. split; [|done].
  unfold locked. rewrite Z.ltb_lt, Hd, Hm. done.
Qed.

(** X26.  With a [coord_t] which holds 0 and a [branch_radius] which is a
    [coord_t]: [recommendedMinRadius] is 0 from layer [layer_start_bp_radius] upwards;
    below it, when the radius increase per layer is not negative and the
    value at a layer is a [coord_t], the value at every layer above it
    (below [layer_start_bp_radius]) is a [coord_t] as well, at least
    [branch_radius] and not larger: the radius does not decrease towards
    the build plate. *)
Theorem recommendedMinRadius_widens_downwards (coord_t_max : Z)
    (config : TreeSupportSettings) :
  (0 <= coord_t_max)%Z ->
  (- coord_t_max - 1 <= branch_radius config)%Z ->
  (forall layer_idx, (layer_start_bp_radius config <= layer_idx)%Z ->
     recommendedMinRadius coord_t_max config layer_idx = Some 0%Z)
  /\ ((0 <= bp_radius_increase_per_layer config)%Q ->
      forall lower upper r_lower,
        (lower <= upper < layer_start_bp_radius config)%Z ->
        recommendedMinRadius coord_t_max config lower = Some r_lower ->
        exists r_upper,
          recommendedMinRadius coord_t_max config upper = Some r_upper
          /\ (branch_radius config <= r_upper <= r_lower)%Z
          /\ (r_lower <= coord_t_max)%Z).
Proof.
  intros HM Hbr. split.
  - intros idx Hidx. unfold recommendedMinRadius.
    assert (Qgt_bool (inject_Z (layer_start_bp_radius config - idx)) 0 = false)
      as ->.
    { apply Qgt_bool_false. change 0%Q with (inject_Z 0).
      rewrite <- Zle_Qle. lia. }
    change 0%Q with (inject_Z 0). apply double_to_coord_t_inject. lia.
  - intros Hincr lower upper r_lower Hlu. unfold recommendedMinRadius.
    assert (Hpos : forall idx, (idx < layer_start_bp_radius config)%Z ->
              Qgt_bool (inject_Z (layer_start_bp_radius config - idx)) 0
              = true).
    { intros idx Hidx. apply Qgt_bool_true. change 0%Q with (inject_Z 0).
      rewrite <- Zlt_Qlt. lia. }
    rewrite !Hpos by lia. intros Hl.
    set (v := fun idx =>
           (inject_Z (branch_radius config)
            + inject_Z (layer_start_bp_radius config - idx)
              * bp_radius_increase_per_layer config)%Q) in *.
    assert (Hb : (branch_radius config <= truncate (v upper))%Z).
    { rewrite <- (truncate_inject_Z (branch_radius config)) at 1.
      apply truncate_mono. unfold v.
      assert (0 <= inject_Z (layer_start_bp_radius config - upper)
                   * bp_radius_increase_per_layer config)%Q; [|lra].
      apply Qmult_le_0_compat; [|done].
      change 0%Q with (inject_Z 0). rewrite <- Zle_Qle. lia. }
    assert (Hv : (v upper <= v lower)%Q).
    { unfold v. apply Qplus_le_r, Qmult_le_compat_r; [|done].
      rewrite <- Zle_Qle. lia. }
    destruct (double_to_coord_t_mono coord_t_max _ _ r_lower Hv ltac:(lia) Hl)
      as (r_upper & Hu & Hle).
    exists r_upper. split; [done|].
    apply double_to_coord_t_Some in Hu as [-> _].
    apply double_to_coord_t_Some in Hl as [_ ?]. lia.
Qed.

(** Where the radius is no [coord_t]: the conversion is not defined. *)
Lemma getRadius_beyond_coord_t :
  getRadius (2 ^ 31 - 1) example_tree_settings 71526 0 = Some 2147480000%Z
  /\ getRadius (2 ^ 31 - 1) example_tree_settings 71527 0 = None
  /\ getCollisionRadius (2 ^ 31 - 1) long_tree_settings deep_element
     = Some 915000%Z
  /\ getRadius_of (2 ^ 31 - 1) long_tree_settings deep_element = None
  /\ recommendedMinRadius (2 ^ 31 - 1) long_tree_settings 0 = None.
Proof. repeat split; vm_compute; reflexivity. Qed.
End TreeSupportProofs.

Lemma example_widening_tip : FFFTreeSupport.widening_tip example_tree_settings.
Proof. unfold FFFTreeSupport.widening_tip. cbn. lia. Qed.

Lemma getRadius_in_the_tip_witness :
  FFFTreeSupport.getRadius (2 ^ 31 - 1) example_tree_settings 5 0
  = Some 1200000%Z.
Proof.
  apply (getRadius_in_the_tip (2 ^ 31 - 1) example_tree_settings 5
           example_widening_tip).
  - cbn. lia.
  - cbn. lia.
Defined.

Lemma getRadius_is_monotone_witness :
  exists r1,
    FFFTreeSupport.getRadius (2 ^ 31 - 1) example_tree_settings 5 0 = Some r1
    /\ (400000 <= r1 <= 2185000)%Z.
Proof.
  refine (proj2 (getRadius_is_monotone (2 ^ 31 - 1) example_tree_settings
                   5 15 0 0.5 2185000 example_widening_tip _ _ _ _)).
  - vm_compute. discriminate.
  - lia.
  - split; vm_compute; discriminate.
  - vm_compute. reflexivity.
Defined.

Lemma collision_radius_le_radius_witness :
  exists collision_radius,
    FFFTreeSupport.getCollisionRadius (2 ^ 31 - 1) example_tree_settings
      example_element
    = Some collision_radius
    /\ (collision_radius <= 1235000)%Z.
Proof.
  refine (proj2 (collision_radius_le_radius (2 ^ 31 - 1)
                   example_tree_settings example_element 1235000
                   example_widening_tip _ _ _ _)).
  - vm_compute. discriminate.
  - cbn. lia.
  - vm_compute. discriminate.
  - vm_compute. reflexivity.
Defined.

Lemma recommendedMinRadius_widens_downwards_witness :
  exists r_upper,
    FFFTreeSupport.recommendedMinRadius (2 ^ 31 - 1) example_tree_settings 20
    = Some r_upper
    /\ (2000000 <= r_upper <= 6000000)%Z /\ (6000000 <= 2 ^ 31 - 1)%Z.
Proof.
  refine (proj2 (recommendedMinRadius_widens_downwards (2 ^ 31 - 1)
                   example_tree_settings _ _) _ 10%Z 20%Z 6000000%Z _ _).
  - lia.
  - cbn. lia.
  - vm_compute. discriminate.
  - cbn. lia.
  - vm_compute. reflexivity.
Defined.

Lemma getActualZ_never_extrapolates_witness :
  FFFTreeSupport.getActualZ (fun v => ((v + 2 ^ 31) mod 2 ^ 32 - 2 ^ 31)%Z)
    example_tree_settings 7
  = Returned 600000%Z.
Proof.
  apply (getActualZ_never_extrapolates
           (fun v => ((v + 2 ^ 31) mod 2 ^ 32 - 2 ^ 31)%Z)
           example_tree_settings 7 600000).
  - reflexivity.
  - reflexivity.
  - lia.
  - cbn. lia.
  - cbn. lia.
Defined.

Lemma propagate_down_keeps_the_top_witness :
  FFFTreeSupport.locked
    (Nat.iter 3 (FFFTreeSupport.propagate_down (2 ^ 31 - 1)) example_element)
  = true
  <-> (5 + 3 < 8)%Z.
Proof.
  refine (proj1 (proj2 (proj2 (propagate_down_keeps_the_top (2 ^ 31 - 1) 3
                                 example_element _ _)))).
  - cbn. lia.
  - cbn. lia.
Defined.

(** *** Emboss: the model of a shape *)

Section EmbossProofs.
Import Emboss.

Lemma to_uint32_t_small (v : Z) : (0 <= v < 2 ^ 32)%Z -> to_uint32_t v = v.
Proof. intros H. unfold to_uint32_t. by apply Z.mod_small. Qed.

Lemma to_int_small (v : Z) : (0 <= v < 2 ^ 31)%Z -> to_int v = v.
Proof. intros H. unfold to_int. rewrite Z.mod_small; lia. Qed.

Lemma to_size_t_small (v : Z) : (0 <= v < 2 ^ 64)%Z -> to_size_t v = v.
Proof. intros H. unfold to_size_t. by apply Z.mod_small. Qed.

Lemma quads_around_length (n o m p : Z) (todo : nat) :
  length (quads_around n o m p todo) = (2 * todo)%nat.
Proof.
  revert p. induction todo as [|todo IH]; intros p; [done|].
  cbn [quads_around length]. rewrite IH. lia.
Qed.

Lemma quads_around_valid (n o m p : Z) (todo : nat) :
  (0 <= o)%Z -> (o + m <= n)%Z -> (2 * n < 2 ^ 31)%Z ->
  (0 <= p)%Z -> (p + Z.of_nat todo = m)%Z ->
  Forall (valid_triangle (2 * n)) (quads_around n o m p todo).
Proof.
  intros Ho Hm Hn. revert p. induction todo as [|todo IH]; intros p Hp Hpm;
    [constructor|].
  cbn [quads_around].
  rewrite (to_uint32_t_small (o + p)) by lia.
  assert (Hip : exists ip, (0 <= ip < n)%Z
            /\ (if (p =? 0)%Z then to_uint32_t (o + m - 1)
                else to_uint32_t (o + p - 1)) = ip).
  { destruct (Z.eqb_spec p 0).
    - exists (o + m - 1)%Z. split; [lia|]. apply to_uint32_t_small. lia.
    - exists (o + p - 1)%Z. split; [lia|]. apply to_uint32_t_small. lia. }
  destruct Hip as (ip & Hip & ->).
  rewrite (to_uint32_t_small (o + p + n)), (to_uint32_t_small (ip + n)),
    (to_uint32_t_small (p + 1)) by lia.
  rewrite !to_int_small by lia.
  constructor; [|constructor; [|apply IH; lia]];
    unfold valid_triangle; cbn; lia.
Qed.

Lemma all_quads_around_length (n o : Z) (shape2d : list Points) :
  (Z.of_nat (length (concat shape2d)) < 2 ^ 32)%Z ->
  length (all_quads_around n o shape2d) = (2 * length (concat shape2d))%nat.
Proof.
  revert o. induction shape2d as [|polygon rest IH]; intros o Hlen; [done|].
  cbn [all_quads_around concat] in *. rewrite length_app in *.
  rewrite quads_around_length, IH by lia.
  rewrite to_uint32_t_small by lia. rewrite ?length_app. lia.
Qed.

Lemma all_quads_around_valid (n o : Z) (shape2d : list Points) :
  (0 <= o)%Z -> (o + Z.of_nat (length (concat shape2d)) <= n)%Z ->
  (2 * n < 2 ^ 31)%Z ->
  Forall (valid_triangle (2 * n)) (all_quads_around n o shape2d).
Proof.
  intros Ho Hlen Hn. revert o Ho Hlen.
  induction shape2d as [|polygon rest IH]; intros o Ho Hlen; [constructor|].
  cbn [all_quads_around concat] in *. rewrite length_app in Hlen.
  rewrite to_uint32_t_small by lia. apply Forall_app. split.
  - apply quads_around_valid; lia.
  - rewrite to_size_t_small by lia. apply IH; lia.
Qed.

Lemma lookup_map {A B} (f : A -> B) (l : list A) (k : nat) :
  map f l !! k = option_map f (l !! k).
Proof.
  revert k. induction l as [|a l IH]; intros [|k]; cbn; auto.
Qed.

Lemma flat_map_map_concat {A B} (f : A -> B) (ls : list (list A)) :
  flat_map (fun l => map f l) ls = map f (concat ls).
Proof.
  induction ls as [|l ls IH]; [done|]. cbn. by rewrite IH, map_app.
Qed.

Section Polygons2ModelProofs.
Variable count_points : list Points -> nat.
Variable triangulate : list Points -> list Vec3i.
Context {Projection : Type} `{IProject Projection}.

(** X27.  For a shape whose doubled number of points fits an [int],
    the model made by [Emboss::polygons2model] has two vertices for every
    point of the shape, the front one at the index of the point and the back
    one as many places later as there are points; it has two triangles for
    every triangle of the shape and two for every point; and when the
    triangles of the shape name points of the shape, every triangle of the
    model names vertices of the model. *)
Theorem polygons2model_is_well_formed (shape2d : list Points)
    (projection : Projection) :
  (forall polygons, count_points polygons = length (concat polygons)) ->
  (2 * Z.of_nat (count_points shape2d) < 2 ^ 31)%Z ->
  let model := polygons2model count_points triangulate shape2d projection in
  let n := count_points shape2d in
  length (vertices model) = (2 * n)%nat
  /\ (forall k pt, concat shape2d !! k = Some pt ->
        vertices model !! k = Some (fst (project projection pt))
        /\ vertices model !! (n + k)%nat
           = Some (snd (project projection pt)))
  /\ length (indices model)
     = (2 * length (triangulate shape2d) + 2 * n)%nat
  /\ (Forall (valid_triangle (Z.of_nat n)) (triangulate shape2d) ->
      Forall (valid_triangle (2 * Z.of_nat n)) (indices model)).
Proof.
  intros Hcount Hfits model n. subst model n.
  unfold polygons2model. cbn [vertices indices].
  rewrite flat_map_map_concat. rewrite !Hcount in *.
  set (pts := concat shape2d) in *. split; [|split; [|split]].
  - rewrite length_app, !length_map. lia.
  - intros k pt Hk. pose proof (lookup_lt_Some _ _ _ Hk) as Hlt. split.
    + rewrite lookup_app_l by (rewrite !length_map; lia).
      by rewrite !lookup_map, Hk.
    + rewrite lookup_app_r by (rewrite !length_map; lia).
      rewrite !length_map. replace (length pts + k - length pts)%nat with k
        by lia.
      by rewrite !lookup_map, Hk.
  - rewrite !length_app, !length_map, all_quads_around_length by (fold pts; lia).
    fold pts. lia.
  - intros Hvalid. apply Forall_app. split; [|apply Forall_app; split].
    + apply Forall_forall. intros t Ht. apply list_elem_of_In, in_map_iff in Ht.
      destruct Ht as (t0 & <- & Ht0). rewrite Forall_forall in Hvalid.
      apply list_elem_of_In, Hvalid in Ht0. unfold valid_triangle in *.
      cbn. lia.
    + apply Forall_forall. intros t Ht. apply list_elem_of_In, in_map_iff in Ht.
      destruct Ht as (t0 & <- & Ht0). rewrite Forall_forall in Hvalid.
      apply list_elem_of_In, Hvalid in Ht0. unfold valid_triangle in *.
      cbn. rewrite !to_size_t_small, !to_int_small by lia. lia.
    + apply all_quads_around_valid; fold pts; lia.
Qed.
End Polygons2ModelProofs.

Lemma chain_edges_spec (o i : Z) (todo : nat) (edges : HalfEdges) (a b : Z) :
  (0 <= o)%Z -> (1 <= i)%Z -> (o + i + Z.of_nat todo < 2 ^ 32 + 1)%Z ->
  (a, b) ∈ chain_edges o i todo edges <->
  (a, b) ∈ edges
  \/ exists j, (i <= j < i + Z.of_nat todo)%Z
               /\ a = (o + j - 1)%Z /\ b = (o + j)%Z.
Proof.
  intros Ho. revert i edges. induction todo as [|todo IH]; intros i edges Hi Hw.
  - cbn. split; [by left|]. intros [?|(j & ? & _)]; [done|lia].
  - cbn [chain_edges]. rewrite (to_uint32_t_small (i + o)) by lia.
    rewrite (to_uint32_t_small (i + o - 1)) by lia.
    destruct todo as [|todo'].
    + cbn [chain_edges]. rewrite elem_of_union, elem_of_singleton. split.
      * intros [[= -> ->]|?]; [right; exists i; lia|by left].
      * intros [?|(j & Hj & -> & ->)]; [by right|left].
        replace j with i by lia. f_equal; lia.
    + rewrite (to_uint32_t_small (i + 1)) by lia.
      rewrite IH by lia. rewrite elem_of_union, elem_of_singleton. split.
      * intros [[[= -> ->]|?]|(j & Hj & -> & ->)].
        -- right. exists i. lia.
        -- by left.
        -- right. exists j. lia.
      * intros [?|(j & Hj & -> & ->)]; [by left; right|].
        destruct (decide (j = i)) as [->|Hne].
        -- left. left. f_equal; lia.
        -- right. exists j. lia.
Qed.

Lemma polygons_edges_spec (polygons : list Points) (o : Z)
    (edges : HalfEdges) (e : Z * Z) :
  (0 <= o)%Z -> (o + Z.of_nat (length (concat polygons)) < 2 ^ 32)%Z ->
  Forall (fun pts => pts <> []) polygons ->
  e ∈ polygons_edges o polygons edges <->
  e ∈ edges
  \/ exists k pts j,
       polygons !! k = Some pts /\ (j < length pts)%nat
       /\ e = edge_into (o + first_index polygons k) (length pts) j.
Proof.
  revert o edges. induction polygons as [|pts rest IH];
    intros o edges Ho Hw Hne.
  - cbn. split; [by left|]. intros [?|(k & ? & ? & Hk & _)]; [done|].
    by rewrite lookup_nil in Hk.
  - apply Forall_cons in Hne as [Hpts Hne].
    cbn [polygons_edges concat] in *. rewrite length_app in Hw.
    assert (Hlen : (0 < length pts)%nat) by (destruct pts; [done|cbn; lia]).
    rewrite (to_uint32_t_small (Z.of_nat (length pts))) by lia.
    rewrite (to_uint32_t_small (o + Z.of_nat (length pts) - 1)) by lia.
    rewrite (to_uint32_t_small (o + Z.of_nat (length pts))) by lia.
    rewrite IH by (done || lia).
    rewrite elem_of_union, elem_of_singleton.
    destruct e as [a b]. rewrite chain_edges_spec by lia. split.
    + intros [[[= -> ->]|[?|(j & Hj & -> & ->)]]|(k & pts' & j & Hk & Hj & ->)].
      * right. exists 0%nat, pts, 0%nat. split; [done|]. split; [done|].
        unfold edge_into, first_index. cbn. f_equal; lia.
      * by left.
      * right. exists 0%nat, pts, (Z.to_nat j). split; [done|]. split; [lia|].
        unfold edge_into, first_index. cbn [take concat length].
        destruct (Nat.eqb_spec (Z.to_nat j) 0); [lia|]. f_equal; lia.
      * right. exists (S k), pts', j. split; [done|]. split; [done|].
        unfold edge_into, first_index. cbn [take concat].
        rewrite length_app. f_equal; lia.
    + intros [?|(k & pts' & j & Hk & Hj & He)]; [by left; right; left|].
      destruct k as [|k].
      * injection Hk as <-. left. unfold edge_into, first_index in He.
        cbn [take concat length] in He.
        destruct (Nat.eqb_spec j 0) as [Hj0|Hj0].
        -- left. rewrite He. f_equal; lia.
        -- right. right. exists (Z.of_nat j). split; [lia|].
           injection He as -> ->. lia.
      * right. exists k, pts', j. split; [done|]. split; [done|].
        rewrite He. unfold edge_into, first_index. cbn [take concat].
        rewrite length_app. f_equal; lia.
Qed.

(** X28.  For non-empty polygons with fewer than 2^32 points in all, the
    edges which [Emboss::triangulate] hands to the triangulation are exactly
    the edges into each point from the point before it around its polygon,
    the points being numbered through all polygons; and the edges of one
    polygon are those of the list which holds only it. *)
Theorem triangulate_edges_go_around (polygons : list Points) :
  (Z.of_nat (length (concat polygons)) < 2 ^ 32)%Z ->
  Forall (fun pts => pts <> []) polygons ->
  (forall e,
     e ∈ polygons_edges 0 polygons ∅ <->
     exists k pts j,
       polygons !! k = Some pts /\ (j < length pts)%nat
       /\ e = edge_into (first_index polygons k) (length pts) j)
  /\ (forall pts, polygon_edges pts = polygons_edges 0 [pts] ∅).
Proof.
  intros Hw Hne. split; [|done].
  intros e. rewrite polygons_edges_spec by (done || lia).
  rewrite elem_of_empty. split.
  - intros [[]|H]. exact H.
  - intros H. right. exact H.
Qed.
Section FontsProofs.
Variable stbtt_fontinfo : Type.
Variable stbtt_vertices : Type.
Variable FILE : Type.
Variable stbtt_GetFontOffsetForIndex : list Byte.byte -> Z -> Z.
Variable stbtt_InitFont : list Byte.byte -> Z -> option stbtt_fontinfo.
Variable stbtt_FindGlyphIndex : stbtt_fontinfo -> Z -> Z.
Variable stbtt_GetGlyphHMetrics : stbtt_fontinfo -> Z -> Z * Z.
Variable stbtt_GetGlyphShape : stbtt_fontinfo -> Z -> Z * stbtt_vertices.
Variable stbtt_FlattenCurves :
  stbtt_vertices -> Z -> Q -> list stbtt__point * list Z.
Variable stbtt_GetFontVMetrics : stbtt_fontinfo -> Z * Z * Z.
Variable fopen : string -> option FILE.
Variable fseek_end : FILE -> Z.
Variable ftell : FILE -> Z.
Variable fread : FILE -> Z -> list Byte.byte.
Variable Point_of : Q -> Q -> Point.

Abbreviation get_glyph' :=
  (get_glyph stbtt_fontinfo stbtt_vertices stbtt_FindGlyphIndex stbtt_GetGlyphHMetrics stbtt_GetGlyphShape
     stbtt_FlattenCurves Point_of).
Abbreviation text_loop' :=
  (text_loop stbtt_fontinfo stbtt_vertices stbtt_FindGlyphIndex stbtt_GetGlyphHMetrics stbtt_GetGlyphShape
     stbtt_FlattenCurves Point_of).
Abbreviation text2polygons' :=
  (text2polygons stbtt_fontinfo stbtt_vertices stbtt_GetFontOffsetForIndex stbtt_InitFont
     stbtt_FindGlyphIndex stbtt_GetGlyphHMetrics stbtt_GetGlyphShape
     stbtt_FlattenCurves Point_of).
Abbreviation load_font_info' :=
  (load_font_info stbtt_fontinfo stbtt_GetFontOffsetForIndex stbtt_InitFont).
Abbreviation count_fonts' := (count_fonts stbtt_GetFontOffsetForIndex).
Abbreviation load_font' :=
  (load_font stbtt_fontinfo FILE stbtt_GetFontOffsetForIndex stbtt_InitFont stbtt_GetFontVMetrics
     fopen fseek_end ftell fread).

Lemma translate_translate (v w : Point) (polygon : Points) :
  translate w (translate v polygon)
  = translate (Point_add v w) polygon.
Proof.
  unfold translate. rewrite map_map. apply map_ext. intros [px py].
  destruct v, w. unfold Point_add. cbn. f_equal; lia.
Qed.

(** The loop appends to the polygons it starts with. *)
Lemma text_loop_result (font_info : stbtt_fontinfo) (font : Font)
    (flatness : Q) (ws : list Z) (cursor : Point) (result : list Points) :
  text_loop' font_info font flatness ws cursor result
  = match text_loop' font_info font flatness ws cursor [] with
    | Returned (cursor', polygons) => Returned (cursor', result ++ polygons)
    | CanceledException => CanceledException
    | OutOfBounds => OutOfBounds
    end.
Proof.
  revert cursor result. induction ws as [|wc ws IH]; intros cursor result.
  - cbn. by rewrite app_nil_r.
  - cbn [text_loop]. destruct (wc =? 10)%Z; [apply IH|].
    destruct (get_glyph' font_info wc flatness) as [[glyph|]| |];
      [|apply IH|done|done].
    rewrite IH. rewrite (IH _ ([] ++ _)). cbn [app].
    destruct (text_loop' _ _ _ ws _ []) as [[c r]| |]; [|done|done].
    by rewrite app_assoc.
Qed.

(** The loop on a text in two parts. *)
Lemma text_loop_app (font_info : stbtt_fontinfo) (font : Font) (flatness : Q)
    (ws1 ws2 : list Z) (cursor : Point) (result : list Points) :
  text_loop' font_info font flatness (ws1 ++ ws2) cursor result
  = match text_loop' font_info font flatness ws1 cursor result with
    | Returned (cursor', result') =>
        text_loop' font_info font flatness ws2 cursor' result'
    | CanceledException => CanceledException
    | OutOfBounds => OutOfBounds
    end.
Proof.
  revert cursor result. induction ws1 as [|wc ws1 IH]; intros cursor result;
    [done|].
  cbn [app text_loop]. destruct (wc =? 10)%Z; [apply IH|].
  destruct (get_glyph' font_info wc flatness) as [[glyph|]| |]; try done;
    apply IH.
Qed.

(** The loop started lower by [dy] gives everything lower by [dy]. *)
Lemma text_loop_lower (font_info : stbtt_fontinfo) (font : Font) (flatness : Q)
    (ws : list Z) (cursor : Point) (dy : Z) :
  text_loop' font_info font flatness ws
    (mkPoint (x cursor) (y cursor + dy)) []
  = match text_loop' font_info font flatness ws cursor [] with
    | Returned (cursor', polygons) =>
        Returned (mkPoint (x cursor') (y cursor' + dy),
                  map (translate (mkPoint 0 dy)) polygons)
    | CanceledException => CanceledException
    | OutOfBounds => OutOfBounds
    end.
Proof.
  revert cursor. induction ws as [|wc ws IH]; intros cursor; [done|].
  cbn [text_loop x y]. destruct (wc =? 10)%Z.
  - pose proof (IH (mkPoint 0 (y cursor - line_height font))) as IH'.
    cbn [x y] in IH'. unfold line_height in IH'. rewrite <- IH'.
    do 2 f_equal. lia.
  - destruct (get_glyph' font_info wc flatness) as [[glyph|]| |];
      [|apply IH|done|done].
    cbn [app]. rewrite text_loop_result.
    rewrite (text_loop_result _ _ _ ws (mkPoint (x cursor + _) (y cursor))).
    pose proof (IH (mkPoint (x cursor + advance_width glyph) (y cursor)))
      as IH'.
    cbn [x y] in IH'. rewrite IH'. clear IH'.
    destruct (text_loop' _ _ _ ws _ []) as [[c r]| |]; [|done|done].
    rewrite map_app, map_map. do 3 f_equal. apply map_ext. intros polygon.
    rewrite translate_translate. f_equal. destruct cursor. unfold Point_add.
    cbn. f_equal; lia.
Qed.

(** The height of the cursor after the loop. *)
Lemma text_loop_cursor (font_info : stbtt_fontinfo) (font : Font)
    (flatness : Q) (ws : list Z) (cursor cursor' : Point)
    (result result' : list Points) :
  text_loop' font_info font flatness ws cursor result
  = Returned (cursor', result') ->
  y cursor' = (y cursor - line_breaks ws * line_height font)%Z.
Proof.
  revert cursor result. induction ws as [|wc ws IH]; intros cursor result.
  - intros [= <- _]. unfold line_breaks. cbn. lia.
  - cbn [text_loop]. unfold line_breaks. rewrite filter_cons.
    destruct (Z.eqb_spec wc 10) as [->|Hwc].
    + intros H. apply IH in H. rewrite H. cbn [y].
      rewrite decide_True by done. cbn [length]. unfold line_breaks, line_height.
      lia.
    + rewrite decide_False by done.
      destruct (get_glyph' font_info wc flatness) as [[glyph|]| |];
        try done; intros H; apply IH in H; rewrite H; done.
Qed.

(** X29.  [Emboss::text2polygons] of a text with a line break is what it
    makes of the text before the break, followed by what it makes of the
    text after it moved down by one line height for each line break up to
    there. *)
Theorem text2polygons_line_break (font : Font) (flatness : Q)
    (line rest : list Z) (polygons_line polygons_rest : list Points) :
  text2polygons' font line flatness = Returned polygons_line ->
  text2polygons' font rest flatness = Returned polygons_rest ->
  text2polygons' font (line ++ 10%Z :: rest) flatness
  = Returned
      (polygons_line
       ++ map (translate
                 (mkPoint 0 (- (line_breaks line + 1) * line_height font)))
            polygons_rest).
Proof.
  unfold text2polygons.
  destruct (load_font_info' font) as [font_info|].
  2:{ by intros [= <-] [= <-]. }
  intros Hline Hrest. rewrite text_loop_app.
  destruct (text_loop' font_info font flatness line (mkPoint 0 0) [])
    as [[c1 r1]| |] eqn:H1; try discriminate. injection Hline as ->.
  pose proof (text_loop_cursor _ _ _ _ _ _ _ _ H1) as Hy. cbn [y] in Hy.
  cbn [text_loop]. cbn [Z.eqb Pos.eqb]. rewrite text_loop_result.
  fold (line_height font).
  pose proof (text_loop_lower font_info font flatness rest (mkPoint 0 0)
                (y c1 - line_height font)) as Hlow.
  cbn [x y] in Hlow. rewrite Z.add_0_l in Hlow. rewrite Hlow.
  destruct (text_loop' font_info font flatness rest (mkPoint 0 0) [])
    as [[c2 r2]| |]; try discriminate. injection Hrest as ->.
  replace (y c1 - line_height font)%Z
    with (- (line_breaks line + 1) * line_height font)%Z by lia.
  done.
Qed.

Lemma count_fonts_spec (fuel : nat) (buffer : list Byte.byte)
    (index font_offset result : Z) :
  (0 <= index)%Z -> (index + Z.of_nat fuel < 2 ^ 32)%Z ->
  count_fonts' fuel buffer index font_offset = Some result ->
  ((font_offset < 0)%Z /\ result = index)
  \/ ((0 <= font_offset)%Z
      /\ exists n, (index <= n)%Z /\ result = (n + 1)%Z
           /\ (forall i, (index <= i < n)%Z ->
                 (0 <= stbtt_GetFontOffsetForIndex buffer i)%Z)
           /\ (stbtt_GetFontOffsetForIndex buffer n < 0)%Z).
Proof.
  revert index font_offset. induction fuel as [|fuel IH];
    intros index font_offset Hi Hw; cbn [count_fonts];
    destruct (Z.ltb_spec font_offset 0) as [Hneg|Hpos].
  - intros [= <-]. by left.
  - discriminate.
  - intros [= <-]. by left.
  - rewrite to_uint32_t_small by lia. intros H.
    apply IH in H as [[Hneg ->]|(Hpos' & n & Hn & -> & Hall & Hend)];
      [| |lia|lia]; right; (split; [done|]).
    + exists index. split; [lia|]. split; [done|]. split; [intros; lia|done].
    + exists n. split; [lia|]. split; [done|]. split; [|done].
      intros i Hi'. destruct (decide (i = index)) as [->|Hne]; [done|].
      apply Hall. lia.
Qed.

Lemma count_fonts_ends (fuel : nat) (buffer : list Byte.byte)
    (index font_offset n : Z) :
  (0 <= index <= n)%Z -> (n - index < Z.of_nat fuel)%Z ->
  (stbtt_GetFontOffsetForIndex buffer n < 0)%Z ->
  (Z.of_nat fuel + index < 2 ^ 32)%Z ->
  is_Some (count_fonts' fuel buffer index font_offset).
Proof.
  revert index font_offset. induction fuel as [|fuel IH];
    intros index font_offset Hi Hfuel Hend Hw; [lia|].
  cbn [count_fonts]. destruct (font_offset <? 0)%Z; [done|].
  rewrite to_uint32_t_small by lia.
  destruct (decide (index = n)) as [->|Hne].
  - destruct fuel; cbn [count_fonts];
      by destruct (Z.ltb_spec (stbtt_GetFontOffsetForIndex buffer n) 0);
        [|lia].
  - apply IH; lia.
Qed.

(** X30.  The loop of [Emboss::load_font] which counts the fonts ends as
    soon as an index has no font, and never with a count below 1; and a font
    which [Emboss::load_font] returns has index 0 and a count which is one
    more than the number of fonts of the collection, which is at least
    one. *)
Theorem load_font_counts_one_more (fuel : nat) :
  (Z.of_nat fuel < 2 ^ 32)%Z ->
  (forall buffer n,
     (0 <= n)%Z -> (n < Z.of_nat fuel)%Z ->
     (stbtt_GetFontOffsetForIndex buffer n < 0)%Z ->
     is_Some (count_fonts stbtt_GetFontOffsetForIndex fuel buffer 0 0))
  /\ (forall buffer index,
        count_fonts stbtt_GetFontOffsetForIndex fuel buffer 0 0 = Some index ->
        (1 <= index)%Z)
  /\ (forall file_path (font : Font),
        load_font' fuel file_path = Some (Some font) ->
        index font = 0%Z
        /\ exists n,
             (1 <= n)%Z /\ count font = (n + 1)%Z
             /\ (forall i, (0 <= i < n)%Z ->
                   (0 <= stbtt_GetFontOffsetForIndex (buffer font) i)%Z)
             /\ (stbtt_GetFontOffsetForIndex (buffer font) n < 0)%Z).
Proof.
  intros Hfuel. split; [|split].
  - intros buffer n Hn Hlt Hend. apply (count_fonts_ends fuel buffer 0 0 n); lia.
  - intros buffer index H.
    apply count_fonts_spec in H as [[? _]|(_ & n & Hn & -> & _)]; lia.
  - intros file_path font. unfold load_font.
    destruct (fopen file_path) as [file|]; [|discriminate].
    destruct (negb _); [discriminate|].
    destruct (to_size_t (ftell file) =? 0)%Z; [discriminate|].
    set (buf := fread file (to_size_t (ftell file))).
    destruct (count_fonts' fuel buf 0 0) as [index|] eqn:Hcount;
      [|discriminate].
    destruct (index <? 1)%Z; [discriminate|].
    destruct (load_font_info' _) as [font_info|] eqn:Hinfo; [|discriminate].
    destruct (stbtt_GetFontVMetrics font_info) as [[a d] l].
    intros [= <-]. cbn [Emboss.index count buffer]. split; [done|].
    apply count_fonts_spec in Hcount as [[? _]|(_ & n & Hn & -> & Hall & Hend)];
      [lia| |lia|lia].
    exists n. split; [|done].
    unfold load_font_info in Hinfo. cbn [buffer Emboss.index] in Hinfo.
    destruct (Z.ltb_spec (stbtt_GetFontOffsetForIndex buf 0) 0) as [|H0];
      [discriminate|].
    destruct (decide (n = 0%Z)) as [->|]; lia.
Qed.
End FontsProofs.
End EmbossProofs.

Lemma polygons2model_is_well_formed_witness :
  length
    (Emboss.vertices
       (Emboss.polygons2model (fun polygons => length (concat polygons))
          (fun _ => [Emboss.mkVec3i 0 1 2; Emboss.mkVec3i 3 4 5])
          example_shape {| Emboss.m_depth := 1 |}))
  = 12%nat.
Proof.
  refine (proj1 (polygons2model_is_well_formed
                   (fun polygons => length (concat polygons))
                   (fun _ => [Emboss.mkVec3i 0 1 2; Emboss.mkVec3i 3 4 5])
                   example_shape {| Emboss.m_depth := 1 |} _ _)).
  - reflexivity.
  - vm_compute. reflexivity.
Defined.

Lemma triangulate_edges_go_around_witness :
  (2%Z, 0%Z) ∈ Emboss.polygons_edges 0 example_shape ∅
  /\ (3%Z, 4%Z) ∈ Emboss.polygons_edges 0 example_shape ∅.
Proof.
  assert (Hw : (Z.of_nat (length (concat example_shape)) < 2 ^ 32)%Z)
    by (vm_compute; reflexivity).
  assert (Hne : Forall (fun pts : Points => pts <> []) example_shape)
    by (repeat constructor; discriminate).
  split; apply (proj1 (triangulate_edges_go_around example_shape Hw Hne)).
  - exists 0%nat, [mkPoint 0 0; mkPoint 500 0; mkPoint 0 700], 0%nat.
    split; [reflexivity|]. split; [cbn; lia|reflexivity].
  - exists 1%nat, [mkPoint 100 100; mkPoint 100 200; mkPoint 200 100], 1%nat.
    split; [reflexivity|]. split; [cbn; lia|reflexivity].
Defined.

Lemma text2polygons_line_break_witness :
  example_text2polygons [65; 10; 66]%Z
  = Returned
      [ [mkPoint 0 0; mkPoint 500 0; mkPoint 0 700];
        [mkPoint 0 (-1090); mkPoint 500 (-1090); mkPoint 0 (-390)] ].
Proof.
  apply (text2polygons_line_break unit unit example_font_offset
           (fun _ _ => Some tt)
           (fun _ unicode_letter => Z.max 0 (unicode_letter - 64))
           (fun _ _ => (600, 50)%Z) (fun _ _ => (4%Z, tt))
           (fun _ _ _ =>
              ([ {| Emboss.px := 0; Emboss.py := 0 |};
                 {| Emboss.px := 500; Emboss.py := 0 |};
                 {| Emboss.px := 0; Emboss.py := 700 |};
                 {| Emboss.px := 0; Emboss.py := 0 |} ], [4%Z]))
           (fun a b => mkPoint (Qfloor a) (Qfloor b)) example_font 2
           [65%Z] [66%Z]
           [[mkPoint 0 0; mkPoint 500 0; mkPoint 0 700]]
           [[mkPoint 0 0; mkPoint 500 0; mkPoint 0 700]]).
  - vm_compute. reflexivity.
  - vm_compute. reflexivity.
Defined.

Lemma load_font_counts_one_more_witness :
  exists font,
    example_load_font 10 "fonts.ttc" = Some (Some font)
    /\ Emboss.index font = 0%Z.
Proof.
  eexists. split; [vm_compute; reflexivity|].
  refine (proj1 (proj2 (proj2 (load_font_counts_one_more unit unit
            example_font_offset (fun _ _ => Some tt)
            (fun _ => (800, -200, 90)%Z) (fun _ => Some tt) (fun _ => 0%Z)
            (fun _ => 3%Z) (fun _ _ => []) 10 _)) "fonts.ttc" _ _)).
  - vm_compute. reflexivity.
  - vm_compute. reflexivity.
Defined.
